(** * Scouts: renewal checker and course-listing parser

    A shallow embedding of the pure logic of the two scripts of the
    repository:

    - [check_all_renewals.py]: the two date parsers
      ([extract_safeguarding_date], [parse_vetting_date]), the four
      loops that fill [all_renewals] and [expired_items], and the two
      sorts of the display;
    - [scouts_courses_scraper.py]: the positional parser
      [parse_course_info], the three searches of
      [extract_courses_from_page] over what the browser returns, and the
      removal of duplicates and cleaning of fields in [main].

    Python values are modelled as follows.  A [str] is a list of 8-bit
    code points (the Latin-1 range of Python's [str]), classified the way
    Python classifies them.  A call that may raise returns an [outcome].
    A naive [datetime] is the record of its seven fields, compared
    field by field, and moved by whole days through its proleptic
    Gregorian ordinal, as the standard library does.  Reading the
    spreadsheets and printing are left out, and so are the log-in and the
    navigation of the browser in [scouts_courses_scraper.py]. *)

From Stdlib Require Import String Ascii ZArith Lia Bool Arith List Permutation Sorted.
Import ListNotations.

Set Implicit Arguments.

(** ** Outcomes of Python calls *)

Inductive exn : Type := ValueError | IndexError | OverflowError.

Inductive outcome (A : Type) : Type :=
| Returned (a : A)
| Raised (e : exn).

Arguments Returned {A} a.
Arguments Raised {A} e.

Definition bind {A B : Type} (m : outcome A) (f : A -> outcome B) : outcome B :=
  match m with
  | Returned a => f a
  | Raised e => Raised e
  end.

Notation "x <- m ;; k" := (bind m (fun x => k))
  (at level 61, m at next level, right associativity).

(** [for x in xs: acc = step(acc, x)], stopping at the first exception. *)
Fixpoint for_each {A S : Type} (step : S -> A -> outcome S) (xs : list A) (acc : S)
  : outcome S :=
  match xs with
  | [] => Returned acc
  | x :: xs' => acc' <- step acc x ;; for_each step xs' acc'
  end.

(** ** Python strings *)

Module PyStr.

Definition str : Type := list ascii.

Definition py (s : string) : str := list_ascii_of_string s.
Arguments py s%_string.

Definition ord (c : ascii) : N := N_of_ascii c.

Definition in_range (lo hi : N) (c : ascii) : bool :=
  ((lo <=? ord c) && (ord c <=? hi))%N.

(** [str.isspace] on one character; also the class [\s] of [re] on [str]
    patterns: TAB..CR, FS..US, SPACE, NEL and NBSP. *)
Definition isspace (c : ascii) : bool :=
  in_range 9 13 c || in_range 28 32 c || (ord c =? 133)%N || (ord c =? 160)%N.

(** The class [\d] of [re]: the decimal digits. *)
Definition isdigit (c : ascii) : bool := in_range 48 57 c.

(** [str.lower] on one character. *)
Definition lower_char (c : ascii) : ascii :=
  if in_range 65 90 c || (in_range 192 222 c && negb (ord c =? 215)%N)
  then ascii_of_N (ord c + 32)
  else c.

Definition lower (s : str) : str := map lower_char s.

Definition str_eqb (a b : str) : bool :=
  if list_eq_dec ascii_dec a b then true else false.

Fixpoint startswith (prefix s : str) : bool :=
  match prefix, s with
  | [], _ => true
  | p :: prefix', c :: s' => Ascii.eqb p c && startswith prefix' s'
  | _ :: _, [] => false
  end.

(** [needle in hay]. *)
Fixpoint contains (needle hay : str) : bool :=
  startswith needle hay ||
  match hay with
  | [] => false
  | _ :: hay' => contains needle hay'
  end.

Fixpoint lstrip (s : str) : str :=
  match s with
  | c :: s' => if isspace c then lstrip s' else s
  | [] => []
  end.

Definition rstrip (s : str) : str := rev (lstrip (rev s)).

(** [s.strip()]. *)
Definition strip (s : str) : str := rstrip (lstrip s).

(** [s.split(sep)] for a one-character separator: never the empty list. *)
Fixpoint split (sep : ascii) (s : str) : list str :=
  match s with
  | [] => [[]]
  | c :: s' =>
      if Ascii.eqb c sep then [] :: split sep s'
      else match split sep s' with
           | piece :: pieces => (c :: piece) :: pieces
           | [] => [[c]]
           end
  end.

Definition digit_value (c : ascii) : Z := Z.of_N (ord c) - 48.

(** [int(s)] on a string of decimal digits. *)
Definition int_of_digits (s : str) : Z :=
  fold_left (fun acc c => 10 * acc + digit_value c)%Z s 0%Z.

(** [xs[i]] for [i >= 0]. *)
Definition index {A : Type} (xs : list A) (i : nat) : outcome A :=
  match nth_error xs i with
  | Some x => Returned x
  | None => Raised IndexError
  end.

End PyStr.
Import PyStr.

(** ** The fragment of [re] the scripts use

    Literals, greedy bounded repetitions of a character class, capturing
    groups, concatenation and the two anchors.  [rmatch] lists every way
    the pattern can match at the current position, in the order in which
    the backtracking matcher of [re] tries them; its head is the match
    [re] reports. *)

Module Re.

Inductive cclass : Type := Digit | Space.

Inductive regex : Type :=
| Lit (c : ascii)
| Rep (k : cclass) (lo : nat) (hi : option nat)
| Cat (r1 r2 : regex)
| Grp (r : regex)
| Eps
| Bol
| Eol.

Infix ">>" := Cat (at level 60, right associativity).

Definition in_class (k : cclass) (c : ascii) : bool :=
  match k with
  | Digit => isdigit c
  | Space => isspace c
  end.

(** A pattern letter against a subject character; [ic] is [re.IGNORECASE]. *)
Definition lit_eqb (ic : bool) (c a : ascii) : bool :=
  if ic then Ascii.eqb (lower_char c) (lower_char a) else Ascii.eqb c a.

(** Length of the longest prefix of [s] inside the class. *)
Fixpoint run (k : cclass) (s : str) : nat :=
  match s with
  | c :: s' => if in_class k c then S (run k s') else 0
  | [] => 0
  end.

Definition rep_most (k : cclass) (hi : option nat) (s : str) : nat :=
  match hi with
  | Some h => Nat.min h (run k s)
  | None => run k s
  end.

(** The counts a greedy repetition tries: the most first, down to [lo]. *)
Definition rep_counts (k : cclass) (lo : nat) (hi : option nat) (s : str) : list nat :=
  rev (seq lo (S (rep_most k hi s) - lo)).

Definition newline : ascii := ascii_of_N 10.

(** [pos] is the index of the head of [s] in the subject.  A result is the
    captured groups (numbered by their opening parenthesis) and the rest
    of the subject. *)
Fixpoint rmatch (ic : bool) (r : regex) (pos : nat) (s : str) : list (list str * str) :=
  match r with
  | Lit c =>
      match s with
      | a :: s' => if lit_eqb ic c a then [([], s')] else []
      | [] => []
      end
  | Rep k lo hi => map (fun j => ([], skipn j s)) (rep_counts k lo hi s)
  | Cat r1 r2 =>
      flat_map
        (fun m1 =>
           map (fun m2 => (fst m1 ++ fst m2, snd m2))
               (rmatch ic r2 (pos + (length s - length (snd m1))) (snd m1)))
        (rmatch ic r1 pos s)
  | Grp r1 =>
      map (fun m => (firstn (length s - length (snd m)) s :: fst m, snd m))
          (rmatch ic r1 pos s)
  | Eps => [([], s)]
  | Bol => if Nat.eqb pos 0 then [([], s)] else []
  | Eol =>
      match s with
      | [] => [([], s)]
      | [c] => if Ascii.eqb c newline then [([], s)] else []
      | _ => []
      end
  end.

(** [re.match(r, s)]: the groups of the match at index 0. *)
Definition re_match (ic : bool) (r : regex) (s : str) : option (list str) :=
  match rmatch ic r 0 s with
  | m :: _ => Some (fst m)
  | [] => None
  end.

(** The scan of [re.search]: the first index, from [pos] on, with a match. *)
Fixpoint search_from (ic : bool) (r : regex) (pos : nat) (s : str) : option (list str) :=
  match rmatch ic r pos s with
  | m :: _ => Some (fst m)
  | [] =>
      match s with
      | [] => None
      | _ :: s' => search_from ic r (S pos) s'
      end
  end.

Definition re_search (ic : bool) (r : regex) (s : str) : option (list str) :=
  search_from ic r 0 s.

(** The scan of [re.findall]: [skip] characters belong to the previous
    match; after a match of [n > 0] characters the scan resumes behind it,
    after an empty one a character further. *)
Fixpoint findall_from (ic : bool) (r : regex) (pos skip : nat) (s : str) : list (list str) :=
  match skip with
  | S skip' =>
      match s with
      | [] => []
      | _ :: s' => findall_from ic r (S pos) skip' s'
      end
  | 0 =>
      match rmatch ic r pos s with
      | m :: _ =>
          fst m ::
          match s with
          | [] => []
          | _ :: s' => findall_from ic r (S pos) (length s - length (snd m) - 1) s'
          end
      | [] =>
          match s with
          | [] => []
          | _ :: s' => findall_from ic r (S pos) 0 s'
          end
      end
  end.

Definition re_findall (ic : bool) (r : regex) (s : str) : list (list str) :=
  findall_from ic r 0 0 s.

(** A word of the pattern, letter by letter, followed by [r]. *)
Definition lits (w : str) (r : regex) : regex := fold_right (fun c r' => Lit c >> r') r w.

End Re.
Import Re.

(** ** Naive [datetime] values

    The constructor, the addition of whole days, subtraction and the
    comparisons follow the standard library's [datetime] module:
    validation of the fields, [_ymd2ord] and [_ord2ymd] for the ordinal,
    comparison of the seven fields in order. *)

Module Datetime.

Local Open Scope Z_scope.

Record datetime : Type := mkdatetime {
  year : Z;
  month : Z;
  day : Z;
  hour : Z;
  minute : Z;
  second : Z;
  microsecond : Z
}.

Definition MINYEAR : Z := 1.
Definition MAXYEAR : Z := 9999.
Definition MAXORDINAL : Z := 3652059.

Definition is_leap (y : Z) : bool :=
  (y mod 4 =? 0) && (negb (y mod 100 =? 0) || (y mod 400 =? 0)).

Definition DAYS_IN_MONTH (m : Z) : Z :=
  match m with
  | 1 => 31 | 2 => 28 | 3 => 31 | 4 => 30 | 5 => 31 | 6 => 30
  | 7 => 31 | 8 => 31 | 9 => 30 | 10 => 31 | 11 => 30 | 12 => 31
  | _ => -1
  end.

Definition DAYS_BEFORE_MONTH (m : Z) : Z :=
  match m with
  | 1 => 0 | 2 => 31 | 3 => 59 | 4 => 90 | 5 => 120 | 6 => 151
  | 7 => 181 | 8 => 212 | 9 => 243 | 10 => 273 | 11 => 304 | 12 => 334
  | _ => -1
  end.

Definition days_in_month (y m : Z) : Z :=
  if (m =? 2) && is_leap y then 29 else DAYS_IN_MONTH m.

Definition days_before_year (y : Z) : Z :=
  let y' := y - 1 in y' * 365 + y' / 4 - y' / 100 + y' / 400.

Definition days_before_month (y m : Z) : Z :=
  DAYS_BEFORE_MONTH m + (if (2 <? m) && is_leap y then 1 else 0).

Definition ymd2ord (y m d : Z) : Z :=
  days_before_year y + days_before_month y m + d.

Definition DI400Y : Z := 146097.
Definition DI100Y : Z := 36524.
Definition DI4Y : Z := 1461.

Definition ord2ymd (n : Z) : Z * Z * Z :=
  let n := n - 1 in
  let n400 := n / DI400Y in
  let n := n mod DI400Y in
  let y := n400 * 400 + 1 in
  let n100 := n / DI100Y in
  let n := n mod DI100Y in
  let n4 := n / DI4Y in
  let n := n mod DI4Y in
  let n1 := n / 365 in
  let n := n mod 365 in
  let y := y + n100 * 100 + n4 * 4 + n1 in
  if (n1 =? 4) || (n100 =? 4) then (y - 1, 12, 31)
  else
    let leapyear := (n1 =? 3) && (negb (n4 =? 24) || (n100 =? 3)) in
    let m := Z.shiftr (n + 50) 5 in
    let preceding := DAYS_BEFORE_MONTH m + (if (2 <? m) && leapyear then 1 else 0) in
    if n <? preceding then
      let m := m - 1 in
      let preceding :=
        preceding - (DAYS_IN_MONTH m + (if (m =? 2) && leapyear then 1 else 0)) in
      (y, m, n - preceding + 1)
    else (y, m, n - preceding + 1).

(** The check the constructor applies to [year], [month] and [day]. *)
Definition valid_date (y m d : Z) : bool :=
  (MINYEAR <=? y) && (y <=? MAXYEAR) && (1 <=? m) && (m <=? 12) &&
  (1 <=? d) && (d <=? days_in_month y m).

(** [datetime(year, month, day)]: midnight of a valid calendar day. *)
Definition datetime_new (y m d : Z) : outcome datetime :=
  if valid_date y m d then Returned (mkdatetime y m d 0 0 0 0)
  else Raised ValueError.

Definition toordinal (dt : datetime) : Z :=
  ymd2ord (year dt) (month dt) (day dt).

(** [dt + timedelta(days=n)]: the time of day is kept. *)
Definition add_days (dt : datetime) (n : Z) : outcome datetime :=
  let o := toordinal dt + n in
  if (0 <? o) && (o <=? MAXORDINAL) then
    let '(y, m, d) := ord2ymd o in
    Returned (mkdatetime y m d (hour dt) (minute dt) (second dt) (microsecond dt))
  else Raised OverflowError.

Definition fields (dt : datetime) : list Z :=
  [year dt; month dt; day dt; hour dt; minute dt; second dt; microsecond dt].

Fixpoint cmp_fields (a b : list Z) : comparison :=
  match a, b with
  | x :: a', y :: b' =>
      match x ?= y with
      | Eq => cmp_fields a' b'
      | c => c
      end
  | [], [] => Eq
  | [], _ :: _ => Lt
  | _ :: _, [] => Gt
  end.

Definition cmp (a b : datetime) : comparison := cmp_fields (fields a) (fields b).

(** [a <= b] and [a < b]. *)
Definition le (a b : datetime) : bool :=
  match cmp a b with Gt => false | _ => true end.

Definition lt (a b : datetime) : bool :=
  match cmp a b with Lt => true | _ => false end.

(** Microseconds since the start of ordinal day 0. *)
Definition to_us (dt : datetime) : Z :=
  (((toordinal dt * 24 + hour dt) * 60 + minute dt) * 60 + second dt) * 1000000
  + microsecond dt.

(** [(a - b).days]: a [timedelta] keeps [0 <= seconds < 86400], so its
    [days] is the floor. *)
Definition sub_days (a b : datetime) : Z :=
  (to_us a - to_us b) / 86400000000.

(** [max(xs)]: the first of the largest items. *)
Fixpoint max_from (best : datetime) (xs : list datetime) : datetime :=
  match xs with
  | [] => best
  | x :: xs' => max_from (if lt best x then x else best) xs'
  end.

Definition py_max (xs : list datetime) : outcome datetime :=
  match xs with
  | [] => Raised ValueError
  | x :: xs' => Returned (max_from x xs')
  end.

(** A value a program can hold: every field in its range. *)
Definition wf (dt : datetime) : Prop :=
  valid_date (year dt) (month dt) (day dt) = true /\
  0 <= hour dt < 24 /\ 0 <= minute dt < 60 /\ 0 <= second dt < 60 /\
  0 <= microsecond dt < 1000000.

Definition digit_char (d : Z) : ascii := ascii_of_N (Z.to_N (48 + d)).

(** [n] in decimal, zero-padded to [width] digits ([n < 10 ^ width]). *)
Fixpoint zfill (width : nat) (n : Z) : str :=
  match width with
  | O => []
  | S w => zfill w (n / 10) ++ [digit_char (n mod 10)]
  end.

(** A date written [dd/mm/yyyy]: [strftime('%d/%m/%Y')] with the year on
    four digits. *)
Definition format_dmY (y m d : Z) : str :=
  zfill 2 d ++ py "/" ++ zfill 2 m ++ py "/" ++ zfill 4 y.

End Datetime.
Import Datetime.

(** ** [check_all_renewals.py] *)

Module Renewals.

(** A spreadsheet cell as [pandas] hands it over: missing ([pd.isna]), or
    a value given by its [str()]. *)
Inductive cell : Type :=
| NaN
| Text (s : str).

Definition slash : ascii := ascii_of_N 47.

Definition d12 : regex := Grp (Rep Digit 1 (Some 2)).
Definition d4 : regex := Grp (Rep Digit 4 (Some 4)).

(** [r'from\s+(\d{1,2})/(\d{1,2})/(\d{4})\s+to'] *)
Definition date_pattern : regex :=
  lits (py "from")
    (Rep Space 1 None >> d12 >> Lit slash >> d12 >> Lit slash >> d4
     >> Rep Space 1 None >> lits (py "to") Eps).

(** [r'(\d{1,2})/(\d{1,2})/(\d{4})'] *)
Definition date_pattern_alt : regex :=
  d12 >> Lit slash >> d12 >> Lit slash >> d4.

(** [r'^(\d{1,2})/(\d{1,2})/(\d{4})$'] *)
Definition vetting_pattern : regex :=
  Bol >> d12 >> Lit slash >> d12 >> Lit slash >> d4 >> Eol.

(** [day, month, year = groups; return datetime(int(year), int(month), int(day))] *)
Definition date_of_groups (groups : list str) : outcome (option datetime) :=
  match groups with
  | [day; month; year] =>
      d <- datetime_new (int_of_digits year) (int_of_digits month) (int_of_digits day) ;;
      Returned (Some d)
  | _ => Raised ValueError
  end.

Definition safeguarding_keywords : list str := [py "safeguarding"; py "safe guarding"].

Definition is_safeguarding (text : str) : bool :=
  existsb (fun keyword => contains (lower keyword) (lower text)) safeguarding_keywords.

Definition is_being_scouter (text : str) : bool :=
  contains (py "Being A Scouter") text.

Definition extract_safeguarding_date (text : cell) : outcome (option datetime) :=
  match text with
  | NaN => Returned None
  | Text text =>
      if negb (is_safeguarding text || is_being_scouter text) then Returned None
      else
        match re_search true date_pattern text with
        | Some groups => date_of_groups groups
        | None =>
            match re_findall false date_pattern_alt text with
            | [] => Returned None
            | m :: ms => date_of_groups (last ms m)
            end
        end
  end.

Definition parse_vetting_date (date_str : cell) : outcome (option datetime) :=
  match date_str with
  | NaN => Returned None
  | Text date_str =>
      match re_match false vetting_pattern (strip date_str) with
      | Some groups => date_of_groups groups
      | None => Returned None
      end
  end.

(** A row of the training report: the three named columns the script
    reads (by their [str()]) and the row by position for [row.iloc]. *)
Record training_row : Type := {
  t_first_name : str;
  t_surname : str;
  t_email : str;
  t_cells : list cell
}.

(** A row of the vetting report. *)
Record vetting_row : Type := {
  v_first_name : str;
  v_surname : str;
  v_email : str;
  v_latest_vetting_completion_date : cell
}.

Definition full_name (first surname : str) : str := first ++ py " " ++ surname.

(** The record stored under ['Safeguarding'] or ['Vetting'].  The script
    stores the two dates as their ['%d/%m/%Y'] rendering, for printing;
    here they are kept as dates. *)
Record info : Type := {
  last_completed : datetime;
  expiry_date : datetime;
  days_until : Z
}.

(** A value of [all_renewals]: the keys ['Safeguarding'] and ['Vetting']
    may be missing. *)
Record renewal : Type := {
  r_email : str;
  r_safeguarding : option info;
  r_vetting : option info
}.

(** A [dict] keyed by name, in insertion order. *)
Definition dict : Type := list (str * renewal).

Fixpoint dict_get (d : dict) (k : str) : option renewal :=
  match d with
  | [] => None
  | (k', v) :: d' => if str_eqb k' k then Some v else dict_get d' k
  end.

(** [d[k] = v]: in place when the key is there, at the end otherwise. *)
Fixpoint dict_set (d : dict) (k : str) (v : renewal) : dict :=
  match d with
  | [] => [(k, v)]
  | (k', v') :: d' =>
      if str_eqb k' k then (k', v) :: d' else (k', v') :: dict_set d' k v
  end.

Inductive requirement : Type := SafeguardingReq | VettingReq.

(** An item of [expired_items]; the dates are kept as dates here too. *)
Record expired : Type := {
  x_name : str;
  x_email : str;
  x_type : requirement;
  x_last_completed : datetime;
  x_expiry_date : datetime;
  x_days_expired : Z
}.

(** The inner loop over [range(5, 26)]. *)
Definition safeguarding_dates (row : training_row) : outcome (list datetime) :=
  for_each
    (fun all_safeguarding_dates col_idx =>
       course_text <- index (t_cells row) col_idx ;;
       date <- extract_safeguarding_date course_text ;;
       Returned match date with
                | Some d => all_safeguarding_dates ++ [d]
                | None => all_safeguarding_dates
                end)
    (seq 5 21) [].

Definition validity_days : Z := 365 * 3.

Definition in_window (today three_months_from_now expiry : datetime) : bool :=
  le today expiry && le expiry three_months_from_now.

Definition set_safeguarding (all_renewals : dict) (name email : str) (i : info) : dict :=
  match dict_get all_renewals name with
  | None => dict_set all_renewals name
              {| r_email := email; r_safeguarding := Some i; r_vetting := None |}
  | Some r => dict_set all_renewals name
              {| r_email := r_email r; r_safeguarding := Some i; r_vetting := r_vetting r |}
  end.

Definition set_vetting (all_renewals : dict) (name email : str) (i : info) : dict :=
  match dict_get all_renewals name with
  | None => dict_set all_renewals name
              {| r_email := email; r_safeguarding := None; r_vetting := Some i |}
  | Some r => dict_set all_renewals name
              {| r_email := r_email r; r_safeguarding := r_safeguarding r; r_vetting := Some i |}
  end.

Section Run.

Variable today : datetime.
Variable three_months_from_now : datetime.

(** Body of the first loop over [df_training]. *)
Definition renew_safeguarding (all_renewals : dict) (row : training_row) : outcome dict :=
  let name := full_name (t_first_name row) (t_surname row) in
  let email := t_email row in
  all_safeguarding_dates <- safeguarding_dates row ;;
  match all_safeguarding_dates with
  | [] => Returned all_renewals
  | _ :: _ =>
      latest_date <- py_max all_safeguarding_dates ;;
      expiry <- add_days latest_date validity_days ;;
      if in_window today three_months_from_now expiry then
        Returned (set_safeguarding all_renewals name email
                    {| last_completed := latest_date; expiry_date := expiry;
                       days_until := sub_days expiry today |})
      else Returned all_renewals
  end.

(** Body of the first loop over [df_vetting]. *)
Definition renew_vetting (all_renewals : dict) (row : vetting_row) : outcome dict :=
  let name := full_name (v_first_name row) (v_surname row) in
  let email := v_email row in
  vetting_date <- parse_vetting_date (v_latest_vetting_completion_date row) ;;
  match vetting_date with
  | None => Returned all_renewals
  | Some vetting_date =>
      expiry <- add_days vetting_date validity_days ;;
      if in_window today three_months_from_now expiry then
        Returned (set_vetting all_renewals name email
                    {| last_completed := vetting_date; expiry_date := expiry;
                       days_until := sub_days expiry today |})
      else Returned all_renewals
  end.

(** Body of the second loop over [df_training]. *)
Definition expired_safeguarding (expired_items : list expired) (row : training_row)
  : outcome (list expired) :=
  let name := full_name (t_first_name row) (t_surname row) in
  let email := t_email row in
  all_safeguarding_dates <- safeguarding_dates row ;;
  match all_safeguarding_dates with
  | [] => Returned expired_items
  | _ :: _ =>
      latest_date <- py_max all_safeguarding_dates ;;
      expiry <- add_days latest_date validity_days ;;
      if lt expiry today then
        Returned (expired_items ++
                  [{| x_name := name; x_email := email; x_type := SafeguardingReq;
                      x_last_completed := latest_date; x_expiry_date := expiry;
                      x_days_expired := sub_days today expiry |}])
      else Returned expired_items
  end.

(** Body of the second loop over [df_vetting]. *)
Definition expired_vetting (expired_items : list expired) (row : vetting_row)
  : outcome (list expired) :=
  let name := full_name (v_first_name row) (v_surname row) in
  let email := v_email row in
  vetting_date <- parse_vetting_date (v_latest_vetting_completion_date row) ;;
  match vetting_date with
  | None => Returned expired_items
  | Some vetting_date =>
      expiry <- add_days vetting_date validity_days ;;
      if lt expiry today then
        Returned (expired_items ++
                  [{| x_name := name; x_email := email; x_type := VettingReq;
                      x_last_completed := vetting_date; x_expiry_date := expiry;
                      x_days_expired := sub_days today expiry |}])
      else Returned expired_items
  end.

End Run.

(** The script from [today = datetime.now()] on, up to the two
    collections it then sorts and prints. *)
Definition check_all_renewals (today : datetime)
  (df_training : list training_row) (df_vetting : list vetting_row)
  : outcome (dict * list expired) :=
  three_months_from_now <- add_days today 90 ;;
  all_renewals <- for_each (renew_safeguarding today three_months_from_now) df_training [] ;;
  all_renewals <- for_each (renew_vetting today three_months_from_now) df_vetting all_renewals ;;
  expired_items <- for_each (expired_safeguarding today) df_training [] ;;
  expired_items <- for_each (expired_vetting today) df_vetting expired_items ;;
  Returned (all_renewals, expired_items).

End Renewals.
Import Renewals.

(** ** [scouts_courses_scraper.py] *)

Module Scraper.

Record course : Type := {
  title : str;
  description : str;
  status : str;
  location : str;
  date : str;
  bookable : str
}.

Definition empty_course : course :=
  {| title := []; description := []; status := []; location := [];
     date := []; bookable := [] |}.

Definition colon : ascii := ascii_of_N 58.
Definition hyphen : ascii := ascii_of_N 45.

Definition is_empty (s : str) : bool :=
  match s with [] => true | _ :: _ => false end.

(** [[line.strip() for line in raw_text.split('\n') if line.strip()]] *)
Definition stripped_lines (raw_text : str) : list str :=
  map strip (filter (fun line => negb (is_empty (strip line))) (split newline raw_text)).

Definition parse_course_info (raw_text : str) : outcome course :=
  if length raw_text <? 50 then Returned empty_course
  else
    let lines := stripped_lines raw_text in
    title_ <- index lines 0 ;;
    description_ <- index lines 1 ;;
    line2 <- index lines 2 ;;
    status_ <- index (split colon line2) 1 ;;
    line3 <- index lines 3 ;;
    location_ <- index (split hyphen line3) 0 ;;
    line3' <- index lines 3 ;;
    date_ <- index (split hyphen line3') 1 ;;
    let bookable_ := if 5 <? length lines then nth 5 lines [] else [] in
    if is_empty title_ && is_empty description_ then Returned empty_course
    else
      Returned {| title := title_; description := description_;
                  status := strip status_; location := strip location_;
                  date := strip date_; bookable := bookable_ |}.

End Scraper.
Import Scraper.

(** ** [check_all_renewals.py]: the order of the report *)

Module Report.

Local Open Scope Z_scope.

(** [sorted(xs, key=key)] and [xs.sort(key=key)] are stable: an item goes
    in front of the first item whose key is not smaller. *)
Fixpoint insert_by {A : Type} (key : A -> Z) (x : A) (sorted : list A) : list A :=
  match sorted with
  | [] => [x]
  | y :: sorted' => if key y <? key x then y :: insert_by key x sorted' else x :: sorted
  end.

Definition sorted_by {A : Type} (key : A -> Z) (xs : list A) : list A :=
  fold_right (insert_by key) [] xs.

(** [d.get(k, {}).get('Days Until', default)] *)
Definition days_until_or (o : option info) (default : Z) : Z :=
  match o with
  | Some i => days_until i
  | None => default
  end.

(** The key of the display loop over [all_renewals.items()]. *)
Definition display_key (item : str * renewal) : Z :=
  Z.min (days_until_or (r_safeguarding (snd item)) 999)
        (days_until_or (r_vetting (snd item)) 999).

Definition display_order (all_renewals : dict) : list (str * renewal) :=
  sorted_by display_key all_renewals.

(** [expired_items.sort(key=lambda x: x['Days Expired'])] *)
Definition expired_order (expired_items : list expired) : list expired :=
  sorted_by x_days_expired expired_items.

(** The two collections in the order the script prints them. *)
Definition report (today : datetime)
  (df_training : list training_row) (df_vetting : list vetting_row)
  : outcome (list (str * renewal) * list expired) :=
  collections <- check_all_renewals today df_training df_vetting ;;
  Returned (display_order (fst collections), expired_order (snd collections)).

End Report.
Import Report.

(** ** [scouts_courses_scraper.py]: from a page to the rows of the export *)

Module Courses.

(** A call into the browser: its value, or the exception it raised.  The
    callers catch every exception alike. *)
Inductive dom (A : Type) : Type :=
| Got (a : A)
| Threw.

Arguments Got {A} a.
Arguments Threw {A}.

(** An element of the broader searches: [is_displayed()], [text], and the
    [text] of the ancestor [find_element] returns for it. *)
Record probe : Type := {
  is_displayed : dom bool;
  text : dom str;
  parent_text : dom str
}.

(** The page as [extract_courses_from_page] reads it: the texts of the
    elements [find_elements] returns for a CSS selector, and the elements
    of the two XPath searches. *)
Record page : Type := {
  find_elements_css : str -> dom (list (dom str));
  training_elements : dom (list probe);
  pattern_elements : dom (list probe)
}.

Definition dquote : ascii := ascii_of_N 34.

(** The selector [tag[class*="word"]]. *)
Definition class_has (tag word : str) : str :=
  tag ++ py "[class*=" ++ dquote :: word ++ dquote :: py "]".

Definition course_selectors : list str :=
  [py "table tr"; py ".course-row"; py ".event-row"; py "ul li";
   class_has [] (py "course"); class_has [] (py "event"); class_has [] (py "training");
   class_has [] (py "card"); class_has [] (py "item");
   class_has (py "div") (py "list"); class_has (py "div") (py "grid")].

Definition course_keywords : list str :=
  [py "safeguarding"; py "training"; py "course"; py "workshop"; py "first aid";
   py "adult"; py "leader"; py "scouter"; py "woodbadge"; py "youth programme";
   py "scouting together"].

(** [len(text) > 100 and any(keyword.lower() in text.lower() for ...)] *)
Definition looks_like_course (text : str) : bool :=
  (100 <? length text) &&
  existsb (fun keyword => contains (lower keyword) (lower text)) course_keywords.

(** [if parsed_course['title']: courses.append(parsed_course)] *)
Definition keep (parsed_course : course) (courses : list course) : list course :=
  if is_empty (title parsed_course) then courses else courses ++ [parsed_course].

(** A [for] loop inside a [try]: the body gives [None] when it raises, and
    the list built so far stays as it is. *)
Fixpoint try_loop {A : Type} (body : list course -> A -> option (list course))
  (xs : list A) (courses : list course) : list course :=
  match xs with
  | [] => courses
  | x :: xs' =>
      match body courses x with
      | Some courses' => try_loop body xs' courses'
      | None => courses
      end
  end.

Definition parse_and_keep (text : str) (courses : list course) : option (list course) :=
  match parse_course_info text with
  | Returned parsed_course => Some (keep parsed_course courses)
  | Raised _ => None
  end.

Definition structured_body (courses : list course) (element : dom str)
  : option (list course) :=
  match element with
  | Threw => None
  | Got t =>
      let text := strip t in
      if looks_like_course text then parse_and_keep text courses else Some courses
  end.

Definition broader_body (courses : list course) (element : probe)
  : option (list course) :=
  match is_displayed element with
  | Threw => None
  | Got false => Some courses
  | Got true =>
      match text element, parent_text element with
      | Got _, Got t =>
          let parent_text := strip t in
          if (100 <? length parent_text) && contains (py "Status:") parent_text
             && contains (py "From") parent_text
          then parse_and_keep parent_text courses
          else Some courses
      | _, _ => None
      end
  end.

Definition pattern_body (courses : list course) (element : probe)
  : option (list course) :=
  match is_displayed element with
  | Threw => None
  | Got false => Some courses
  | Got true =>
      match parent_text element with
      | Got t => parse_and_keep (strip t) courses
      | Threw => None
      end
  end.

(** The loop over [course_selectors]. *)
Definition structured_search (p : page) : list course :=
  fold_left
    (fun courses selector =>
       match find_elements_css p selector with
       | Got elements => try_loop structured_body elements courses
       | Threw => courses
       end)
    course_selectors [].

(** [if not courses: try: for element in found: ... except: ...] *)
Definition search_if_empty (found : dom (list probe))
  (body : list course -> probe -> option (list course)) (courses : list course)
  : list course :=
  match courses with
  | [] =>
      match found with
      | Got elements => try_loop body elements courses
      | Threw => courses
      end
  | _ :: _ => courses
  end.

Definition extract_courses_from_page (p : page) : list course :=
  let courses := structured_search p in
  let courses := search_if_empty (training_elements p) broader_body courses in
  search_if_empty (pattern_elements p) pattern_body courses.

(** [f"{course['title']}-{course['date']}-{course['location']}"] *)
Definition identifier (c : course) : str :=
  title c ++ py "-" ++ date c ++ py "-" ++ location c.

Definition seen_has (seen : list str) (id : str) : bool :=
  existsb (str_eqb id) seen.

(** The loop of [main] that drops duplicates; [seen] is the set. *)
Definition dedup_step (state : list course * list str) (c : course)
  : list course * list str :=
  let '(unique_courses, seen) := state in
  if seen_has seen (identifier c) then state
  else (unique_courses ++ [c], identifier c :: seen).

Definition unique_courses (courses : list course) : list course :=
  fst (fold_left dedup_step courses ([], [])).

(** [s.encode('ascii', 'ignore').decode('ascii').strip()] *)
Definition clean (s : str) : str :=
  strip (filter (fun c => (ord c <? 128)%N) s).

Definition csv_header : list str :=
  [py "Title"; py "Description"; py "Status"; py "Location"; py "Date"; py "Bookable"].

Definition csv_row (c : course) : list str :=
  [clean (title c); clean (description c); clean (status c);
   clean (location c); clean (date c); clean (bookable c)].

(** The rows [main] hands to [csv.writer]; [None] when no course was found
    and no file is written. *)
Definition csv_rows (courses : list course) : option (list (list str)) :=
  match courses with
  | [] => None
  | _ :: _ => Some (csv_header :: map csv_row (unique_courses courses))
  end.

End Courses.
Import Courses.

(** * Vocabulary of the properties *)

Module Vocabulary.

Local Open Scope Z_scope.

Definition us_per_day : Z := 86400000000.

(** Exhaustive check of a predicate on [lo, lo + n). *)
Fixpoint all_from (n : nat) (lo : Z) (p : Z -> bool) : bool :=
  match n with
  | O => true
  | S k => p lo && all_from k (lo + 1) p
  end.

(** One 400-year cycle, day by day. *)
Definition cycle_ok (r : Z) : bool :=
  let '(y, m, d) := ord2ymd (r + 1) in
  (1 <=? y) && (y <=? 400) && (1 <=? m) && (m <=? 12) &&
  (1 <=? d) && (d <=? days_in_month y m) &&
  (ymd2ord y m d =? r + 1) &&
  ((145730 <? r) || (y <=? 399)).

Local Close Scope Z_scope.

(** Lines on which [parse_course_info] finds every piece it indexes. *)
Definition well_shaped (lines : list str) : Prop :=
  exists l0 l1 l2 l3 rest,
    lines = l0 :: l1 :: l2 :: l3 :: rest /\ In colon l2 /\ In hyphen l3.

(** The dates among the outcomes of the course columns. *)
Definition somes {A : Type} (os : list (option A)) : list A :=
  flat_map (fun o => match o with Some a => [a] | None => [] end) os.

(** A name is listed in [all_renewals] with a given record. *)
Definition listed_safeguarding (d : dict) (name : str) (i : info) : Prop :=
  exists r, dict_get d name = Some r /\ r_safeguarding r = Some i.

Definition listed_vetting (d : dict) (name : str) (i : info) : Prop :=
  exists r, dict_get d name = Some r /\ r_vetting r = Some i.

(** What a pattern matches.  [Matches ic r pos w rest gs]: at index [pos]
    of the subject the pattern [r] consumes the word [w], with [rest]
    following it, and captures the groups [gs]. *)
Inductive Matches (ic : bool) : regex -> nat -> str -> str -> list str -> Prop :=
| M_Lit c a pos rest :
    lit_eqb ic c a = true -> Matches ic (Lit c) pos [a] rest []
| M_Rep k lo hi pos w rest :
    Forall (fun c => in_class k c = true) w ->
    lo <= length w ->
    (forall h, hi = Some h -> length w <= h) ->
    Matches ic (Rep k lo hi) pos w rest []
| M_Cat r1 r2 pos w1 w2 rest g1 g2 :
    Matches ic r1 pos w1 (w2 ++ rest) g1 ->
    Matches ic r2 (pos + length w1) w2 rest g2 ->
    Matches ic (Cat r1 r2) pos (w1 ++ w2) rest (g1 ++ g2)
| M_Grp r pos w rest g :
    Matches ic r pos w rest g -> Matches ic (Grp r) pos w rest (w :: g)
| M_Eps pos rest : Matches ic Eps pos [] rest []
| M_Bol rest : Matches ic Bol 0 [] rest []
| M_Eol pos rest :
    rest = [] \/ rest = [newline] -> Matches ic Eol pos [] rest [].

(** [r] matches in [text] at index [i]: it consumes [w] there and
    captures [gs]. *)
Definition occurs (ic : bool) (r : regex) (text : str) (i : nat) (w : str)
  (gs : list str) : Prop :=
  exists pre rest, text = pre ++ w ++ rest /\ length pre = i /\ Matches ic r i w rest gs.

(** [r] matches nowhere in [text] from index [i] on. *)
Definition free_from (ic : bool) (r : regex) (text : str) (i : nat) : Prop :=
  forall j w gs, i <= j -> ~ occurs ic r text j w gs.

(** [r] matches nowhere in [text] before index [i]. *)
Definition free_before (ic : bool) (r : regex) (text : str) (i : nat) : Prop :=
  forall j w gs, j < i -> ~ occurs ic r text j w gs.

Definition all_chars : list ascii := map ascii_of_nat (seq 0 256).

(** No character that the pattern letter [c] accepts is in the class. *)
Definition lit_outside (ic : bool) (k : cclass) (c : ascii) : bool :=
  forallb (fun a => negb (lit_eqb ic c a && in_class k a)) all_chars.

Definition disjoint (k k' : cclass) : bool :=
  forallb (fun a => negb (in_class k a && in_class k' a)) all_chars.

(** Every match of the pattern begins with a character outside the class. *)
Fixpoint starts_outside (ic : bool) (k : cclass) (r : regex) : bool :=
  match r with
  | Lit c => lit_outside ic k c
  | Rep k' lo _ => (0 <? lo) && disjoint k k'
  | Cat r1 _ => starts_outside ic k r1
  | Grp r1 => starts_outside ic k r1
  | Eps | Bol | Eol => false
  end.

Definition fixed (lo : nat) (hi : option nat) : bool :=
  match hi with
  | Some h => h =? lo
  | None => false
  end.

(** The head of a sequence leaves no choice: it has one length, or what
    follows cannot begin inside its class. *)
Definition head_ok (ic : bool) (r1 r2 : regex) : bool :=
  match r1 with
  | Lit _ | Eps | Bol | Eol => true
  | Rep k lo hi | Grp (Rep k lo hi) => fixed lo hi || starts_outside ic k r2
  | _ => false
  end.

(** A sufficient check that a pattern has at most one match at a position. *)
Fixpoint unambiguous (ic : bool) (r : regex) : bool :=
  match r with
  | Lit _ | Eps | Bol | Eol => true
  | Rep _ lo hi => fixed lo hi
  | Grp r1 => unambiguous ic r1
  | Cat r1 r2 => head_ok ic r1 r2 && unambiguous ic r2
  end.

(** The scan of [re.findall] from index [i] on: each item is the match at
    the first index that has one, and the scan resumes behind it (one
    character further after an empty match). *)
Inductive Scan (ic : bool) (r : regex) (text : str) : nat -> list (list str) -> Prop :=
| Scan_done i : free_from ic r text i -> Scan ic r text i []
| Scan_hit i j w gs ms :
    i <= j ->
    (forall k w' gs', i <= k -> k < j -> ~ occurs ic r text k w' gs') ->
    occurs ic r text j w gs ->
    Scan ic r text (j + Nat.max 1 (length w)) ms ->
    Scan ic r text i (gs :: ms).

(** [needle] is a substring of [hay]. *)
Definition mentions (needle hay : str) : Prop :=
  exists pre post, hay = pre ++ needle ++ post.

(** The text names a safeguarding course. *)
Definition qualifying (text : str) : Prop :=
  mentions (py "safeguarding") (lower text) \/
  mentions (py "safe guarding") (lower text) \/
  mentions (py "Being A Scouter") text.

(** Number of capturing groups of a pattern. *)
Fixpoint groups_of (r : regex) : nat :=
  match r with
  | Grp r1 => S (groups_of r1)
  | Cat r1 r2 => groups_of r1 + groups_of r2
  | _ => 0
  end.

(** One or two digits, four digits, a run of whitespace. *)
Definition digits (lo hi : nat) (s : str) : Prop :=
  Forall (fun c => isdigit c = true) s /\ lo <= length s <= hi.

Definition blanks (s : str) : Prop :=
  Forall (fun c => isspace c = true) s /\ 1 <= length s.

(** [w] reads [D/M/Y]. *)
Definition dmy_text (w day month year : str) : Prop :=
  w = day ++ slash :: month ++ slash :: year /\
  digits 1 2 day /\ digits 1 2 month /\ digits 4 4 year.

(** [w] reads [from D/M/Y to], in any letter case. *)
Definition from_to_text (w day month year : str) : Prop :=
  exists f ws1 ws2 t,
    w = f ++ ws1 ++ day ++ slash :: month ++ slash :: year ++ ws2 ++ t /\
    lower f = py "from" /\ lower t = py "to" /\ blanks ws1 /\ blanks ws2 /\
    digits 1 2 day /\ digits 1 2 month /\ digits 4 4 year.

End Vocabulary.
Import Vocabulary.

(** * Vocabulary of the report *)

Module RowVocabulary.


(** A training row whose latest safeguarding date expires in the window,
    with the record the loop stores for it. *)
Definition training_due (today three_months_from_now : datetime) (row : training_row)
  (i : info) : Prop :=
  exists dates latest_date expiry,
    safeguarding_dates row = Returned dates /\
    py_max dates = Returned latest_date /\
    add_days latest_date validity_days = Returned expiry /\
    in_window today three_months_from_now expiry = true /\
    i = {| last_completed := latest_date; expiry_date := expiry;
           days_until := sub_days expiry today |}.

(** A vetting row whose vetting date expires in the window. *)
Definition vetting_due (today three_months_from_now : datetime) (row : vetting_row)
  (i : info) : Prop :=
  exists vetting_date expiry,
    parse_vetting_date (v_latest_vetting_completion_date row) = Returned (Some vetting_date) /\
    add_days vetting_date validity_days = Returned expiry /\
    in_window today three_months_from_now expiry = true /\
    i = {| last_completed := vetting_date; expiry_date := expiry;
           days_until := sub_days expiry today |}.

Definition training_name (row : training_row) : str :=
  full_name (t_first_name row) (t_surname row).

Definition vetting_name (row : vetting_row) : str :=
  full_name (v_first_name row) (v_surname row).

(** The last row of [rows] under [name] that is due, with its record. *)
Definition last_due {R : Type} (name_of : R -> str) (due : R -> info -> Prop)
  (rows : list R) (name : str) (i : info) : Prop :=
  exists before row after,
    rows = before ++ row :: after /\ name_of row = name /\ due row i /\
    forall row', In row' after -> name_of row' = name -> forall i', ~ due row' i'.

(** The first row of [rows] under [name] that is due. *)
Definition first_due {R : Type} (name_of : R -> str) (due : R -> info -> Prop)
  (rows : list R) (name : str) (row : R) : Prop :=
  exists before after i,
    rows = before ++ row :: after /\ name_of row = name /\ due row i /\
    forall row', In row' before -> name_of row' = name -> forall i', ~ due row' i'.

Definition none_due {R : Type} (name_of : R -> str) (due : R -> info -> Prop)
  (rows : list R) (name : str) : Prop :=
  forall row, In row rows -> name_of row = name -> forall i, ~ due row i.

(** The e-mail address stored under a name. *)
Definition listed_email (d : dict) (name email : str) : Prop :=
  exists r, dict_get d name = Some r /\ r_email r = email.

(** Every name is there once, and with at least one of its two records. *)
Definition one_entry_each (d : dict) : Prop :=
  NoDup (map fst d) /\
  forall name r, In (name, r) d -> r_safeguarding r <> None \/ r_vetting r <> None.

(** A training row whose latest safeguarding date expired before [today],
    with the item the loop appends for it. *)
Definition training_expired (today : datetime) (row : training_row) (x : expired) : Prop :=
  exists dates latest_date expiry,
    safeguarding_dates row = Returned dates /\
    py_max dates = Returned latest_date /\
    add_days latest_date validity_days = Returned expiry /\
    lt expiry today = true /\
    x = {| x_name := training_name row; x_email := t_email row;
           x_type := SafeguardingReq; x_last_completed := latest_date;
           x_expiry_date := expiry; x_days_expired := sub_days today expiry |}.

(** A vetting row whose vetting date expired before [today]. *)
Definition vetting_expired (today : datetime) (row : vetting_row) (x : expired) : Prop :=
  exists vetting_date expiry,
    parse_vetting_date (v_latest_vetting_completion_date row) = Returned (Some vetting_date) /\
    add_days vetting_date validity_days = Returned expiry /\
    lt expiry today = true /\
    x = {| x_name := vetting_name row; x_email := v_email row;
           x_type := VettingReq; x_last_completed := vetting_date;
           x_expiry_date := expiry; x_days_expired := sub_days today expiry |}.

(** [items] has one item for each row that [pick]s one, in the order of
    the rows. *)
Inductive picked {R X : Type} (pick : R -> X -> Prop) : list R -> list X -> Prop :=
| picked_nil : picked pick [] []
| picked_take (row : R) (rows : list R) (x : X) (items : list X) :
    pick row x -> picked pick rows items -> picked pick (row :: rows) (x :: items)
| picked_skip (row : R) (rows : list R) (items : list X) :
    (forall x, ~ pick row x) -> picked pick rows items -> picked pick (row :: rows) items.

Local Open Scope Z_scope.

(** The microseconds since midnight. *)
Definition time_of_day (d : datetime) : Z :=
  ((hour d * 60 + minute d) * 60 + second d) * 1000000 + microsecond d.

(** 1 when [today] is past midnight, 0 at midnight. *)
Definition past_midnight (today : datetime) : Z :=
  if time_of_day today =? 0 then 0 else 1.

(** A date one of the two parsers returns for some cell. *)
Definition dated (d : datetime) : Prop :=
  exists c : cell,
    parse_vetting_date c = Returned (Some d) \/
    extract_safeguarding_date c = Returned (Some d).

(** Three years of validity from [d] stay in the calendar. *)
Definition renewable (d : datetime) : Prop := toordinal d + 1095 <= MAXORDINAL.

(** The training row reads, and every date it gives can expire. *)
Definition training_row_reads (row : training_row) : Prop :=
  exists dates, safeguarding_dates row = Returned dates /\ Forall renewable dates.

(** The vetting row reads, and its date, when it has one, can expire. *)
Definition vetting_row_reads (row : vetting_row) : Prop :=
  exists o,
    parse_vetting_date (v_latest_vetting_completion_date row) = Returned o /\
    forall d, o = Some d -> renewable d.

Definition leap_day (y : Z) : Z := if is_leap y then 1 else 0.

(** The 29ths of February from a day of month [m] of year [y] to the same
    day three years later. *)
Definition leap_days_between (y m : Z) : Z :=
  if m <=? 2 then leap_day y + leap_day (y + 1) + leap_day (y + 2)
  else leap_day (y + 1) + leap_day (y + 2) + leap_day (y + 3).

Local Close Scope Z_scope.

End RowVocabulary.
Import RowVocabulary.

(** * Vocabulary of the export *)

Module CourseVocabulary.

(** [s.strip()] leaves [s] as it is. *)
Definition stripped (s : str) : Prop := strip s = s.

(** The fields of a course a text of 50 characters or more parses to. *)
Definition parsed_fields (c : course) : Prop :=
  title c <> [] /\ description c <> [] /\
  stripped (title c) /\ stripped (description c) /\ stripped (status c) /\
  stripped (location c) /\ stripped (date c) /\ stripped (bookable c) /\
  ~ In newline (title c) /\ ~ In newline (description c) /\
  ~ In newline (status c) /\ ~ In newline (location c) /\
  ~ In newline (date c) /\ ~ In newline (bookable c) /\
  ~ In colon (status c) /\ ~ In hyphen (location c) /\ ~ In hyphen (date c).

(** Some course of [courses] has the identifier of [c]. *)
Definition same_identifier_in (courses : list course) (c : course) : bool :=
  existsb (fun c' => str_eqb (identifier c) (identifier c')) courses.

(** Only characters of ASCII. *)
Definition ascii_only (s : str) : Prop := Forall (fun ch => (ord ch < 128)%N) s.

(** A course [parse_course_info] returns for a stripped text of 50
    characters or more. *)
Definition parsed_from_page (c : course) : Prop :=
  exists text,
    stripped text /\ 50 <= length text /\ parse_course_info text = Returned c /\
    parsed_fields c.

End CourseVocabulary.
Import CourseVocabulary.

(** * A small run *)

Module Sample.

Definition today : datetime := mkdatetime 2026 11 3 14 30 0 0.

(** A training row with one course, in column 5. *)
Definition training_of (first surname email : str) (course_text : cell) : training_row :=
  {| t_first_name := first; t_surname := surname; t_email := email;
     t_cells := repeat NaN 5 ++ [course_text] ++ repeat NaN 20 |}.

Definition vetting_of (first surname email : str) (date_str : cell) : vetting_row :=
  {| v_first_name := first; v_surname := surname; v_email := email;
     v_latest_vetting_completion_date := date_str |}.

Definition df_training : list training_row :=
  [training_of (py "Aoife") (py "Byrne") (py "aoife@example.org")
     (Text (py "Safeguarding Awareness from 12/12/2023 to 12/12/2023"));
   training_of (py "Brian") (py "Casey") (py "brian@example.org")
     (Text (py "Child Safeguarding, completed 01/02/2020"))].

Definition df_vetting : list vetting_row :=
  [vetting_of (py "Aoife") (py "Byrne") (py "a.byrne@example.org")
     (Text (py "20/01/2024"));
   vetting_of (py "Ciara") (py "Daly") (py "ciara@example.org") (Text (py "05/05/2021"));
   vetting_of (py "Dara") (py "Egan") (py "dara@example.org") NaN].

Definition run : outcome (dict * list expired) :=
  Eval vm_compute in check_all_renewals today df_training df_vetting.

Definition all_renewals : dict :=
  match run with Returned (d, _) => d | Raised _ => [] end.

Definition expired_items : list expired :=
  match run with Returned (_, x) => x | Raised _ => [] end.

(** The entry of the run. *)
Definition aoife : renewal :=
  {| r_email := py "aoife@example.org";
     r_safeguarding :=
       Some {| last_completed := mkdatetime 2023 12 12 0 0 0 0;
               expiry_date := mkdatetime 2026 12 11 0 0 0 0; days_until := 37 |};
     r_vetting :=
       Some {| last_completed := mkdatetime 2024 1 20 0 0 0 0;
               expiry_date := mkdatetime 2027 1 19 0 0 0 0; days_until := 76 |} |}.

(** [today + timedelta(days=90)]. *)
Definition three_months_from_now : datetime := mkdatetime 2027 2 1 14 30 0 0.

(** A vetting row whose expiry is on the day 90 days ahead. *)
Definition expires_in_90_days : vetting_row :=
  vetting_of (py "Fiona") (py "Grant") (py "fiona@example.org") (Text (py "02/02/2024")).

(** A vetting row and a training row whose expiry is on today's date. *)
Definition expires_today : vetting_row :=
  vetting_of (py "Gary") (py "Hayes") (py "gary@example.org") (Text (py "04/11/2023")).

Definition training_expires_today : training_row :=
  training_of (py "Gary") (py "Hayes") (py "gary@example.org")
    (Text (py "Safeguarding Awareness from 04/11/2023 to 04/11/2023")).

(** A vetting row with a date that is in no calendar. *)
Definition bad_row : vetting_row :=
  vetting_of (py "Eoin") (py "Flynn") (py "eoin@example.org") (Text (py "31/02/2024")).

Definition course_text : str := py "Safeguarding Awareness Programme
An introduction to safeguarding for the adult volunteers of the group
Status: Open
Larch Hill - 14/03/2026
NE-1234
Bookable".

Definition parsed_course : course :=
  {| title := py "Safeguarding Awareness Programme";
     description := py "An introduction to safeguarding for the adult volunteers of the group";
     status := py "Open"; location := py "Larch Hill"; date := py "14/03/2026";
     bookable := py "Bookable" |}.

(** A course text on one line. *)
Definition heading_text : str :=
  py "Training courses and workshops for adult volunteers, leaders and scouters of the province, by date and by place".

(** A page with one table row. *)
Definition one_row_page : page :=
  {| find_elements_css :=
       fun selector =>
         if str_eqb selector (py "table tr") then Got [Got course_text] else Got [];
     training_elements := Got [];
     pattern_elements := Got [] |}.

End Sample.

(** * Properties *)

(** ** The calendar *)

Module CalendarFacts.

Local Open Scope Z_scope.

Ltac zdiv := Z.div_mod_to_equations; lia.

Lemma is_leap_period (y q : Z) : is_leap (y + 400 * q) = is_leap y.
Proof.
  unfold is_leap.
  replace ((y + 400 * q) mod 4) with (y mod 4) by zdiv.
  replace ((y + 400 * q) mod 100) with (y mod 100) by zdiv.
  replace ((y + 400 * q) mod 400) with (y mod 400) by zdiv.
  reflexivity.
Qed.

Lemma days_before_year_period (y q : Z) :
  days_before_year (y + 400 * q) = days_before_year y + DI400Y * q.
Proof. unfold days_before_year, DI400Y. zdiv. Qed.

Lemma ymd2ord_period (y m d q : Z) :
  ymd2ord (y + 400 * q) m d = ymd2ord y m d + DI400Y * q.
Proof.
  unfold ymd2ord, days_before_month.
  rewrite is_leap_period, days_before_year_period. lia.
Qed.

Lemma days_in_month_period (y m q : Z) :
  days_in_month (y + 400 * q) m = days_in_month y m.
Proof. unfold days_in_month. now rewrite is_leap_period. Qed.

Lemma ord2ymd_period (r q : Z) :
  0 <= r < DI400Y ->
  ord2ymd (r + 1 + DI400Y * q) =
  let '(y, m, d) := ord2ymd (r + 1) in (y + 400 * q, m, d).
Proof.
  intros Hr. unfold ord2ymd.
  replace ((r + 1 + DI400Y * q - 1) / DI400Y) with q by (unfold DI400Y in *; zdiv).
  replace ((r + 1 + DI400Y * q - 1) mod DI400Y) with r by (unfold DI400Y in *; zdiv).
  replace ((r + 1 - 1) / DI400Y) with 0 by (unfold DI400Y in *; zdiv).
  replace ((r + 1 - 1) mod DI400Y) with r by (unfold DI400Y in *; zdiv).
  cbv zeta.
  repeat match goal with
         | |- context [if ?b then _ else _] => destruct b
         end; f_equal; try f_equal; lia.
Qed.

Lemma all_from_spec (n : nat) (p : Z -> bool) :
  forall lo, all_from n lo p = true ->
  forall r, lo <= r < lo + Z.of_nat n -> p r = true.
Proof.
  induction n as [|k IH]; intros lo H r Hr; [lia|].
  cbn [all_from] in H. apply andb_true_iff in H as [Hlo Hrest].
  destruct (Z.eq_dec r lo) as [->|Hne]; [exact Hlo|].
  apply (IH (lo + 1)); [exact Hrest|lia].
Qed.

Lemma cycle_checked : all_from (Z.to_nat DI400Y) 0 cycle_ok = true.
Proof. vm_cast_no_check (eq_refl true). Qed.

Lemma cycle_ok_all (r : Z) : 0 <= r < DI400Y -> cycle_ok r = true.
Proof.
  intros Hr. eapply all_from_spec; [exact cycle_checked|].
  rewrite Z2Nat.id by (unfold DI400Y; lia). lia.
Qed.

(** [_ymd2ord] undoes [_ord2ymd] on every ordinal of the calendar. *)
Lemma ord2ymd_valid (n : Z) :
  1 <= n <= MAXORDINAL ->
  let '(y, m, d) := ord2ymd n in
  valid_date y m d = true /\ ymd2ord y m d = n.
Proof.
  intros Hn.
  set (q := (n - 1) / DI400Y). set (r := (n - 1) mod DI400Y).
  assert (Hr : 0 <= r < DI400Y) by (subst r; unfold DI400Y; zdiv).
  assert (Hq : 0 <= q <= 24) by (subst q; unfold DI400Y, MAXORDINAL in *; zdiv).
  assert (Hq24 : q = 24 -> r <= 145730)
    by (subst q r; unfold DI400Y, MAXORDINAL in *; zdiv).
  assert (En : n = r + 1 + DI400Y * q) by (subst q r; unfold DI400Y; zdiv).
  rewrite En, ord2ymd_period by exact Hr.
  pose proof (cycle_ok_all Hr) as Hc. unfold cycle_ok in Hc.
  destruct (ord2ymd (r + 1)) as [[y m] d].
  repeat (apply andb_true_iff in Hc as [Hc ?]).
  split.
  - unfold valid_date, MINYEAR, MAXYEAR. rewrite days_in_month_period.
    repeat (apply andb_true_iff; split); try assumption; apply Z.leb_le.
    + lia.
    + assert (y <= 400) by (now apply Z.leb_le).
      destruct (Z.eq_dec q 24) as [->|]; [|lia].
      match goal with
      | H : (_ <? _) || _ = true |- _ =>
          apply orb_true_iff in H as [H|H]; [apply Z.ltb_lt in H; lia|apply Z.leb_le in H; lia]
      end.
  - rewrite ymd2ord_period.
    match goal with H : (ymd2ord _ _ _ =? _) = true |- _ => apply Z.eqb_eq in H; lia end.
Qed.

Lemma days_before_year_succ (y : Z) :
  days_before_year (y + 1) = days_before_year y + 365 + (if is_leap y then 1 else 0).
Proof.
  unfold days_before_year, is_leap.
  destruct (y mod 4 =? 0) eqn:E4; destruct (y mod 100 =? 0) eqn:E100;
    destruct (y mod 400 =? 0) eqn:E400; cbn [andb orb negb];
    repeat match goal with
           | H : (_ =? _) = true |- _ => apply Z.eqb_eq in H
           | H : (_ =? _) = false |- _ => apply Z.eqb_neq in H
           end; zdiv.
Qed.

Lemma days_before_year_mono (y1 y2 : Z) :
  y1 <= y2 -> days_before_year y1 <= days_before_year y2.
Proof. unfold days_before_year. intros. zdiv. Qed.

Lemma month_cases (m : Z) :
  1 <= m <= 12 ->
  m = 1 \/ m = 2 \/ m = 3 \/ m = 4 \/ m = 5 \/ m = 6 \/
  m = 7 \/ m = 8 \/ m = 9 \/ m = 10 \/ m = 11 \/ m = 12.
Proof. lia. Qed.

Ltac tables :=
  cbn [DAYS_IN_MONTH DAYS_BEFORE_MONTH Z.eqb Pos.eqb Z.ltb Z.compare Pos.compare
       Pos.compare_cont andb] in *.

Ltac each_month m H :=
  destruct (month_cases H) as [?|[?|[?|[?|[?|[?|[?|[?|[?|[?|[?|?]]]]]]]]]]]; subst m.

Lemma valid_date_bounds (y m d : Z) :
  valid_date y m d = true ->
  1 <= y <= 9999 /\ 1 <= m <= 12 /\ 1 <= d <= days_in_month y m.
Proof.
  unfold valid_date, MINYEAR, MAXYEAR. intros H.
  repeat (apply andb_true_iff in H as [H ?]).
  repeat match goal with H : (_ <=? _) = true |- _ => apply Z.leb_le in H end.
  lia.
Qed.

(** Within a year: day of the year, between 1 and the year's length. *)
Lemma day_of_year_bounds (y m d : Z) :
  1 <= m <= 12 -> 1 <= d <= days_in_month y m ->
  1 <= days_before_month y m + d <= 365 + (if is_leap y then 1 else 0).
Proof.
  intros Hm Hd. unfold days_before_month, days_in_month in *.
  each_month m Hm; destruct (is_leap y); tables; lia.
Qed.

Lemma day_of_year_lt (y m1 d1 m2 d2 : Z) :
  1 <= m1 <= 12 -> 1 <= d1 <= days_in_month y m1 ->
  1 <= m2 <= 12 -> 1 <= d2 <= days_in_month y m2 ->
  m1 < m2 ->
  days_before_month y m1 + d1 < days_before_month y m2 + d2.
Proof.
  intros Hm1 Hd1 Hm2 Hd2 Hlt. unfold days_before_month, days_in_month in *.
  each_month m1 Hm1; each_month m2 Hm2; try lia; destruct (is_leap y); tables; lia.
Qed.

(** The ordinal grows with the date, read as year, month, day. *)
Lemma ymd2ord_lt (y1 m1 d1 y2 m2 d2 : Z) :
  valid_date y1 m1 d1 = true -> valid_date y2 m2 d2 = true ->
  y1 < y2 \/ (y1 = y2 /\ (m1 < m2 \/ (m1 = m2 /\ d1 < d2))) ->
  ymd2ord y1 m1 d1 < ymd2ord y2 m2 d2.
Proof.
  intros V1 V2 H.
  apply valid_date_bounds in V1 as (Hy1 & Hm1 & Hd1).
  apply valid_date_bounds in V2 as (Hy2 & Hm2 & Hd2).
  unfold ymd2ord.
  destruct H as [Hy|[-> [Hm|[-> Hd]]]].
  - pose proof (@day_of_year_bounds y1 m1 d1 Hm1 Hd1).
    pose proof (@day_of_year_bounds y2 m2 d2 Hm2 Hd2).
    pose proof (days_before_year_succ y1).
    pose proof (@days_before_year_mono (y1 + 1) y2 ltac:(lia)).
    lia.
  - pose proof (@day_of_year_lt y2 m1 d1 m2 d2 Hm1 Hd1 Hm2 Hd2 Hm). lia.
  - lia.
Qed.

Lemma ymd2ord_range (y m d : Z) :
  valid_date y m d = true -> 1 <= ymd2ord y m d <= MAXORDINAL.
Proof.
  intros V. pose proof (@valid_date_bounds y m d V) as (Hy & Hm & Hd).
  pose proof (@day_of_year_bounds y m d Hm Hd).
  pose proof (@days_before_year_mono 1 y ltac:(lia)).
  pose proof (@days_before_year_mono (y + 1) 10000 ltac:(lia)).
  pose proof (days_before_year_succ y).
  unfold ymd2ord.
  change (days_before_year 1) with 0 in *.
  change (days_before_year 10000) with MAXORDINAL in *.
  lia.
Qed.

Lemma cmp_date_ord (y1 m1 d1 y2 m2 d2 : Z) :
  valid_date y1 m1 d1 = true -> valid_date y2 m2 d2 = true ->
  cmp_fields [y1; m1; d1] [y2; m2; d2] = (ymd2ord y1 m1 d1 ?= ymd2ord y2 m2 d2).
Proof.
  intros V1 V2. cbn [cmp_fields].
  pose proof (@ymd2ord_lt y1 m1 d1 y2 m2 d2 V1 V2) as L12.
  pose proof (@ymd2ord_lt y2 m2 d2 y1 m1 d1 V2 V1) as L21.
  symmetry.
  destruct (Z.compare_spec y1 y2) as [Ey|Ly|Gy];
    [destruct (Z.compare_spec m1 m2) as [Em|Lm|Gm];
     [destruct (Z.compare_spec d1 d2) as [Ed|Ld|Gd]| |]| |].
  - subst. apply Z.compare_refl.
  - apply Z.compare_lt_iff, L12. lia.
  - apply Z.compare_gt_iff, L21. lia.
  - apply Z.compare_lt_iff, L12. lia.
  - apply Z.compare_gt_iff, L21. lia.
  - apply Z.compare_lt_iff, L12. lia.
  - apply Z.compare_gt_iff, L21. lia.
Qed.

Lemma cmp_fields_app (a1 a2 b1 b2 : list Z) :
  length a1 = length a2 ->
  cmp_fields (a1 ++ b1) (a2 ++ b2) =
  match cmp_fields a1 a2 with
  | Eq => cmp_fields b1 b2
  | c => c
  end.
Proof.
  revert a2. induction a1 as [|x a1 IH]; intros [|y a2] Hlen; try discriminate.
  - reflexivity.
  - cbn [app cmp_fields]. destruct (x ?= y); try reflexivity.
    apply IH. now injection Hlen.
Qed.

Lemma cmp_fields_eq (a b : list Z) :
  length a = length b -> cmp_fields a b = Eq -> a = b.
Proof.
  revert b. induction a as [|x a IH]; intros [|y b] Hlen H; try discriminate.
  - reflexivity.
  - cbn [cmp_fields] in H. destruct (Z.compare_spec x y); try discriminate.
    subst. f_equal. apply IH; [now injection Hlen|exact H].
Qed.

Lemma cmp_eq (a b : datetime) : cmp a b = Eq -> a = b.
Proof.
  intros H. apply cmp_fields_eq in H; [|reflexivity].
  destruct a, b. unfold fields in H. cbn in H. now inversion H.
Qed.

Lemma cmp_refl (a : datetime) : cmp a a = Eq.
Proof.
  unfold cmp. induction (fields a) as [|x l IH]; [reflexivity|].
  cbn [cmp_fields]. now rewrite Z.compare_refl.
Qed.

(** Field-by-field comparison is comparison of instants. *)
Lemma cmp_to_us (a b : datetime) :
  wf a -> wf b -> cmp a b = (to_us a ?= to_us b).
Proof.
  intros (Va & Ha & Ma & Sa & Ua) (Vb & Hb & Mb & Sb & Ub).
  unfold cmp, fields.
  change [year a; month a; day a; hour a; minute a; second a; microsecond a]
    with ([year a; month a; day a] ++ [hour a; minute a; second a; microsecond a]).
  change [year b; month b; day b; hour b; minute b; second b; microsecond b]
    with ([year b; month b; day b] ++ [hour b; minute b; second b; microsecond b]).
  rewrite cmp_fields_app by reflexivity.
  rewrite cmp_date_ord by assumption.
  unfold to_us, toordinal. cbn [cmp_fields].
  set (oa := ymd2ord (year a) (month a) (day a)).
  set (ob := ymd2ord (year b) (month b) (day b)).
  symmetry.
  destruct (Z.compare_spec oa ob) as [Eo|Lo|Go];
    [destruct (Z.compare_spec (hour a) (hour b)) as [Eh|Lh|Gh];
     [destruct (Z.compare_spec (minute a) (minute b)) as [Em|Lm|Gm];
      [destruct (Z.compare_spec (second a) (second b)) as [Es|Ls|Gs];
       [destruct (Z.compare_spec (microsecond a) (microsecond b)) as [Eu|Lu|Gu]| |]| |]| |]| |];
    first [apply Z.compare_eq_iff; lia | apply Z.compare_lt_iff; lia | apply Z.compare_gt_iff; lia].
Qed.

Lemma le_to_us (a b : datetime) :
  wf a -> wf b -> (le a b = true <-> to_us a <= to_us b).
Proof.
  intros Wa Wb. unfold le. rewrite cmp_to_us by assumption.
  destruct (Z.compare_spec (to_us a) (to_us b)); split; intros; try lia; try reflexivity;
    discriminate.
Qed.

Lemma lt_to_us (a b : datetime) :
  wf a -> wf b -> (lt a b = true <-> to_us a < to_us b).
Proof.
  intros Wa Wb. unfold lt. rewrite cmp_to_us by assumption.
  destruct (Z.compare_spec (to_us a) (to_us b)); split; intros; try lia; try reflexivity;
    discriminate.
Qed.

Lemma datetime_new_wf (y m d : Z) (dt : datetime) :
  datetime_new y m d = Returned dt ->
  dt = mkdatetime y m d 0 0 0 0 /\ wf dt.
Proof.
  unfold datetime_new. destruct (valid_date y m d) eqn:V; [|discriminate].
  intros [= <-]. split; [reflexivity|]. unfold wf. cbn. repeat split; try lia. exact V.
Qed.

Lemma toordinal_range (dt : datetime) : wf dt -> 1 <= toordinal dt <= MAXORDINAL.
Proof. intros (V & _). now apply ymd2ord_range. Qed.

(** Adding whole days: the result exists exactly when the ordinal stays in
    the calendar, and it is the same time of day [n] days later. *)
Lemma add_days_spec (dt : datetime) (n : Z) :
  wf dt -> 0 < toordinal dt + n <= MAXORDINAL ->
  exists e,
    add_days dt n = Returned e /\ wf e /\
    toordinal e = toordinal dt + n /\
    (hour e, minute e, second e, microsecond e)
    = (hour dt, minute dt, second dt, microsecond dt) /\
    to_us e = to_us dt + n * us_per_day.
Proof.
  intros (V & Hh & Hm & Hs & Hu) Ho. unfold add_days.
  replace ((0 <? toordinal dt + n) && (toordinal dt + n <=? MAXORDINAL)) with true
    by (symmetry; apply andb_true_iff; split; [apply Z.ltb_lt|apply Z.leb_le]; lia).
  pose proof (@ord2ymd_valid (toordinal dt + n) ltac:(lia)) as Hinv.
  destruct (ord2ymd (toordinal dt + n)) as [[y m] d]. destruct Hinv as [Vy Eo].
  eexists. split; [reflexivity|].
  repeat split; cbn; try assumption; try lia.
  unfold to_us, toordinal, us_per_day. cbn. rewrite Eo. unfold toordinal. lia.
Qed.

Lemma add_days_overflow (dt : datetime) (n : Z) :
  ~ 0 < toordinal dt + n <= MAXORDINAL -> add_days dt n = Raised OverflowError.
Proof.
  intros H. unfold add_days.
  destruct (0 <? toordinal dt + n) eqn:E1; [|reflexivity].
  destruct (toordinal dt + n <=? MAXORDINAL) eqn:E2; [|reflexivity].
  apply Z.ltb_lt in E1. apply Z.leb_le in E2. lia.
Qed.


Lemma cmp_fields_antisym (a b : list Z) :
  length a = length b -> cmp_fields b a = CompOpp (cmp_fields a b).
Proof.
  revert b. induction a as [|x a IH]; intros [|y b] Hlen; try discriminate.
  - reflexivity.
  - cbn [cmp_fields]. rewrite (Z.compare_antisym x y).
    destruct (x ?= y); cbn [CompOpp]; try reflexivity.
    apply IH. now injection Hlen.
Qed.

Lemma cmp_fields_le_trans (a b c : list Z) :
  length a = length b -> length b = length c ->
  cmp_fields a b <> Gt -> cmp_fields b c <> Gt -> cmp_fields a c <> Gt.
Proof.
  revert b c. induction a as [|x a IH]; intros [|y b] [|z c] L1 L2; try discriminate.
  cbn [cmp_fields].
  destruct (Z.compare_spec x y), (Z.compare_spec y z), (Z.compare_spec x z);
    try lia; try congruence.
  apply IH; [now injection L1|now injection L2].
Qed.

Lemma fields_length (a : datetime) : length (fields a) = 7%nat.
Proof. reflexivity. Qed.

Lemma le_refl (a : datetime) : le a a = true.
Proof. unfold le. now rewrite cmp_refl. Qed.

Lemma le_trans (a b c : datetime) : le a b = true -> le b c = true -> le a c = true.
Proof.
  unfold le, cmp. intros H1 H2.
  assert (H : cmp_fields (fields a) (fields c) <> Gt).
  { apply cmp_fields_le_trans with (b := fields b); try reflexivity.
    - destruct (cmp_fields (fields a) (fields b)); congruence.
    - destruct (cmp_fields (fields b) (fields c)); congruence. }
  destruct (cmp_fields (fields a) (fields c)); congruence.
Qed.

Lemma lt_le (a b : datetime) : lt a b = true -> le a b = true.
Proof. unfold lt, le. destruct (cmp a b); congruence. Qed.

Lemma not_lt_le (a b : datetime) : lt a b = false -> le b a = true.
Proof.
  unfold lt, le, cmp. rewrite (@cmp_fields_antisym (fields a) (fields b)) by reflexivity.
  destruct (cmp_fields (fields a) (fields b)); cbn; congruence.
Qed.

Lemma le_antisym (a b : datetime) : le a b = true -> le b a = true -> a = b.
Proof.
  unfold le. intros H1 H2. apply cmp_eq. revert H1 H2. unfold cmp.
  rewrite (@cmp_fields_antisym (fields a) (fields b)) by reflexivity.
  destruct (cmp_fields (fields a) (fields b)); cbn; congruence.
Qed.

Lemma lt_irrefl (a : datetime) : lt a a = false.
Proof. unfold lt. now rewrite cmp_refl. Qed.

Lemma max_from_in (xs : list datetime) :
  forall best, In (max_from best xs) (best :: xs).
Proof.
  induction xs as [|x xs IH]; intros best; cbn [max_from].
  - now left.
  - destruct (IH (if lt best x then x else best)) as [E|Hin].
    + rewrite <- E. destruct (lt best x); [right; now left|now left].
    + right. now right.
Qed.

Lemma max_from_upper (xs : list datetime) :
  forall best x, In x (best :: xs) -> le x (max_from best xs) = true.
Proof.
  induction xs as [|y xs IH]; intros best x Hin; cbn [max_from].
  - destruct Hin as [<-|[]]. apply le_refl.
  - set (best' := if lt best y then y else best).
    assert (Hb : le best best' = true).
    { subst best'. destruct (lt best y) eqn:E; [now apply lt_le|apply le_refl]. }
    assert (Hy : le y best' = true).
    { subst best'. destruct (lt best y) eqn:E; [apply le_refl|now apply not_lt_le]. }
    destruct Hin as [<-|[<-|Hin]].
    + apply le_trans with (b := best'); [exact Hb|]. apply IH. now left.
    + apply le_trans with (b := best'); [exact Hy|]. apply IH. now left.
    + apply IH. now right.
Qed.

(** [max] of a non-empty list returns its greatest element, and there is
    only one. *)
Lemma py_max_spec (xs : list datetime) :
  xs <> [] ->
  exists latest,
    py_max xs = Returned latest /\ In latest xs /\
    (forall x, In x xs -> le x latest = true) /\
    (forall other, In other xs -> (forall x, In x xs -> le x other = true) -> other = latest).
Proof.
  destruct xs as [|x xs]; [congruence|]. intros _.
  exists (max_from x xs). split; [reflexivity|].
  split; [apply max_from_in|].
  split; [intros; now apply max_from_upper|].
  intros other Hin Hup. apply le_antisym.
  - now apply max_from_upper.
  - apply Hup, max_from_in.
Qed.

End CalendarFacts.
Import CalendarFacts.

(** ** Strings *)

Module StringFacts.

Lemma split_not_nil (sep : ascii) (s : str) : split sep s <> [].
Proof.
  destruct s as [|c s]; cbn [split]; [discriminate|].
  destruct (Ascii.eqb c sep); [discriminate|].
  destruct (split sep s); discriminate.
Qed.

(** A piece that holds no separator is cut off at the first separator. *)
Lemma split_app_sep (sep : ascii) (a s : str) :
  ~ In sep a -> split sep (a ++ sep :: s) = a :: split sep s.
Proof.
  induction a as [|c a IH]; intros Hn; cbn [app split].
  - now rewrite Ascii.eqb_refl.
  - destruct (Ascii.eqb_spec c sep) as [->|_]; [exfalso; apply Hn; now left|].
    rewrite IH by (intros H; apply Hn; now right). reflexivity.
Qed.

Lemma split_no_sep (sep : ascii) (a : str) :
  ~ In sep a -> split sep a = [a].
Proof.
  induction a as [|c a IH]; intros Hn; cbn [split]; [reflexivity|].
  destruct (Ascii.eqb_spec c sep) as [->|_]; [exfalso; apply Hn; now left|].
  rewrite IH by (intros H; apply Hn; now right). reflexivity.
Qed.

Lemma first_sep (sep : ascii) (s : str) :
  In sep s -> exists a t, s = a ++ sep :: t /\ ~ In sep a.
Proof.
  induction s as [|c s IH]; intros Hin; [destruct Hin|].
  destruct (ascii_dec c sep) as [->|Hne].
  - exists [], s. split; [reflexivity|intros []].
  - destruct Hin as [E|Hin]; [congruence|].
    destruct (IH Hin) as (a & t & -> & Hn).
    exists (c :: a), t. split; [reflexivity|].
    intros [E|H]; [congruence|now apply Hn].
Qed.

(** [s.split(sep)[1]] exists exactly when [sep] occurs in [s]. *)
Lemma split_second (sep : ascii) (s : str) :
  (exists piece, index (split sep s) 1 = Returned piece) <-> In sep s.
Proof.
  split.
  - intros [piece H]. destruct (in_dec ascii_dec sep s) as [Hin|Hn]; [exact Hin|].
    rewrite (@split_no_sep _ _ Hn) in H. discriminate.
  - intros Hin. destruct (@first_sep _ _ Hin) as (a & t & -> & Hn).
    rewrite (@split_app_sep _ _ _ Hn).
    pose proof (@split_not_nil sep t). destruct (split sep t) as [|p ps]; [congruence|].
    now exists p.
Qed.

Lemma split_second_none (sep : ascii) (s : str) :
  ~ In sep s -> index (split sep s) 1 = Raised IndexError.
Proof. intros Hn. now rewrite (@split_no_sep _ _ Hn). Qed.

Lemma split_first (sep : ascii) (s : str) :
  exists piece, index (split sep s) 0 = Returned piece.
Proof.
  pose proof (@split_not_nil sep s). destruct (split sep s) as [|p ps]; [congruence|].
  now exists p.
Qed.

(** The first two pieces of a split, read off the text. *)
Lemma split_two (sep : ascii) (a b tail : str) :
  ~ In sep a -> ~ In sep b -> tail = [] \/ (exists t, tail = sep :: t) ->
  exists pieces, split sep (a ++ sep :: b ++ tail) = a :: b :: pieces.
Proof.
  intros Ha Hb Ht. rewrite (@split_app_sep _ _ _ Ha).
  destruct Ht as [->|[t ->]].
  - rewrite app_nil_r, (@split_no_sep _ _ Hb). now exists [].
  - rewrite (@split_app_sep _ _ _ Hb). now eexists.
Qed.

End StringFacts.
Import StringFacts.

(** ** The course parser *)

Module ScraperFacts.

Lemma stripped_lines_spec (raw_text l : str) :
  In l (stripped_lines raw_text) <->
  exists line, In line (split newline raw_text) /\ l = strip line /\ l <> [].
Proof.
  unfold stripped_lines. rewrite in_map_iff. split.
  - intros (line & <- & Hin). apply filter_In in Hin as [Hin Hne].
    exists line. repeat split; [exact Hin|].
    destruct (strip line); [discriminate|discriminate].
  - intros (line & Hin & -> & Hne). exists line. split; [reflexivity|].
    apply filter_In. split; [exact Hin|].
    destruct (strip line); [congruence|reflexivity].
Qed.

Lemma stripped_lines_nonempty (raw_text l : str) :
  In l (stripped_lines raw_text) -> is_empty l = false.
Proof.
  intros H. apply stripped_lines_spec in H as (_ & _ & _ & Hne).
  destruct l; [congruence|reflexivity].
Qed.

(** The parser on a text of at least 50 characters, once the three
    indexings of the split lines succeed. *)
Lemma parse_course_info_long (raw_text l0 l1 l2 l3 st loc dt : str) (rest : list str) :
  50 <= length raw_text ->
  stripped_lines raw_text = l0 :: l1 :: l2 :: l3 :: rest ->
  index (split colon l2) 1 = Returned st ->
  index (split hyphen l3) 0 = Returned loc ->
  index (split hyphen l3) 1 = Returned dt ->
  parse_course_info raw_text =
  Returned {| title := l0; description := l1; status := strip st;
              location := strip loc; date := strip dt;
              bookable := nth 5 (stripped_lines raw_text) [] |}.
Proof.
  intros Hlen Hlines Hst Hloc Hdt. unfold parse_course_info.
  replace (length raw_text <? 50) with false by (symmetry; apply Nat.ltb_ge; exact Hlen).
  assert (H0 : is_empty l0 = false).
  { apply stripped_lines_nonempty with (raw_text := raw_text). rewrite Hlines. now left. }
  rewrite Hlines. cbn [index nth_error bind].
  rewrite Hst. cbn [bind]. rewrite Hloc. cbn [bind]. rewrite Hdt. cbn [bind].
  rewrite H0. cbn [andb]. f_equal. f_equal.
  destruct rest as [|l4 [|l5 rest]]; reflexivity.
Qed.

(** The length guard. *)
Lemma parse_course_info_guard (raw_text : str) :
  length raw_text < 50 -> parse_course_info raw_text = Returned empty_course.
Proof.
  intros H. unfold parse_course_info. apply Nat.ltb_lt in H. now rewrite H.
Qed.

Lemma well_shaped_dec (lines : list str) : {well_shaped lines} + {~ well_shaped lines}.
Proof.
  destruct lines as [|l0 [|l1 [|l2 [|l3 rest]]]];
    try (right; intros (? & ? & ? & ? & ? & E & _); discriminate).
  destruct (in_dec ascii_dec colon l2) as [Hc|Hc];
    [destruct (in_dec ascii_dec hyphen l3) as [Hh|Hh]|].
  - left. now exists l0, l1, l2, l3, rest.
  - right. intros (? & ? & ? & ? & ? & E & _ & H). injection E as -> -> -> -> ->. tauto.
  - right. intros (? & ? & ? & ? & ? & E & H & _). injection E as -> -> -> -> ->. tauto.
Qed.

Lemma parse_course_info_well_shaped (raw_text : str) :
  50 <= length raw_text -> well_shaped (stripped_lines raw_text) ->
  exists c, parse_course_info raw_text = Returned c.
Proof.
  intros Hlen (l0 & l1 & l2 & l3 & rest & Hlines & Hc & Hh).
  apply split_second in Hc as [st Hst]. apply split_second in Hh as [dt Hdt].
  destruct (split_first hyphen l3) as [loc Hloc].
  eexists. eapply parse_course_info_long; eassumption.
Qed.

Lemma parse_course_info_ill_shaped (raw_text : str) :
  50 <= length raw_text -> ~ well_shaped (stripped_lines raw_text) ->
  parse_course_info raw_text = Raised IndexError.
Proof.
  intros Hlen Hn. unfold parse_course_info.
  replace (length raw_text <? 50) with false by (symmetry; apply Nat.ltb_ge; exact Hlen).
  destruct (stripped_lines raw_text) as [|l0 [|l1 [|l2 [|l3 rest]]]]; try reflexivity.
  { cbn [index nth_error bind]. unfold index at 1.
    destruct (nth_error (split colon l2) 1); reflexivity. }
  cbn [index nth_error bind].
  destruct (in_dec ascii_dec colon l2) as [Hc|Hc].
  - destruct (in_dec ascii_dec hyphen l3) as [Hh|Hh].
    + exfalso. apply Hn. now exists l0, l1, l2, l3, rest.
    + apply split_second in Hc as [st Hst]. rewrite Hst. cbn [bind].
      destruct (split_first hyphen l3) as [loc Hloc]. rewrite Hloc. cbn [bind].
      now rewrite (@split_second_none _ _ Hh).
  - now rewrite (@split_second_none _ _ Hc).
Qed.

End ScraperFacts.
Import ScraperFacts.


(** ** Patterns *)

Module ReFacts.

Lemma run_le_length (k : cclass) (s : str) : run k s <= length s.
Proof.
  induction s as [|c s IH]; cbn [run length]; [lia|].
  destruct (in_class k c); lia.
Qed.

Lemma run_firstn (k : cclass) (s : str) :
  forall j, j <= run k s -> Forall (fun c => in_class k c = true) (firstn j s).
Proof.
  induction s as [|c s IH]; intros j Hj; cbn [run] in Hj.
  - now rewrite firstn_nil.
  - destruct j as [|j]; [constructor|]. cbn [firstn].
    destruct (in_class k c) eqn:E; [|lia].
    constructor; [exact E|apply IH; lia].
Qed.

Lemma run_app (k : cclass) (w rest : str) :
  Forall (fun c => in_class k c = true) w -> length w <= run k (w ++ rest).
Proof.
  induction 1 as [|c w Hc _ IH]; cbn [app run length]; [lia|].
  rewrite Hc. lia.
Qed.

Lemma in_rep_counts (k : cclass) (lo : nat) (hi : option nat) (s : str) (j : nat) :
  In j (rep_counts k lo hi s) <->
  lo <= j /\ j <= run k s /\ (forall h, hi = Some h -> j <= h).
Proof.
  unfold rep_counts, rep_most. rewrite <- in_rev, in_seq.
  destruct hi as [h|].
  - split.
    + intros H. repeat split; try lia. intros h' [= <-]. lia.
    + intros (H1 & H2 & H3). specialize (H3 h eq_refl). lia.
  - split.
    + intros H. repeat split; try lia. discriminate.
    + intros (H1 & H2 & _). lia.
Qed.

(** [rmatch] lists exactly the matches of the pattern at the position. *)
Theorem rmatch_spec (ic : bool) (r : regex) :
  forall pos s gs rest,
    In (gs, rest) (rmatch ic r pos s) <->
    exists w, s = w ++ rest /\ Matches ic r pos w rest gs.
Proof.
  induction r as [c|k lo hi|r1 IH1 r2 IH2|r IH| | |]; intros pos s gs rest; cbn [rmatch].
  - (* Lit *)
    split.
    + destruct s as [|a s']; [intros []|].
      destruct (lit_eqb ic c a) eqn:E; [|intros []].
      intros [[= <- <-]|[]]. exists [a]. split; [reflexivity|now constructor].
    + intros (w & -> & H). inversion H; subst. cbn [app].
      match goal with E : lit_eqb _ _ _ = true |- _ => rewrite E end. now left.
  - (* Rep *)
    rewrite in_map_iff. split.
    + intros (j & [= <- <-] & Hj). apply in_rep_counts in Hj as (H1 & H2 & H3).
      pose proof (run_le_length k s).
      exists (firstn j s). split; [now rewrite firstn_skipn|].
      constructor.
      * now apply run_firstn.
      * rewrite length_firstn. lia.
      * intros h Hh. rewrite length_firstn. specialize (H3 h Hh). lia.
    + intros (w & -> & H). inversion H; subst.
      exists (length w). split.
      * f_equal. rewrite skipn_app, Nat.sub_diag, skipn_all. reflexivity.
      * apply in_rep_counts. repeat split; try assumption. now apply run_app.
  - (* Cat *)
    rewrite in_flat_map. split.
    + intros ([g1 s1] & H1 & H2). cbn [fst snd] in H2.
      apply in_map_iff in H2 as ([g2 s2] & [= <- <-] & H2).
      apply IH1 in H1 as (w1 & -> & M1). apply IH2 in H2 as (w2 & -> & M2).
      exists (w1 ++ w2). split; [now rewrite app_assoc|].
      constructor; [exact M1|].
      replace (pos + length w1)
        with (pos + (length (w1 ++ w2 ++ s2) - length (w2 ++ s2)))
        by (rewrite !length_app; lia).
      exact M2.
    + intros (w & -> & H). inversion H; subst.
      exists (g1, w2 ++ rest). split.
      * apply IH1. exists w1. split; [now rewrite app_assoc|assumption].
      * cbn [fst snd]. apply in_map_iff. exists (g2, rest). split; [reflexivity|].
        apply IH2. exists w2. split; [reflexivity|].
        replace (pos + (length ((w1 ++ w2) ++ rest) - length (w2 ++ rest)))
          with (pos + length w1) by (rewrite !length_app; lia).
        assumption.
  - (* Grp *)
    rewrite in_map_iff. split.
    + intros ([g s1] & [= <- <-] & H). cbn [fst snd].
      apply IH in H as (w & -> & M). exists w. split; [reflexivity|].
      replace (firstn (length (w ++ s1) - length s1) (w ++ s1)) with w.
      * now constructor.
      * rewrite length_app, Nat.add_sub, firstn_app, Nat.sub_diag, firstn_all.
        cbn [firstn]. now rewrite app_nil_r.
    + intros (w & -> & H). inversion H; subst.
      exists (g, rest). split.
      * cbn [fst snd]. f_equal. f_equal.
        rewrite length_app, Nat.add_sub, firstn_app, Nat.sub_diag, firstn_all.
        cbn [firstn]. now rewrite app_nil_r.
      * apply IH. now exists w.
  - (* Eps *)
    split.
    + intros [[= <- <-]|[]]. exists []. split; [reflexivity|constructor].
    + intros (w & -> & H). inversion H; subst. now left.
  - (* Bol *)
    split.
    + destruct (Nat.eqb_spec pos 0) as [->|]; [|intros []].
      intros [[= <- <-]|[]]. exists []. split; [reflexivity|constructor].
    + intros (w & -> & H). inversion H; subst. now left.
  - (* Eol *)
    split.
    + destruct s as [|c [|c' s']].
      * intros [[= <- <-]|[]]. exists []. split; [reflexivity|constructor; now left].
      * destruct (Ascii.eqb_spec c newline) as [->|]; [|intros []].
        intros [[= <- <-]|[]]. exists []. split; [reflexivity|constructor; now right].
      * intros [].
    + intros (w & -> & H). inversion H as [| | | | | |? ? [->| ->]]; subst; cbn [app].
      * now left.
      * rewrite Ascii.eqb_refl. now left.
Qed.


Lemma occurs_rmatch (ic : bool) (r : regex) (text : str) (i : nat) (w : str) (gs : list str) :
  occurs ic r text i w gs <->
  i <= length text /\
  exists rest, skipn i text = w ++ rest /\ In (gs, rest) (rmatch ic r i (skipn i text)).
Proof.
  split.
  - intros (pre & rest & -> & <- & M).
    split; [rewrite length_app; lia|]. exists rest.
    rewrite skipn_app, Nat.sub_diag, skipn_all. cbn [skipn app].
    split; [reflexivity|]. apply rmatch_spec. now exists w.
  - intros (Hi & rest & Hs & Hin). apply rmatch_spec in Hin as (w' & E & M).
    rewrite Hs in E. apply app_inv_tail in E. subst w'.
    exists (firstn i text), rest. split; [|split].
    + now rewrite <- Hs, firstn_skipn.
    + rewrite length_firstn. lia.
    + exact M.
Qed.

Lemma rmatch_nil_occurs (ic : bool) (r : regex) (text : str) (i : nat) :
  i <= length text ->
  (rmatch ic r i (skipn i text) = [] <-> forall w gs, ~ occurs ic r text i w gs).
Proof.
  intros Hi. split.
  - intros E w gs H. apply occurs_rmatch in H as (_ & rest & _ & Hin).
    rewrite E in Hin. destruct Hin.
  - intros H. destruct (rmatch ic r i (skipn i text)) as [|[gs rest] tl] eqn:E; [reflexivity|].
    exfalso.
    assert (Hin : In (gs, rest) (rmatch ic r i (skipn i text))) by (rewrite E; now left).
    pose proof Hin as Hin'. apply rmatch_spec in Hin' as (w & Hs & _).
    apply (H w gs). apply occurs_rmatch. split; [exact Hi|]. now exists rest.
Qed.

Lemma occurs_in_range (ic : bool) (r : regex) (text : str) (i : nat) (w : str) (gs : list str) :
  occurs ic r text i w gs -> i + length w <= length text.
Proof. intros (pre & rest & -> & <- & _). rewrite !length_app. lia. Qed.

(** The scan of [re.search], from a suffix of the subject. *)
Lemma search_from_none (ic : bool) (r : regex) (s : str) :
  forall pos,
    search_from ic r pos s = None <->
    forall i, i <= length s -> rmatch ic r (pos + i) (skipn i s) = [].
Proof.
  induction s as [|c s IH]; intros pos; cbn [search_from].
  - destruct (rmatch ic r pos []) as [|m tl] eqn:E.
    + split; [|reflexivity]. intros _ i Hi. cbn in Hi.
      replace i with 0 by lia. now rewrite Nat.add_0_r.
    + split; [discriminate|]. intros H. specialize (H 0 (Nat.le_0_l _)).
      rewrite Nat.add_0_r in H. cbn [skipn] in H. congruence.
  - destruct (rmatch ic r pos (c :: s)) as [|m tl] eqn:E.
    + rewrite IH. split.
      * intros H [|i] Hi.
        -- now rewrite Nat.add_0_r.
        -- cbn [skipn]. rewrite Nat.add_succ_r. apply H. cbn in Hi. lia.
      * intros H i Hi. specialize (H (S i)). cbn [skipn length] in H.
        rewrite Nat.add_succ_r in H. apply H. lia.
    + split; [discriminate|]. intros H. specialize (H 0 (Nat.le_0_l _)).
      rewrite Nat.add_0_r in H. cbn [skipn] in H. congruence.
Qed.

Lemma search_from_some (ic : bool) (r : regex) (s : str) :
  forall pos gs,
    search_from ic r pos s = Some gs ->
    exists i rest tl,
      i <= length s /\
      rmatch ic r (pos + i) (skipn i s) = (gs, rest) :: tl /\
      forall j, j < i -> rmatch ic r (pos + j) (skipn j s) = [].
Proof.
  induction s as [|c s IH]; intros pos gs; cbn [search_from].
  - destruct (rmatch ic r pos []) as [|[g rest] tl] eqn:E; [discriminate|].
    intros [= <-]. exists 0, rest, tl. rewrite Nat.add_0_r. cbn [skipn].
    split; [lia|]. split; [exact E|]. intros j Hj. lia.
  - destruct (rmatch ic r pos (c :: s)) as [|[g rest] tl] eqn:E.
    + intros H. apply IH in H as (i & rest & tl & Hi & Hm & Hfree).
      exists (S i), rest, tl. cbn [skipn length]. rewrite Nat.add_succ_r.
      split; [lia|]. split; [exact Hm|].
      intros [|j] Hj.
      * now rewrite Nat.add_0_r.
      * cbn [skipn]. rewrite Nat.add_succ_r. apply Hfree. lia.
    + intros [= <-]. exists 0, rest, tl. rewrite Nat.add_0_r. cbn [skipn].
      split; [lia|]. split; [exact E|]. intros j Hj. lia.
Qed.

(** [re.search] finds nothing exactly when the pattern matches nowhere. *)
Theorem re_search_none (ic : bool) (r : regex) (text : str) :
  re_search ic r text = None <-> free_from ic r text 0.
Proof.
  unfold re_search, free_from. rewrite search_from_none. split.
  - intros H j w gs _ Hocc.
    pose proof (occurs_in_range Hocc) as Hr.
    assert (Hj : j <= length text) by lia.
    apply (proj1 (rmatch_nil_occurs ic r text Hj) (H j Hj) w gs Hocc).
  - intros H i Hi. cbn [Nat.add]. apply rmatch_nil_occurs; [exact Hi|].
    intros w gs. apply H. lia.
Qed.

(** What [re.search] finds is a match at the first index that has one. *)
Theorem re_search_some (ic : bool) (r : regex) (text : str) (gs : list str) :
  re_search ic r text = Some gs ->
  exists i w, occurs ic r text i w gs /\ free_before ic r text i.
Proof.
  unfold re_search. intros H.
  apply search_from_some in H as (i & rest & tl & Hi & Hm & Hfree). cbn [Nat.add] in *.
  assert (Hin : In (gs, rest) (rmatch ic r i (skipn i text))) by (rewrite Hm; now left).
  pose proof Hin as Hin'. apply rmatch_spec in Hin' as (w & Hs & _).
  exists i, w. split.
  - apply occurs_rmatch. split; [exact Hi|]. now exists rest.
  - intros j w' gs' Hj Hocc.
    assert (Hjl : j <= length text) by lia.
    apply (proj1 (rmatch_nil_occurs ic r text Hjl) (Hfree j Hj) w' gs' Hocc).
Qed.


(** The scan of [re.findall] finds nothing exactly when nothing matches
    at or after the index it starts from. *)
Lemma findall_from_nil (ic : bool) (r : regex) (s : str) :
  forall pos skip,
    findall_from ic r pos skip s = [] <->
    forall i, skip <= i -> i <= length s -> rmatch ic r (pos + i) (skipn i s) = [].
Proof.
  induction s as [|c s IH]; intros pos [|skip]; cbn [findall_from].
  - destruct (rmatch ic r pos []) as [|m tl] eqn:E.
    + split; [|reflexivity]. intros _ i _ Hi. cbn in Hi.
      replace i with 0 by lia. now rewrite Nat.add_0_r.
    + split; [discriminate|]. intros H.
      specialize (H 0 (Nat.le_refl _) (Nat.le_0_l _)).
      rewrite Nat.add_0_r in H. cbn [skipn] in H. congruence.
  - split; [|reflexivity]. intros _ i Hs Hi. cbn in Hi. lia.
  - destruct (rmatch ic r pos (c :: s)) as [|m tl] eqn:E.
    + rewrite IH. split.
      * intros H [|i] _ Hi.
        -- now rewrite Nat.add_0_r.
        -- cbn [skipn]. rewrite Nat.add_succ_r. apply H; cbn in Hi; lia.
      * intros H i _ Hi. specialize (H (S i)). cbn [skipn length] in H.
        rewrite Nat.add_succ_r in H. apply H; lia.
    + split; [discriminate|]. intros H.
      specialize (H 0 (Nat.le_refl _) (Nat.le_0_l _)).
      rewrite Nat.add_0_r in H. cbn [skipn] in H. congruence.
  - rewrite IH. split.
    + intros H [|i] Hs Hi; [lia|].
      cbn [skipn]. rewrite Nat.add_succ_r. apply H; cbn in Hi; lia.
    + intros H i Hs Hi. specialize (H (S i)). cbn [skipn length] in H.
      rewrite Nat.add_succ_r in H. apply H; lia.
Qed.

Lemma last_cons_default (A : Type) (x : A) (xs : list A) (d : A) :
  last (x :: xs) d = last xs x.
Proof.
  revert x d. induction xs as [|y xs IH]; intros x d; [reflexivity|].
  change (last (x :: y :: xs) d) with (last (y :: xs) d).
  now rewrite (IH y d), (IH y x).
Qed.

(** The last match [re.findall] reports, and the scan behind it. *)
Lemma findall_from_last (ic : bool) (r : regex) (s : str) :
  forall pos skip m ms,
    findall_from ic r pos skip s = m :: ms ->
    exists i rest tl,
      skip <= i /\ i <= length s /\
      rmatch ic r (pos + i) (skipn i s) = (last ms m, rest) :: tl /\
      forall j, i + Nat.max 1 (length (skipn i s) - length rest) <= j -> j <= length s ->
                rmatch ic r (pos + j) (skipn j s) = [].
Proof.
  induction s as [|c s IH]; intros pos [|skip] m ms; cbn [findall_from].
  - destruct (rmatch ic r pos []) as [|[g rest] tl] eqn:E; [discriminate|].
    intros [= <- <-]. exists 0, rest, tl. rewrite Nat.add_0_r. cbn [skipn last].
    repeat split; try lia; try assumption.
    intros j Hj Hl. cbn in Hl. lia.
  - discriminate.
  - destruct (rmatch ic r pos (c :: s)) as [|[g rest] tl] eqn:E.
    + intros H. apply IH in H as (i & rest & tl & Hs & Hi & Hm & Hfree).
      exists (S i), rest, tl. cbn [skipn length]. rewrite Nat.add_succ_r.
      repeat split; try lia; try assumption.
      intros [|j] Hj Hl; [lia|].
      cbn [skipn]. rewrite Nat.add_succ_r. apply Hfree; lia.
    + cbn [fst snd].
      destruct (findall_from ic r (S pos) (length (c :: s) - length rest - 1) s)
        as [|m' ms'] eqn:EL.
      * intros [= <- <-]. exists 0, rest, tl. rewrite Nat.add_0_r. cbn [skipn last].
        repeat split; try lia; try assumption.
        intros [|j] Hj Hl; [lia|].
        cbn [skipn]. rewrite Nat.add_succ_r.
        apply (proj1 (findall_from_nil ic r s (S pos) _) EL); cbn [length] in *; lia.
      * intros [= <- <-]. rewrite last_cons_default.
        apply IH in EL as (i & rest' & tl' & Hs & Hi & Hm & Hfree).
        exists (S i), rest', tl'. cbn [skipn length]. rewrite Nat.add_succ_r.
        repeat split; try lia; try assumption.
        intros [|j] Hj Hl; [lia|].
        cbn [skipn]. rewrite Nat.add_succ_r. apply Hfree; lia.
  - intros H. apply IH in H as (i & rest & tl & Hs & Hi & Hm & Hfree).
    exists (S i), rest, tl. cbn [skipn length]. rewrite Nat.add_succ_r.
    repeat split; try lia; try assumption.
    intros [|j] Hj Hl; [lia|].
    cbn [skipn]. rewrite Nat.add_succ_r. apply Hfree; lia.
Qed.

(** [re.findall] finds nothing exactly when the pattern matches nowhere. *)
Theorem re_findall_nil (ic : bool) (r : regex) (text : str) :
  re_findall ic r text = [] <-> free_from ic r text 0.
Proof.
  unfold re_findall, free_from. rewrite findall_from_nil. split.
  - intros H j w gs _ Hocc.
    pose proof (occurs_in_range Hocc) as Hr.
    assert (Hj : j <= length text) by lia.
    apply (proj1 (rmatch_nil_occurs ic r text Hj) (H j (Nat.le_0_l _) Hj) w gs Hocc).
  - intros H i _ Hi. cbn [Nat.add]. apply rmatch_nil_occurs; [exact Hi|].
    intros w gs. apply H. lia.
Qed.

(** The last item of [re.findall] is a match with no match behind it. *)
Theorem re_findall_last (ic : bool) (r : regex) (text : str) (m : list str)
  (ms : list (list str)) :
  re_findall ic r text = m :: ms ->
  exists i w,
    occurs ic r text i w (last ms m) /\
    free_from ic r text (i + Nat.max 1 (length w)).
Proof.
  unfold re_findall. intros H.
  apply findall_from_last in H as (i & rest & tl & _ & Hi & Hm & Hfree).
  cbn [Nat.add] in *.
  assert (Hin : In (last ms m, rest) (rmatch ic r i (skipn i text)))
    by (rewrite Hm; now left).
  pose proof Hin as Hin'. apply rmatch_spec in Hin' as (w & Hs & _).
  exists i, w. split.
  - apply occurs_rmatch. split; [exact Hi|]. now exists rest.
  - intros j w' gs' Hj Hocc.
    pose proof (occurs_in_range Hocc) as Hr.
    assert (Hjl : j <= length text) by lia.
    refine (proj1 (rmatch_nil_occurs ic r text Hjl) _ w' gs' Hocc).
    apply Hfree; [|exact Hjl].
    rewrite Hs, length_app, Nat.add_sub. exact Hj.
Qed.

End ReFacts.
Import ReFacts.

Module ReDet.

Lemma in_all_chars (a : ascii) : In a all_chars.
Proof.
  unfold all_chars. apply in_map_iff. exists (nat_of_ascii a).
  split; [apply ascii_nat_embedding|].
  apply in_seq. pose proof (nat_ascii_bounded a). lia.
Qed.

Lemma lit_outside_spec (ic : bool) (k : cclass) (c a : ascii) :
  lit_outside ic k c = true -> lit_eqb ic c a = true -> in_class k a = false.
Proof.
  unfold lit_outside. rewrite forallb_forall. intros H E.
  specialize (H a (in_all_chars a)). rewrite E in H. cbn in H.
  now destruct (in_class k a).
Qed.

Lemma disjoint_spec (k k' : cclass) (a : ascii) :
  disjoint k k' = true -> in_class k' a = true -> in_class k a = false.
Proof.
  unfold disjoint. rewrite forallb_forall. intros H E.
  specialize (H a (in_all_chars a)). rewrite E in H.
  now destruct (in_class k a).
Qed.

Lemma starts_outside_spec (ic : bool) (k : cclass) (r : regex) :
  starts_outside ic k r = true ->
  forall pos w rest gs,
    Matches ic r pos w rest gs -> exists a w0, w = a :: w0 /\ in_class k a = false.
Proof.
  induction r as [c|k' lo hi|r1 IH1 r2 _|r IH| | |]; cbn [starts_outside]; intros Hs pos w rest gs M;
    try discriminate; inversion M; subst.
  - eexists _, []. split; [reflexivity|]. eapply lit_outside_spec; eassumption.
  - apply andb_true_iff in Hs as [Hlo Hd]. apply Nat.ltb_lt in Hlo.
    destruct w as [|a w0]; [cbn in *; lia|].
    exists a, w0. split; [reflexivity|].
    eapply disjoint_spec; [exact Hd|].
    match goal with H : Forall _ (_ :: _) |- _ => now inversion H end.
  - match goal with H : Matches _ r1 _ _ _ _ |- _ =>
      destruct (IH1 Hs _ _ _ _ H) as (a & w0 & -> & Ha) end.
    now exists a, (w0 ++ w2).
  - eapply IH; eassumption.
Qed.

(** A run inside a class, followed by a character outside it, is read
    off the text in one way only. *)
Lemma class_run_unique (k : cclass) (w : str) :
  forall w' a t a' t',
    Forall (fun c => in_class k c = true) w ->
    Forall (fun c => in_class k c = true) w' ->
    in_class k a = false -> in_class k a' = false ->
    w ++ a :: t = w' ++ a' :: t' -> w = w'.
Proof.
  induction w as [|c w IH]; intros [|c' w'] a t a' t' F F' Ha Ha' E; cbn [app] in E.
  - reflexivity.
  - injection E as -> _. inversion F'; subst. congruence.
  - injection E as -> _. inversion F; subst. congruence.
  - injection E as -> E. inversion F; inversion F'; subst.
    f_equal. apply (IH w' a t a' t'); assumption.
Qed.

Lemma app_same_length (A : Type) (w w' t t' : list A) :
  length w = length w' -> w ++ t = w' ++ t' -> w = w' /\ t = t'.
Proof.
  revert w'. induction w as [|x w IH]; intros [|y w'] L E; cbn in *; try discriminate.
  - now split.
  - injection E as -> E. injection L as L. destruct (IH _ L E) as [-> ->]. now split.
Qed.

Lemma fixed_length (ic : bool) (k : cclass) (lo : nat) (hi : option nat) pos w rest gs :
  fixed lo hi = true -> Matches ic (Rep k lo hi) pos w rest gs -> length w = lo /\ gs = [].
Proof.
  unfold fixed. destruct hi as [h|]; [|discriminate]. intros E M.
  apply Nat.eqb_eq in E. subst h. inversion M; subst.
  split; [|reflexivity].
  match goal with H : forall h, Some lo = Some h -> _ |- _ => specialize (H lo eq_refl) end.
  lia.
Qed.

(** The split between a repetition and what follows it. *)
Lemma rep_head_unique (ic : bool) (k : cclass) (lo : nat) (hi : option nat) (r2 : regex)
  pos w1 w1' p2 p2' w2 w2' rest rest' g1 g1' g2 g2' :
  fixed lo hi || starts_outside ic k r2 = true ->
  Matches ic (Rep k lo hi) pos w1 (w2 ++ rest) g1 ->
  Matches ic (Rep k lo hi) pos w1' (w2' ++ rest') g1' ->
  Matches ic r2 p2 w2 rest g2 ->
  Matches ic r2 p2' w2' rest' g2' ->
  (w1 ++ w2) ++ rest = (w1' ++ w2') ++ rest' ->
  w1 = w1' /\ w2 ++ rest = w2' ++ rest'.
Proof.
  intros H M1 M1' M2 M2' E. rewrite <- !app_assoc in E.
  apply orb_true_iff in H as [Hf|Hs].
  - destruct (@fixed_length _ _ _ _ _ _ _ _ Hf M1) as [L _].
    destruct (@fixed_length _ _ _ _ _ _ _ _ Hf M1') as [L' _].
    apply app_same_length; [lia|exact E].
  - destruct (@starts_outside_spec ic k r2 Hs _ _ _ _ M2) as (a & t & -> & Ha).
    destruct (@starts_outside_spec ic k r2 Hs _ _ _ _ M2') as (a' & t' & -> & Ha').
    inversion M1; inversion M1'; subst.
    cbn [app] in E.
    assert (w1 = w1')
      by (apply (@class_run_unique k w1 w1' a (t ++ rest) a' (t' ++ rest')); assumption).
    subst w1'. split; [reflexivity|]. now apply app_inv_head in E.
Qed.

(** A pattern that passes the check matches in at most one way at a
    position of a text. *)
Theorem unambiguous_det (ic : bool) (r : regex) :
  unambiguous ic r = true ->
  forall pos w rest gs w' rest' gs',
    Matches ic r pos w rest gs -> Matches ic r pos w' rest' gs' ->
    w ++ rest = w' ++ rest' ->
    w = w' /\ gs = gs'.
Proof.
  induction r as [c|k lo hi|r1 _ r2 IH2|r IH| | |]; cbn [unambiguous];
    intros Hu pos w rest gs w' rest' gs' M M' E.
  - inversion M; inversion M'; subst. cbn in E. injection E as -> _. now split.
  - destruct (@fixed_length _ _ _ _ _ _ _ _ Hu M) as [L ->].
    destruct (@fixed_length _ _ _ _ _ _ _ _ Hu M') as [L' ->].
    destruct (@app_same_length _ w w' rest rest' ltac:(lia) E). now split.
  - apply andb_true_iff in Hu as [Hh Hu2].
    inversion M as [| |? ? ? w1 w2 ? g1 g2 M1 M2| | | |]; subst.
    inversion M' as [| |? ? ? w1' w2' ? g1' g2' M1' M2'| | | |]; subst.
    assert (H1 : w1 = w1' /\ g1 = g1' /\ w2 ++ rest = w2' ++ rest').
    { destruct r1 as [c|k lo hi|? ?|r1| | |]; cbn [head_ok] in Hh; try discriminate.
      - inversion M1; inversion M1'; subst. cbn in E. injection E as -> E. now repeat split.
      - destruct (@rep_head_unique _ _ _ _ _ _ _ _ _ _ _ _ _ _ _ _ _ _ Hh M1 M1' M2 M2' E) as [-> E'].
        inversion M1; inversion M1'; subst. now repeat split.
      - destruct r1 as [|k lo hi| | | | |]; try discriminate.
        inversion M1 as [| | |? ? ? ? ? N1| | |]; subst.
        inversion M1' as [| | |? ? ? ? ? N1'| | |]; subst.
        destruct (@rep_head_unique _ _ _ _ _ _ _ _ _ _ _ _ _ _ _ _ _ _ Hh N1 N1' M2 M2' E) as [-> E'].
        inversion N1; inversion N1'; subst. now repeat split.
      - inversion M1; inversion M1'; subst. now repeat split.
      - inversion M1; inversion M1'; subst. now repeat split.
      - inversion M1; inversion M1'; subst. now repeat split. }
    destruct H1 as (-> & -> & E2).
    destruct (IH2 Hu2 _ _ _ _ _ _ _ M2 M2' E2) as [-> ->]. now split.
  - inversion M; inversion M'; subst.
    match goal with
    | H1 : Matches _ r _ w _ ?g, H2 : Matches _ r _ w' _ ?g' |- _ =>
        destruct (IH Hu _ _ _ _ _ _ _ H1 H2 E) as [-> ->]
    end. now split.
  - inversion M; inversion M'; subst. now split.
  - inversion M; inversion M'; subst. now split.
  - inversion M; inversion M'; subst. now split.
Qed.


Lemma rmatch_unique (ic : bool) (r : regex) (pos : nat) (s : str) (m m' : list str * str) :
  unambiguous ic r = true ->
  In m (rmatch ic r pos s) -> In m' (rmatch ic r pos s) -> m = m'.
Proof.
  destruct m as [gs rest], m' as [gs' rest']. intros Hu H H'.
  apply rmatch_spec in H as (w & E & M). apply rmatch_spec in H' as (w' & E' & M').
  rewrite E in E'.
  destruct (@unambiguous_det ic r Hu _ _ _ _ _ _ _ M M' E') as [-> ->].
  apply app_inv_head in E'. now subst.
Qed.

Lemma occurs_unique (ic : bool) (r : regex) (text : str) (i : nat) (w w' : str)
  (gs gs' : list str) :
  unambiguous ic r = true ->
  occurs ic r text i w gs -> occurs ic r text i w' gs' -> w = w' /\ gs = gs'.
Proof.
  intros Hu (pre & rest & E & L & M) (pre' & rest' & E' & L' & M').
  rewrite E in E'.
  destruct (@app_same_length _ pre pre' (w ++ rest) (w' ++ rest') ltac:(lia) E') as [_ E2].
  exact (@unambiguous_det ic r Hu _ _ _ _ _ _ _ M M' E2).
Qed.

(** For a pattern that passes the check, [re.search] returns the groups
    of the one match at the first index that has a match. *)
Theorem re_search_first (ic : bool) (r : regex) (text : str) (i : nat) (w : str)
  (gs : list str) :
  unambiguous ic r = true ->
  occurs ic r text i w gs -> free_before ic r text i ->
  re_search ic r text = Some gs.
Proof.
  intros Hu Hocc Hfree.
  destruct (re_search ic r text) as [gs'|] eqn:E.
  - apply re_search_some in E as (i' & w' & Hocc' & Hfree').
    destruct (Nat.lt_trichotomy i i') as [Hlt|[->|Hgt]].
    + exfalso. exact (Hfree' i w gs Hlt Hocc).
    + now destruct (occurs_unique Hu Hocc Hocc') as [_ ->].
    + exfalso. exact (Hfree i' w' gs' Hgt Hocc').
  - exfalso. apply re_search_none in E. exact (E i w gs (Nat.le_0_l _) Hocc).
Qed.

Lemma occurs_dec_at (ic : bool) (r : regex) (text : str) (i : nat) :
  (exists w gs, occurs ic r text i w gs) \/ (forall w gs, ~ occurs ic r text i w gs).
Proof.
  destruct (le_gt_dec i (length text)) as [Hi|Hi].
  - destruct (rmatch ic r i (skipn i text)) as [|[gs rest] tl] eqn:E.
    + right. now apply rmatch_nil_occurs.
    + left.
      assert (Hin : In (gs, rest) (rmatch ic r i (skipn i text))) by (rewrite E; now left).
      pose proof Hin as Hin'. apply rmatch_spec in Hin' as (w & Hs & _).
      exists w, gs. apply occurs_rmatch. split; [exact Hi|]. now exists rest.
  - right. intros w gs H. apply occurs_in_range in H. lia.
Qed.

Lemma Scan_extend (ic : bool) (r : regex) (text : str) (i : nat) (ms : list (list str)) :
  (forall w gs, ~ occurs ic r text i w gs) ->
  Scan ic r text (S i) ms -> Scan ic r text i ms.
Proof.
  intros Hno H. inversion H as [? Hfree|? j w gs ms' Hij Hgap Hocc Hrest]; subst.
  - constructor. intros j w gs Hj Hocc.
    destruct (Nat.eq_dec j i) as [->|Hne]; [exact (Hno w gs Hocc)|].
    apply (Hfree j w gs); [lia|exact Hocc].
  - apply Scan_hit with (j := j) (w := w); try assumption; [lia|].
    intros k w' gs' Hk Hkj Hocc'.
    destruct (Nat.eq_dec k i) as [->|Hne]; [exact (Hno w' gs' Hocc')|].
    apply (Hgap k w' gs'); [lia|exact Hkj|exact Hocc'].
Qed.

(** [findall_from] performs the scan. *)
Lemma findall_from_scan (ic : bool) (r : regex) (text : str) (s : str) :
  forall pos skip,
    s = skipn pos text -> pos <= length text ->
    Scan ic r text (pos + skip) (findall_from ic r pos skip s).
Proof.
  assert (Hend : forall i, length text < i -> Scan ic r text i []).
  { intros i Hi. constructor. intros j w gs Hj Hocc. apply occurs_in_range in Hocc. lia. }
  induction s as [|c s IH]; intros pos skip Hs Hpos.
  - assert (Hlen : pos = length text).
    { apply (f_equal (@length ascii)) in Hs. rewrite length_skipn in Hs. cbn in Hs. lia. }
    destruct skip as [|skip]; cbn [findall_from].
    + rewrite Nat.add_0_r.
      destruct (rmatch ic r pos []) as [|[gs rest] tl] eqn:E.
      * constructor. intros j w gs Hj Hocc.
        pose proof (occurs_in_range Hocc) as Hr.
        assert (j = pos) by lia. subst j.
        rewrite Hs in E.
        exact (proj1 (rmatch_nil_occurs ic r text Hpos) E w gs Hocc).
      * cbn [fst].
        assert (Hin : In (gs, rest) (rmatch ic r pos (skipn pos text)))
          by (rewrite <- Hs, E; now left).
        pose proof Hin as Hin'. apply rmatch_spec in Hin' as (w & Hw & _).
        apply Scan_hit with (j := pos) (w := w).
        -- lia.
        -- intros k w' gs' Hk Hkj. lia.
        -- apply occurs_rmatch. split; [exact Hpos|]. now exists rest.
        -- apply Hend. lia.
    + apply Hend. lia.
  - assert (Hs' : s = skipn (S pos) text).
    { replace (S pos) with (1 + pos) by lia. rewrite <- skipn_skipn, <- Hs. reflexivity. }
    assert (Hpos' : S pos <= length text).
    { apply (f_equal (@length ascii)) in Hs. rewrite length_skipn in Hs. cbn in Hs. lia. }
    destruct skip as [|skip]; cbn [findall_from].
    + rewrite Nat.add_0_r.
      destruct (rmatch ic r pos (c :: s)) as [|[gs rest] tl] eqn:E.
      * apply Scan_extend.
        -- rewrite Hs in E. now apply rmatch_nil_occurs.
        -- specialize (IH (S pos) 0 Hs' Hpos'). now rewrite Nat.add_0_r in IH.
      * cbn [fst snd].
        assert (Hin : In (gs, rest) (rmatch ic r pos (skipn pos text)))
          by (rewrite <- Hs, E; now left).
        pose proof Hin as Hin'. apply rmatch_spec in Hin' as (w & Hw & _).
        apply Scan_hit with (j := pos) (w := w).
        -- lia.
        -- intros k w' gs' Hk Hkj. lia.
        -- apply occurs_rmatch. split; [exact Hpos|]. now exists rest.
        -- specialize (IH (S pos) (length (c :: s) - length rest - 1) Hs' Hpos').
           replace (pos + Nat.max 1 (length w))
             with (S pos + (length (c :: s) - length rest - 1)); [exact IH|].
           rewrite Hs, Hw, length_app. lia.
    + specialize (IH (S pos) skip Hs' Hpos').
      now replace (pos + S skip) with (S pos + skip) by lia.
Qed.

(** For a pattern that passes the check the scan has one result. *)
Lemma Scan_unique (ic : bool) (r : regex) (text : str) :
  unambiguous ic r = true ->
  forall i ms, Scan ic r text i ms -> forall ms', Scan ic r text i ms' -> ms = ms'.
Proof.
  intros Hu i ms H. induction H as [i Hfree|i j w gs ms Hij Hgap Hocc Hrest IH];
    intros ms' H'; inversion H' as [? Hfree'|? j' w' gs' ms'' Hij' Hgap' Hocc' Hrest']; subst.
  - reflexivity.
  - exfalso. exact (Hfree j' w' gs' Hij' Hocc').
  - exfalso. exact (Hfree' j w gs Hij Hocc).
  - destruct (Nat.lt_trichotomy j j') as [Hlt|[->|Hgt]].
    + exfalso. exact (Hgap' j w gs Hij Hlt Hocc).
    + destruct (occurs_unique Hu Hocc Hocc') as [-> ->].
      f_equal. now apply IH.
    + exfalso. exact (Hgap j' w' gs' Hij' Hgt Hocc').
Qed.

(** [re.findall] returns the result of the scan from index 0. *)
Theorem re_findall_scan (ic : bool) (r : regex) (text : str) (ms : list (list str)) :
  unambiguous ic r = true ->
  (re_findall ic r text = ms <-> Scan ic r text 0 ms).
Proof.
  intros Hu.
  pose proof (@findall_from_scan ic r text text 0 0 eq_refl (Nat.le_0_l _)) as H.
  cbn [Nat.add] in H. fold (re_findall ic r text) in H.
  split.
  - now intros <-.
  - intros H'. exact (Scan_unique Hu H H').
Qed.

End ReDet.
Import ReDet.

(** ** The renewal loops *)

Module RenewalFacts.

Local Open Scope Z_scope.

Lemma date_of_groups_wf (groups : list str) (d : datetime) :
  date_of_groups groups = Returned (Some d) -> wf d.
Proof.
  destruct groups as [|day [|month [|year [|? ?]]]]; try discriminate.
  cbn [date_of_groups]. 
  destruct (datetime_new (int_of_digits year) (int_of_digits month) (int_of_digits day))
    as [dt|e] eqn:E; [|discriminate].
  cbn [bind]. intros [= <-]. now apply datetime_new_wf in E.
Qed.

Lemma parse_vetting_date_wf (date_str : cell) (d : datetime) :
  parse_vetting_date date_str = Returned (Some d) -> wf d.
Proof.
  destruct date_str as [|s]; [discriminate|]. cbn [parse_vetting_date].
  destruct (re_match false vetting_pattern (strip s)); [|discriminate].
  apply date_of_groups_wf.
Qed.

Lemma extract_safeguarding_date_wf (text : cell) (d : datetime) :
  extract_safeguarding_date text = Returned (Some d) -> wf d.
Proof.
  destruct text as [|s]; [discriminate|]. cbn [extract_safeguarding_date].
  destruct (negb _); [discriminate|].
  destruct (re_search true date_pattern s); [apply date_of_groups_wf|].
  destruct (re_findall false date_pattern_alt s); [discriminate|].
  apply date_of_groups_wf.
Qed.

Lemma str_eqb_refl (k : str) : str_eqb k k = true.
Proof. unfold str_eqb. destruct (list_eq_dec ascii_dec k k); congruence. Qed.

Lemma dict_get_set (d : dict) (k : str) (v : renewal) :
  dict_get (dict_set d k v) k = Some v.
Proof.
  induction d as [|[k' v'] d IH]; cbn [dict_set dict_get].
  - now rewrite str_eqb_refl.
  - destruct (str_eqb k' k) eqn:E; cbn [dict_get]; rewrite E; [reflexivity|exact IH].
Qed.

Lemma set_safeguarding_listed (d : dict) (name email : str) (i : info) :
  listed_safeguarding (set_safeguarding d name email i) name i.
Proof.
  unfold listed_safeguarding, set_safeguarding.
  destruct (dict_get d name); rewrite dict_get_set; eexists; split; reflexivity.
Qed.

Lemma set_vetting_listed (d : dict) (name email : str) (i : info) :
  listed_vetting (set_vetting d name email i) name i.
Proof.
  unfold listed_vetting, set_vetting.
  destruct (dict_get d name); rewrite dict_get_set; eexists; split; reflexivity.
Qed.

(** The window test on instants. *)
Lemma in_window_to_us (today tmfn expiry : datetime) :
  wf today -> wf expiry -> add_days today 90 = Returned tmfn ->
  (in_window today tmfn expiry = true <->
   to_us today <= to_us expiry <= to_us today + 90 * us_per_day).
Proof.
  intros Wt We Ha.
  pose proof (toordinal_range Wt) as Hr.
  assert (Ho : 0 < toordinal today + 90 <= MAXORDINAL).
  { split; [lia|]. destruct (Z_le_gt_dec (toordinal today + 90) MAXORDINAL); [assumption|].
    rewrite add_days_overflow in Ha by lia. discriminate. }
  destruct (add_days_spec 90 Wt Ho) as (e & He & Wf & _ & _ & Hus).
  rewrite Ha in He. injection He as <-.
  unfold in_window. rewrite andb_true_iff, (le_to_us Wt We), (le_to_us We Wf). lia.
Qed.

End RenewalFacts.
Import RenewalFacts.

Module LoopFacts.

Lemma skipn_cons_nth (A : Type) (xs : list A) :
  forall start x rest,
    skipn start xs = x :: rest ->
    nth_error xs start = Some x /\ skipn (S start) xs = rest.
Proof.
  induction xs as [|y xs IH]; intros [|start] x rest H; cbn in *; try discriminate.
  - injection H as -> ->. now split.
  - apply IH in H. exact H.
Qed.

(** The loop over [range(5, 26)], from any column on. *)
Lemma dates_loop (row : training_row) (n : nat) :
  forall start acc outs,
    Forall2 (fun c o => extract_safeguarding_date c = Returned o)
            (firstn n (skipn start (t_cells row))) outs ->
    length outs = n ->
    for_each
      (fun all_safeguarding_dates col_idx =>
         course_text <- index (t_cells row) col_idx ;;
         date <- extract_safeguarding_date course_text ;;
         Returned match date with
                  | Some d => all_safeguarding_dates ++ [d]
                  | None => all_safeguarding_dates
                  end)
      (seq start n) acc
    = Returned (acc ++ somes outs).
Proof.
  induction n as [|n IH]; intros start acc outs HF Hlen.
  - destruct outs; [|discriminate]. cbn. now rewrite app_nil_r.
  - destruct outs as [|o outs]; [discriminate|].
    destruct (skipn start (t_cells row)) as [|c rest] eqn:Es; [inversion HF|].
    cbn [firstn] in HF. inversion HF as [|? ? ? ? Hc Hrest]; subst.
    apply skipn_cons_nth in Es as [Hnth Hskip].
    cbn [seq for_each]. unfold index. rewrite Hnth. cbn [bind]. rewrite Hc. cbn [bind].
    rewrite (IH (S start) _ outs); [|now rewrite Hskip|now injection Hlen].
    f_equal. unfold somes. cbn [flat_map]. destruct o; cbn [app].
    + now rewrite <- app_assoc.
    + reflexivity.
Qed.

End LoopFacts.
Import LoopFacts.

(** ** The date parsers *)

Module ExtractFacts.

Lemma startswith_spec (p s : str) :
  startswith p s = true <-> exists post, s = p ++ post.
Proof.
  revert s. induction p as [|a p IH]; intros s; cbn [startswith].
  - split; [intros _; now exists s|reflexivity].
  - destruct s as [|c s].
    + split; [discriminate|intros [post H]; discriminate].
    + rewrite andb_true_iff, IH, Ascii.eqb_eq. split.
      * intros [-> [post ->]]. now exists post.
      * intros [post [= -> ->]]. split; [reflexivity|now exists post].
Qed.

Lemma contains_spec (needle hay : str) :
  contains needle hay = true <-> mentions needle hay.
Proof.
  unfold mentions. induction hay as [|c hay IH]; cbn [contains].
  - rewrite orb_false_r, startswith_spec. split.
    + intros [post H]. now exists [], post.
    + intros (pre & post & H). destruct pre as [|? ?]; [|discriminate].
      now exists post.
  - rewrite orb_true_iff, startswith_spec, IH. split.
    + intros [[post H]|(pre & post & H)].
      * now exists [], post.
      * exists (c :: pre), post. cbn. now rewrite H.
    + intros (pre & post & H). destruct pre as [|c' pre].
      * left. now exists post.
      * right. cbn in H. injection H as _ H. now exists pre, post.
Qed.

Lemma qualifying_spec (text : str) :
  is_safeguarding text || is_being_scouter text = true <-> qualifying text.
Proof.
  unfold qualifying, is_safeguarding, is_being_scouter, safeguarding_keywords.
  cbn [existsb]. rewrite orb_false_r, !orb_true_iff, !contains_spec.
  change (lower (py "safeguarding")) with (py "safeguarding").
  change (lower (py "safe guarding")) with (py "safe guarding").
  tauto.
Qed.

Lemma Matches_groups (ic : bool) (r : regex) pos w rest gs :
  Matches ic r pos w rest gs -> length gs = groups_of r.
Proof.
  induction 1; cbn [groups_of length]; try reflexivity.
  - rewrite length_app. lia.
  - lia.
Qed.

Lemma three_groups (ic : bool) (r : regex) (text : str) i w gs :
  groups_of r = 3 -> occurs ic r text i w gs ->
  exists day month year, gs = [day; month; year].
Proof.
  intros H3 (pre & rest & _ & _ & M). apply Matches_groups in M. rewrite H3 in M.
  destruct gs as [|d [|m [|y [|? ?]]]]; try discriminate. now exists d, m, y.
Qed.

Lemma Scan_items (ic : bool) (r : regex) (text : str) i ms :
  Scan ic r text i ms -> forall g, In g ms -> exists j w, occurs ic r text j w g.
Proof.
  induction 1 as [|i j w gs ms Hij Hgap Hocc Hrest IH]; intros g Hin; [destruct Hin|].
  destruct Hin as [<-|Hin]; [now exists j, w|now apply IH].
Qed.

Lemma last_in (A : Type) (xs : list A) :
  forall x, In (last xs x) (x :: xs).
Proof.
  induction xs as [|y xs IH]; intros x; [now left|].
  destruct xs as [|z xs]; [right; now left|].
  change (last (y :: z :: xs) x) with (last (z :: xs) x).
  destruct (IH x) as [E|Hin]; [left; exact E|right; now right].
Qed.

End ExtractFacts.
Import ExtractFacts.

Lemma date_pattern_unambiguous : unambiguous true date_pattern = true.
Proof. vm_compute. reflexivity. Qed.

Lemma date_pattern_alt_unambiguous : unambiguous false date_pattern_alt = true.
Proof. vm_compute. reflexivity. Qed.

Lemma vetting_pattern_unambiguous : unambiguous false vetting_pattern = true.
Proof. vm_compute. reflexivity. Qed.

Module FormatFacts.

Local Open Scope Z_scope.

Lemma digit_cases (x : Z) :
  let k := x mod 10 in
  k = 0 \/ k = 1 \/ k = 2 \/ k = 3 \/ k = 4 \/ k = 5 \/ k = 6 \/ k = 7 \/ k = 8 \/ k = 9.
Proof. cbv zeta. pose proof (Z.mod_pos_bound x 10). lia. Qed.

Ltac each_digit x :=
  destruct (digit_cases x) as [E|[E|[E|[E|[E|[E|[E|[E|[E|E]]]]]]]]]; rewrite E.

Lemma digit_char_isdigit (x : Z) : isdigit (digit_char (x mod 10)) = true.
Proof. each_digit x; reflexivity. Qed.

Lemma digit_char_not_space (x : Z) : isspace (digit_char (x mod 10)) = false.
Proof. each_digit x; reflexivity. Qed.

Lemma digit_char_value (x : Z) : digit_value (digit_char (x mod 10)) = x mod 10.
Proof. each_digit x; reflexivity. Qed.

Lemma zfill_2 (n : Z) :
  zfill 2 n = [digit_char ((n / 10) mod 10); digit_char (n mod 10)].
Proof. reflexivity. Qed.

Lemma zfill_4 (n : Z) :
  zfill 4 n = [digit_char ((n / 10 / 10 / 10) mod 10); digit_char ((n / 10 / 10) mod 10);
               digit_char ((n / 10) mod 10); digit_char (n mod 10)].
Proof. reflexivity. Qed.

Lemma int_of_zfill_2 (n : Z) : 0 <= n < 100 -> int_of_digits (zfill 2 n) = n.
Proof.
  intros H. rewrite zfill_2. unfold int_of_digits. cbn [fold_left].
  rewrite !digit_char_value. zdiv.
Qed.

Lemma int_of_zfill_4 (n : Z) : 0 <= n < 10000 -> int_of_digits (zfill 4 n) = n.
Proof.
  intros H. rewrite zfill_4. unfold int_of_digits. cbn [fold_left].
  rewrite !digit_char_value. zdiv.
Qed.

Lemma digits_two (a b : Z) (rest : str) pos :
  Matches false d12 pos [digit_char (a mod 10); digit_char (b mod 10)] rest
          [[digit_char (a mod 10); digit_char (b mod 10)]].
Proof.
  unfold d12. constructor. constructor.
  - repeat constructor; apply digit_char_isdigit.
  - cbn. lia.
  - intros h [= <-]. cbn. lia.
Qed.

Lemma digits_four (a b c d : Z) (rest : str) pos :
  Matches false d4 pos
          [digit_char (a mod 10); digit_char (b mod 10); digit_char (c mod 10);
           digit_char (d mod 10)] rest
          [[digit_char (a mod 10); digit_char (b mod 10); digit_char (c mod 10);
            digit_char (d mod 10)]].
Proof.
  unfold d4. constructor. constructor.
  - repeat constructor; apply digit_char_isdigit.
  - cbn. lia.
  - intros h [= <-]. cbn. lia.
Qed.

Lemma slash_matches (rest : str) pos : Matches false (Lit slash) pos [slash] rest [].
Proof. constructor. reflexivity. Qed.

(** A date written [dd/mm/yyyy] is matched, whole, by the vetting pattern. *)
Lemma format_dmY_matches (y m d : Z) :
  Matches false vetting_pattern 0 (format_dmY y m d) []
          [zfill 2 d; zfill 2 m; zfill 4 y].
Proof.
  unfold format_dmY, vetting_pattern. rewrite !zfill_2, !zfill_4.
  apply (@M_Cat false Bol _ 0 [] _ [] [] _).
  - constructor.
  - apply (@M_Cat false d12 _ _ [_; _] _ _ [_] _); [apply digits_two|].
    apply (@M_Cat false (Lit slash) _ _ [_] _ _ [] _); [apply slash_matches|].
    apply (@M_Cat false d12 _ _ [_; _] _ _ [_] _); [apply digits_two|].
    apply (@M_Cat false (Lit slash) _ _ [_] _ _ [] _); [apply slash_matches|].
    apply (@M_Cat false d4 _ _ [_; _; _; _] [] _ [_] []); [apply digits_four|].
    constructor. now left.
Qed.

Lemma format_dmY_strip (y m d : Z) : strip (format_dmY y m d) = format_dmY y m d.
Proof.
  unfold format_dmY. rewrite !zfill_2, !zfill_4. cbn [app py list_ascii_of_string].
  unfold strip. cbn [lstrip]. rewrite digit_char_not_space.
  unfold rstrip. cbn [rev app lstrip]. rewrite digit_char_not_space. reflexivity.
Qed.

(** On a pattern that passes the check, [re.match] returns the groups of
    the match at index 0. *)
Lemma re_match_matches (ic : bool) (r : regex) (s : str) (gs : list str) :
  unambiguous ic r = true ->
  Matches ic r 0 s [] gs -> re_match ic r s = Some gs.
Proof.
  intros Hu M.
  assert (Hin : In (gs, []) (rmatch ic r 0 s)).
  { apply rmatch_spec. exists s. split; [now rewrite app_nil_r|exact M]. }
  unfold re_match. destruct (rmatch ic r 0 s) as [|m0 tl] eqn:E; [destruct Hin|].
  assert (H0 : m0 = (gs, [])).
  { apply (@rmatch_unique ic r 0 s); [exact Hu|rewrite E; now left|now rewrite E]. }
  now rewrite H0.
Qed.

End FormatFacts.
Import FormatFacts.


(** ** What the date patterns match *)

Module ShapeFacts.

Ltac inv_matches :=
  repeat match goal with
         | H : Matches _ (Cat _ _) _ _ _ _ |- _ => inversion H; clear H; subst
         | H : Matches _ (Grp _) _ _ _ _ |- _ => inversion H; clear H; subst
         | H : Matches _ (Rep _ _ _) _ _ _ _ |- _ => inversion H; clear H; subst
         | H : Matches _ (Lit _) _ _ _ _ |- _ => inversion H; clear H; subst
         | H : Matches _ Eps _ _ _ _ |- _ => inversion H; clear H; subst
         end.

Lemma rep_digits (ic : bool) lo h pos w rest :
  Matches ic (Rep Digit lo (Some h)) pos w rest [] <-> digits lo h w.
Proof.
  unfold digits. split.
  - intros M. inversion M; subst. repeat split; try assumption. auto.
  - intros (F & L1 & L2). constructor; try assumption. now intros ? [= <-].
Qed.

Lemma rep_blanks (ic : bool) pos w rest :
  Matches ic (Rep Space 1 None) pos w rest [] <-> blanks w.
Proof.
  unfold blanks. split.
  - intros M. inversion M; subst. now split.
  - intros (F & L). constructor; try assumption. discriminate.
Qed.

(** The letter-case test of a pattern letter, read on the subject. *)
Lemma lit_eqb_lower (c a : ascii) :
  lit_eqb true c a = true <-> lower_char a = lower_char c.
Proof. unfold lit_eqb. rewrite Ascii.eqb_eq. split; congruence. Qed.

Lemma lower_slash (a : ascii) : lower_char a = slash <-> a = slash.
Proof.
  split; [|now intros ->].
  assert (H : forallb (fun a => negb (Ascii.eqb (lower_char a) slash) || Ascii.eqb a slash)
                      all_chars = true) by (vm_compute; reflexivity).
  rewrite forallb_forall in H. specialize (H a (in_all_chars a)).
  intros E. rewrite E, Ascii.eqb_refl in H. cbn in H. now apply Ascii.eqb_eq.
Qed.

Lemma lit_slash (ic : bool) (a : ascii) : lit_eqb ic slash a = true <-> a = slash.
Proof.
  destruct ic; cbn [lit_eqb].
  - rewrite Ascii.eqb_eq. change (lower_char slash) with slash.
    split; [intros E; now apply lower_slash|intros ->; reflexivity].
  - rewrite Ascii.eqb_eq. split; congruence.
Qed.

(** What [(\d{1,2})/(\d{1,2})/(\d{4})] matches, followed by [r]. *)
Lemma dmy_then (ic : bool) (r : regex) pos w rest gs :
  Matches ic (d12 >> Lit slash >> d12 >> Lit slash >> d4 >> r) pos w rest gs <->
  exists day month year w' gs',
    w = day ++ slash :: month ++ slash :: year ++ w' /\
    gs = day :: month :: year :: gs' /\
    digits 1 2 day /\ digits 1 2 month /\ digits 4 4 year /\
    Matches ic r (pos + length day + 1 + length month + 1 + length year) w' rest gs'.
Proof.
  unfold d12, d4. split.
  - intros M. inv_matches.
    repeat match goal with H : lit_eqb _ slash _ = true |- _ => apply lit_slash in H; subst end.
    match goal with
    | |- exists _ _ _ _ _, ?a ++ _ ++ ?b ++ _ ++ ?c ++ ?d = _ /\ _ ++ _ ++ _ ++ _ ++ _ ++ ?g = _ /\ _ =>
        exists a, b, c, d, g
    end.
    split; [reflexivity|]. split; [reflexivity|].
    unfold digits. repeat split; auto.
  - intros (day & month & year & w' & gs' & -> & -> & D & Mo & Y & M).
    apply (@M_Cat ic _ _ pos day _ rest [day] _);
      [constructor; now apply rep_digits|].
    apply (@M_Cat ic _ _ _ [slash] _ rest [] _); [constructor; now apply lit_slash|].
    apply (@M_Cat ic _ _ _ month _ rest [month] _);
      [constructor; now apply rep_digits|].
    apply (@M_Cat ic _ _ _ [slash] _ rest [] _); [constructor; now apply lit_slash|].
    apply (@M_Cat ic _ _ _ year w' rest [year] gs');
      [constructor; now apply rep_digits|].
    match goal with H : Matches _ r ?p _ _ _ |- Matches _ r ?q _ _ _ =>
      replace q with p; [exact H|cbn [length]; lia] end.
Qed.


(** What [(\d{1,2})/(\d{1,2})/(\d{4})] matches. *)
Lemma date_pattern_alt_shape (ic : bool) pos w rest gs :
  Matches ic date_pattern_alt pos w rest gs <->
  exists day month year, gs = [day; month; year] /\ dmy_text w day month year.
Proof.
  unfold date_pattern_alt, d12, d4, dmy_text. split.
  - intros M. inv_matches.
    repeat match goal with H : lit_eqb _ slash _ = true |- _ => apply lit_slash in H; subst end.
    match goal with
    | |- exists _ _ _, _ /\ (?a ++ _ ++ ?b ++ _ ++ ?c = _ /\ _) => exists a, b, c
    end.
    split; [reflexivity|]. split; [reflexivity|].
    unfold digits. repeat split; auto.
  - intros (day & month & year & -> & -> & D & Mo & Y).
    apply (@M_Cat ic _ _ pos day _ rest [day] _);
      [constructor; now apply rep_digits|].
    apply (@M_Cat ic _ _ _ [slash] _ rest [] _); [constructor; now apply lit_slash|].
    apply (@M_Cat ic _ _ _ month _ rest [month] _);
      [constructor; now apply rep_digits|].
    apply (@M_Cat ic _ _ _ [slash] _ rest [] [year]); [constructor; now apply lit_slash|].
    constructor. now apply rep_digits.
Qed.

(** What [^(\d{1,2})/(\d{1,2})/(\d{4})$] matches: a whole text. *)
Lemma vetting_pattern_shape pos w rest gs :
  Matches false vetting_pattern pos w rest gs <->
  pos = 0 /\ (rest = [] \/ rest = [newline]) /\
  exists day month year, gs = [day; month; year] /\ dmy_text w day month year.
Proof.
  unfold vetting_pattern. split.
  - intros M. inversion M as [| |? ? ? w0 w1 ? g0 g1 M0 M1| | | |]; subst.
    inversion M0; subst. cbn [app] in *.
    apply dmy_then in M1 as (day & month & year & w' & gs' & -> & -> & D & Mo & Y & ME).
    inversion ME; subst. rewrite app_nil_r.
    split; [reflexivity|]. split; [assumption|].
    exists day, month, year. split; [reflexivity|].
    split; [reflexivity|]. split; [exact D|]. split; [exact Mo|exact Y].
  - intros (-> & Hrest & day & month & year & -> & -> & D & Mo & Y).
    apply (@M_Cat false Bol _ 0 [] _ rest [] _); [constructor|].
    apply dmy_then. exists day, month, year, [], []. rewrite app_nil_r.
    repeat split; try assumption; try apply D; try apply Mo; try apply Y.
    now constructor.
Qed.

(** What [from\s+(\d{1,2})/(\d{1,2})/(\d{4})\s+to] matches under
    [re.IGNORECASE]. *)
Lemma date_pattern_shape pos w rest gs :
  Matches true date_pattern pos w rest gs <->
  exists day month year, gs = [day; month; year] /\ from_to_text w day month year.
Proof.
  unfold date_pattern, from_to_text.
  cbv [lits py list_ascii_of_string fold_right]. split.
  - intros M.
    inversion M as [| |? ? ? w0 w0' ? g0 g0' L0 M0| | | |]; subst. clear M.
    inversion M0 as [| |? ? ? w1 w1' ? g1 g1' L1 M1| | | |]; subst. clear M0.
    inversion M1 as [| |? ? ? w2 w2' ? g2 g2' L2 M2| | | |]; subst. clear M1.
    inversion M2 as [| |? ? ? w3 w3' ? g3 g3' L3 M3| | | |]; subst. clear M2.
    inversion M3 as [| |? ? ? ws1 w4' ? g4 g4' B1 M4| | | |]; subst. clear M3.
    inversion L0; inversion L1; inversion L2; inversion L3; subst.
    inversion B1; subst.
    apply dmy_then in M4 as (day & month & year & w' & gs' & -> & -> & D & Mo & Y & MT).
    inversion MT as [| |? ? ? ws2 w5' ? g5 g5' B2 M5| | | |]; subst. clear MT.
    inversion B2; subst.
    inversion M5 as [| |? ? ? w6 w6' ? g6 g6' L6 M6| | | |]; subst. clear M5.
    inversion M6 as [| |? ? ? w7 w7' ? g7 g7' L7 M7| | | |]; subst. clear M6.
    inversion L6; inversion L7; inversion M7; subst.
    repeat match goal with H : lit_eqb true _ _ = true |- _ => apply lit_eqb_lower in H end.
    exists day, month, year. split; [reflexivity|].
    match goal with
    | |- exists _ _ _ _, [?a1] ++ [?a2] ++ [?a3] ++ [?a4] ++ ?s1 ++ _ ++ slash :: _ ++ slash :: _ ++ ?s2 ++ [?b1] ++ [?b2] ++ [] = _ /\ _ =>
        exists [a1; a2; a3; a4], s1, s2, [b1; b2]
    end.
    split.
    { reflexivity. }
    split.
    { unfold lower. cbn [map].
      repeat match goal with H : lower_char _ = lower_char _ |- _ => rewrite H; clear H end.
      reflexivity. }
    split.
    { unfold lower. cbn [map].
      repeat match goal with H : lower_char _ = lower_char _ |- _ => rewrite H; clear H end.
      reflexivity. }
    unfold blanks. repeat split; assumption || apply D || apply Mo || apply Y.
  - intros (day & month & year & -> & f & ws1 & ws2 & t & -> & Hf & Ht & B1 & B2 & D & Mo & Y).
    destruct f as [|a1 [|a2 [|a3 [|a4 [|? ?]]]]]; try discriminate.
    destruct t as [|b1 [|b2 [|? ?]]]; try discriminate.
    unfold lower in Hf, Ht. cbn [map] in Hf, Ht.
    injection Hf as F1 F2 F3 F4. injection Ht as T1 T2.
    cbn [app].
    apply (@M_Cat true _ _ pos [a1] _ rest [] _);
      [constructor; apply lit_eqb_lower; exact F1|].
    apply (@M_Cat true _ _ _ [a2] _ rest [] _);
      [constructor; apply lit_eqb_lower; exact F2|].
    apply (@M_Cat true _ _ _ [a3] _ rest [] _);
      [constructor; apply lit_eqb_lower; exact F3|].
    apply (@M_Cat true _ _ _ [a4] _ rest [] _);
      [constructor; apply lit_eqb_lower; exact F4|].
    apply (@M_Cat true _ _ _ ws1 _ rest [] _); [now apply rep_blanks|].
    apply dmy_then. exists day, month, year, (ws2 ++ [b1; b2]), [].
    split; [reflexivity|]. split; [reflexivity|].
    split; [exact D|]. split; [exact Mo|]. split; [exact Y|].
    apply (@M_Cat true _ _ _ ws2 [b1; b2] rest [] []); [now apply rep_blanks|].
    apply (@M_Cat true _ _ _ [b1] [b2] rest [] []);
      [constructor; apply lit_eqb_lower; exact T1|].
    apply (@M_Cat true _ _ _ [b2] [] rest [] []);
      [constructor; apply lit_eqb_lower; exact T2|].
    constructor.
Qed.


Lemma lstrip_head (s : str) :
  lstrip s = [] \/ exists c t, lstrip s = c :: t /\ isspace c = false.
Proof.
  induction s as [|c s IH]; cbn [lstrip]; [now left|].
  destruct (isspace c) eqn:E; [exact IH|]. right. now exists c, s.
Qed.

(** A stripped string does not end in whitespace. *)
Lemma strip_last (s w : str) (c : ascii) :
  strip s = w ++ [c] -> isspace c = false.
Proof.
  unfold strip, rstrip. intros H.
  apply (f_equal (@rev ascii)) in H. rewrite rev_involutive, rev_app_distr in H.
  cbn [rev app] in H.
  destruct (lstrip_head (rev (lstrip s))) as [E|(c' & t & E & Hc)]; rewrite E in H.
  - discriminate.
  - now injection H as -> _.
Qed.

(** [parse_vetting_date] reads a stripped text of the shape [D/M/Y], and
    gives [None] on every other text. *)
Lemma parse_vetting_date_spec (date_str : str) :
  (forall day month year,
     dmy_text (strip date_str) day month year ->
     parse_vetting_date (Text date_str) =
     (d <- datetime_new (int_of_digits year) (int_of_digits month) (int_of_digits day) ;;
      Returned (Some d))) /\
  ((forall day month year, ~ dmy_text (strip date_str) day month year) ->
   parse_vetting_date (Text date_str) = Returned None).
Proof.
  cbn [parse_vetting_date]. split.
  - intros day month year H.
    rewrite (@re_match_matches false vetting_pattern (strip date_str) [day; month; year]
               vetting_pattern_unambiguous).
    + reflexivity.
    + apply vetting_pattern_shape. split; [reflexivity|]. split; [now left|].
      now exists day, month, year.
  - intros Hno. unfold re_match.
    destruct (rmatch false vetting_pattern 0 (strip date_str)) as [|[gs rest] tl] eqn:E;
      [reflexivity|].
    exfalso.
    assert (Hin : In (gs, rest) (rmatch false vetting_pattern 0 (strip date_str)))
      by (rewrite E; now left).
    apply rmatch_spec in Hin as (w & Hs & M).
    apply vetting_pattern_shape in M as (_ & Hrest & day & month & year & _ & Hshape).
    destruct Hrest as [->| ->].
    + rewrite app_nil_r in Hs. subst w. exact (Hno _ _ _ Hshape).
    + apply strip_last in Hs. discriminate.
Qed.

(** An occurrence of each date pattern, read on the text. *)
Lemma occurs_date_pattern (text : str) (i : nat) (w : str) (gs : list str) :
  occurs true date_pattern text i w gs <->
  exists day month year pre rest,
    gs = [day; month; year] /\ text = pre ++ w ++ rest /\ length pre = i /\
    from_to_text w day month year.
Proof.
  unfold occurs. split.
  - intros (pre & rest & E & L & M).
    apply date_pattern_shape in M as (day & month & year & -> & H).
    now exists day, month, year, pre, rest.
  - intros (day & month & year & pre & rest & -> & E & L & H).
    exists pre, rest. repeat split; try assumption.
    apply date_pattern_shape. now exists day, month, year.
Qed.

Lemma occurs_date_pattern_alt (text : str) (i : nat) (w : str) (gs : list str) :
  occurs false date_pattern_alt text i w gs <->
  exists day month year pre rest,
    gs = [day; month; year] /\ text = pre ++ w ++ rest /\ length pre = i /\
    dmy_text w day month year.
Proof.
  unfold occurs. split.
  - intros (pre & rest & E & L & M).
    apply date_pattern_alt_shape in M as (day & month & year & -> & H).
    now exists day, month, year, pre, rest.
  - intros (day & month & year & pre & rest & -> & E & L & H).
    exists pre, rest. repeat split; try assumption.
    apply date_pattern_alt_shape. now exists day, month, year.
Qed.

(** A text of the shape [D/M/Y] that names no calendar day makes
    [parse_vetting_date] raise. *)
Lemma parse_vetting_date_raises (date_str day month year : str) :
  dmy_text (strip date_str) day month year ->
  valid_date (int_of_digits year) (int_of_digits month) (int_of_digits day) = false ->
  parse_vetting_date (Text date_str) = Raised ValueError.
Proof.
  intros H V. rewrite (proj1 (parse_vetting_date_spec date_str) day month year H).
  unfold datetime_new. now rewrite V.
Qed.

End ShapeFacts.
Import ShapeFacts.

(** * The report, loop by loop *)

Module DictFacts.

Lemma str_eqb_eq (a b : str) : str_eqb a b = true <-> a = b.
Proof. unfold str_eqb. destruct (list_eq_dec ascii_dec a b); split; congruence. Qed.

Lemma str_eqb_neq (a b : str) : str_eqb a b = false <-> a <> b.
Proof. unfold str_eqb. destruct (list_eq_dec ascii_dec a b); split; congruence. Qed.

Lemma dict_get_set_other (d : dict) (k k' : str) (v : renewal) :
  k <> k' -> dict_get (dict_set d k v) k' = dict_get d k'.
Proof.
  intros Hne. induction d as [|[k0 v0] d IH]; cbn [dict_set dict_get].
  - apply str_eqb_neq in Hne. now rewrite Hne.
  - destruct (str_eqb k0 k) eqn:E; cbn [dict_get].
    + apply str_eqb_eq in E. subst k0.
      apply str_eqb_neq in Hne. now rewrite Hne.
    + now rewrite IH.
Qed.

Lemma dict_get_in (d : dict) (k : str) (v : renewal) :
  dict_get d k = Some v -> In (k, v) d.
Proof.
  induction d as [|[k0 v0] d IH]; cbn [dict_get]; [discriminate|].
  destruct (str_eqb k0 k) eqn:E.
  - apply str_eqb_eq in E. subst k0. intros [= ->]. now left.
  - intros H. right. now apply IH.
Qed.

Lemma dict_set_keys (d : dict) (k : str) (v : renewal) :
  map fst (dict_set d k v) =
  match dict_get d k with
  | Some _ => map fst d
  | None => map fst d ++ [k]
  end.
Proof.
  induction d as [|[k0 v0] d IH]; cbn [dict_set dict_get map fst app]; [reflexivity|].
  destruct (str_eqb k0 k) eqn:E; cbn [map fst]; [reflexivity|].
  rewrite IH. now destruct (dict_get d k).
Qed.

Lemma dict_get_none_keys (d : dict) (k : str) :
  dict_get d k = None <-> ~ In k (map fst d).
Proof.
  induction d as [|[k0 v0] d IH]; cbn [dict_get map fst In]; [tauto|].
  destruct (str_eqb k0 k) eqn:E.
  - apply str_eqb_eq in E. split; [discriminate|tauto].
  - apply str_eqb_neq in E. rewrite IH. tauto.
Qed.

Lemma dict_set_nodup (d : dict) (k : str) (v : renewal) :
  NoDup (map fst d) -> NoDup (map fst (dict_set d k v)).
Proof.
  intros H. rewrite dict_set_keys. destruct (dict_get d k) eqn:E; [exact H|].
  apply dict_get_none_keys in E.
  apply NoDup_app; [exact H|constructor; [intros []|constructor]|].
  intros a Ha [<-|[]]. contradiction.
Qed.

Lemma dict_in_get (d : dict) (k : str) (v : renewal) :
  NoDup (map fst d) -> In (k, v) d -> dict_get d k = Some v.
Proof.
  induction d as [|[k0 v0] d IH]; intros Hnd Hin; [destruct Hin|].
  cbn [map fst] in Hnd. inversion Hnd as [|? ? Hnot Hnd']; subst.
  cbn [dict_get]. destruct Hin as [[= -> ->]|Hin].
  - now rewrite str_eqb_refl.
  - destruct (str_eqb k0 k) eqn:E; [|now apply IH].
    apply str_eqb_eq in E. subst k0. exfalso. apply Hnot.
    apply in_map_iff. now exists (k, v).
Qed.

Lemma dict_set_in (d : dict) (k : str) (v : renewal) (k' : str) (v' : renewal) :
  In (k', v') (dict_set d k v) -> (k' = k /\ v' = v) \/ In (k', v') d.
Proof.
  induction d as [|[k0 v0] d IH]; cbn [dict_set].
  - intros [[= <- <-]|[]]. now left.
  - destruct (str_eqb k0 k) eqn:E.
    + apply str_eqb_eq in E. subst k0.
      intros [[= <- <-]|H]; [now left|right; now right].
    + intros [H|H]; [right; now left|].
      destruct (IH H) as [?|?]; [now left|right; now right].
Qed.


Lemma listed_safeguarding_set (d : dict) (n e : str) (i : info) (n' : str) (i' : info) :
  listed_safeguarding (set_safeguarding d n e i) n' i' <->
  (n = n' /\ i' = i) \/ (n <> n' /\ listed_safeguarding d n' i').
Proof.
  unfold listed_safeguarding, set_safeguarding.
  destruct (list_eq_dec ascii_dec n n') as [<-|Hne].
  - destruct (dict_get d n) as [r0|]; rewrite dict_get_set; cbn; split.
    + intros (r & [= <-] & H). cbn in H. left. split; congruence.
    + intros [[_ ->]|[H _]]; [eexists; split; reflexivity|congruence].
    + intros (r & [= <-] & H). cbn in H. left. split; congruence.
    + intros [[_ ->]|[H _]]; [eexists; split; reflexivity|congruence].
  - destruct (dict_get d n) as [r0|]; rewrite (dict_get_set_other _ _ Hne); split.
    + intros H. right. now split.
    + intros [[H _]|[_ H]]; [congruence|exact H].
    + intros H. right. now split.
    + intros [[H _]|[_ H]]; [congruence|exact H].
Qed.

Lemma listed_vetting_set (d : dict) (n e : str) (i : info) (n' : str) (i' : info) :
  listed_vetting (set_vetting d n e i) n' i' <->
  (n = n' /\ i' = i) \/ (n <> n' /\ listed_vetting d n' i').
Proof.
  unfold listed_vetting, set_vetting.
  destruct (list_eq_dec ascii_dec n n') as [<-|Hne].
  - destruct (dict_get d n) as [r0|]; rewrite dict_get_set; cbn; split.
    + intros (r & [= <-] & H). cbn in H. left. split; congruence.
    + intros [[_ ->]|[H _]]; [eexists; split; reflexivity|congruence].
    + intros (r & [= <-] & H). cbn in H. left. split; congruence.
    + intros [[_ ->]|[H _]]; [eexists; split; reflexivity|congruence].
  - destruct (dict_get d n) as [r0|]; rewrite (dict_get_set_other _ _ Hne); split.
    + intros H. right. now split.
    + intros [[H _]|[_ H]]; [congruence|exact H].
    + intros H. right. now split.
    + intros [[H _]|[_ H]]; [congruence|exact H].
Qed.

(** Storing a vetting record leaves every safeguarding record alone. *)
Lemma listed_safeguarding_set_vetting (d : dict) (n e : str) (i : info) (n' : str)
  (i' : info) :
  listed_safeguarding (set_vetting d n e i) n' i' <-> listed_safeguarding d n' i'.
Proof.
  unfold listed_safeguarding, set_vetting.
  destruct (list_eq_dec ascii_dec n n') as [<-|Hne].
  - destruct (dict_get d n) as [r0|]; rewrite dict_get_set; cbn; split.
    + intros (r & [= <-] & H). cbn in H. now exists r0.
    + intros (r & [= <-] & H). eexists. split; [reflexivity|exact H].
    + intros (r & [= <-] & H). discriminate.
    + intros (r & H & _). discriminate.
  - destruct (dict_get d n) as [r0|]; now rewrite (dict_get_set_other _ _ Hne).
Qed.

Lemma listed_email_set_safeguarding (d : dict) (n e : str) (i : info) (n' e' : str) :
  listed_email (set_safeguarding d n e i) n' e' <->
  (n = n' /\ dict_get d n = None /\ e' = e) \/ listed_email d n' e'.
Proof.
  unfold listed_email, set_safeguarding.
  destruct (list_eq_dec ascii_dec n n') as [<-|Hne].
  - destruct (dict_get d n) as [r0|]; rewrite dict_get_set; cbn; split.
    + intros (r & [= <-] & H). cbn in H. right. now exists r0.
    + intros [(_ & H & _)|(r & [= <-] & H)]; [discriminate|].
      eexists. split; [reflexivity|exact H].
    + intros (r & [= <-] & H). cbn in H. left. now repeat split.
    + intros [(_ & _ & ->)|(r & H & _)]; [|discriminate].
      eexists. split; reflexivity.
  - destruct (dict_get d n) as [r0|]; rewrite (dict_get_set_other _ _ Hne); split;
      try (intros H; now right); intros [(H & _)|H]; congruence || exact H.
Qed.

Lemma listed_email_set_vetting (d : dict) (n e : str) (i : info) (n' e' : str) :
  listed_email (set_vetting d n e i) n' e' <->
  (n = n' /\ dict_get d n = None /\ e' = e) \/ listed_email d n' e'.
Proof.
  unfold listed_email, set_vetting.
  destruct (list_eq_dec ascii_dec n n') as [<-|Hne].
  - destruct (dict_get d n) as [r0|]; rewrite dict_get_set; cbn; split.
    + intros (r & [= <-] & H). cbn in H. right. now exists r0.
    + intros [(_ & H & _)|(r & [= <-] & H)]; [discriminate|].
      eexists. split; [reflexivity|exact H].
    + intros (r & [= <-] & H). cbn in H. left. now repeat split.
    + intros [(_ & _ & ->)|(r & H & _)]; [|discriminate].
      eexists. split; reflexivity.
  - destruct (dict_get d n) as [r0|]; rewrite (dict_get_set_other _ _ Hne); split;
      try (intros H; now right); intros [(H & _)|H]; congruence || exact H.
Qed.

End DictFacts.
Import DictFacts.

Module RowLoop.

Section Loop.

Variable R : Type.
Variable name_of : R -> str.
Variable email_of : R -> str.
Variable due : R -> info -> Prop.
Variable set_record : dict -> str -> str -> info -> dict.
Variable step : dict -> R -> outcome dict.

(** A step stores the record of a due row under its name, and does
    nothing for any other row. *)
Hypothesis step_spec :
  forall d row d',
    step d row = Returned d' ->
    (exists i, due row i /\ d' = set_record d (name_of row) (email_of row) i) \/
    ((forall i, ~ due row i) /\ d' = d).

Hypothesis due_unique : forall row i i', due row i -> due row i' -> i = i'.

Lemma last_due_nil (name : str) (i : info) : ~ last_due name_of due [] name i.
Proof. intros (before & row & after & E & _). destruct before; discriminate. Qed.

Lemma none_due_cons (r : R) (rows : list R) (name : str) :
  none_due name_of due (r :: rows) name <->
  (name_of r = name -> forall i, ~ due r i) /\ none_due name_of due rows name.
Proof.
  unfold none_due. split.
  - intros H. split; [intros E; apply H; [now left|exact E]|].
    intros row Hin. apply H. now right.
  - intros [H1 H2] row [<-|Hin]; [exact H1|now apply H2].
Qed.

Lemma last_due_cons (r : R) (rows : list R) (name : str) (i : info) :
  last_due name_of due (r :: rows) name i <->
  last_due name_of due rows name i \/
  (name_of r = name /\ due r i /\ none_due name_of due rows name).
Proof.
  unfold last_due. split.
  - intros (before & row & after & E & Hn & Hd & Hlast).
    destruct before as [|b before]; cbn in E; injection E as -> ->.
    + right. repeat split; assumption.
    + left. now exists before, row, after.
  - intros [(before & row & after & -> & Hn & Hd & Hlast)|(Hn & Hd & Hnone)].
    + now exists (r :: before), row, after.
    + now exists [], r, rows.
Qed.

Lemma first_due_cons (r : R) (rows : list R) (name : str) (row : R) :
  first_due name_of due (r :: rows) name row <->
  (row = r /\ name_of r = name /\ exists i, due r i) \/
  ((name_of r = name -> forall i, ~ due r i) /\ first_due name_of due rows name row).
Proof.
  unfold first_due. split.
  - intros (before & after & i & E & Hn & Hd & Hfirst).
    destruct before as [|b before]; cbn in E; injection E as -> ->.
    + left. repeat split; try assumption; try reflexivity. now exists i.
    + right. split.
      * intros Eb. apply Hfirst; [now left|exact Eb].
      * exists before, after, i. repeat split; try assumption.
        intros row' Hin. apply Hfirst. now right.
  - intros [(-> & Hn & i & Hd)|(Hr & before & after & i & -> & Hn & Hd & Hfirst)].
    + exists [], rows, i. repeat split; try assumption. intros ? [].
    + exists (r :: before), after, i. repeat split; try assumption.
      intros row' [<-|Hin]; [exact Hr|now apply Hfirst].
Qed.

Section Listed.

Variable listed : dict -> str -> info -> Prop.

Hypothesis listed_set :
  forall d n e i n' i',
    listed (set_record d n e i) n' i' <->
    (n = n' /\ i' = i) \/ (n <> n' /\ listed d n' i').

(** After the loop a name carries the record of its last due row, or what
    it carried before when none of its rows is due. *)
Lemma loop_listed (rows : list R) :
  forall d0 d,
    for_each step rows d0 = Returned d ->
    forall name i,
      listed d name i <->
      last_due name_of due rows name i \/
      (none_due name_of due rows name /\ listed d0 name i).
Proof.
  induction rows as [|r rows IH]; intros d0 d H name i.
  - cbn in H. injection H as <-. split.
    + intros Hl. right. split; [intros ? []|exact Hl].
    + intros [Hl|[_ Hl]]; [now apply last_due_nil in Hl|exact Hl].
  - cbn [for_each] in H. destruct (step d0 r) as [d1|e] eqn:Es; [|discriminate].
    cbn [bind] in H. rewrite (IH d1 d H name i), last_due_cons, none_due_cons.
    destruct (step_spec Es) as [(ir & Hdue & ->)|(Hno & ->)].
    + rewrite listed_set.
      destruct (list_eq_dec ascii_dec (name_of r) name) as [En|Hne].
      * split.
        -- intros [Hl|(Hnone & [[_ ->]|[Hx _]])]; [now left; left| |contradiction].
           left. right. now repeat split.
        -- intros [[Hl|(_ & Hd & Hnone)]|((Hr & _) & _)].
           ++ now left.
           ++ right. split; [exact Hnone|]. left. split; [exact En|].
              exact (due_unique Hd Hdue).
           ++ exfalso. exact (Hr En ir Hdue).
      * split.
        -- intros [Hl|(Hnone & [[Hx _]|[_ Hl]])]; [now left; left|contradiction|].
           right. repeat split; try assumption. intros Hx. contradiction.
        -- intros [[Hl|(Hx & _)]|((_ & Hnone) & Hl)]; [now left|contradiction|].
           right. split; [exact Hnone|]. right. now split.
    + split.
      * intros [Hl|(Hnone & Hl)]; [now left; left|].
        right. repeat split; try assumption. intros _. exact Hno.
      * intros [[Hl|(_ & Hd & _)]|((_ & Hnone) & Hl)].
        -- now left.
        -- exfalso. exact (Hno i Hd).
        -- right. now split.
Qed.

End Listed.

Section Untouched.

Variable other : dict -> str -> info -> Prop.

Hypothesis other_set :
  forall d n e i n' i', other (set_record d n e i) n' i' <-> other d n' i'.

(** The loop leaves the records of the other kind as they were. *)
Lemma loop_untouched (rows : list R) :
  forall d0 d,
    for_each step rows d0 = Returned d ->
    forall name i, other d name i <-> other d0 name i.
Proof.
  induction rows as [|r rows IH]; intros d0 d H name i.
  - cbn in H. now injection H as <-.
  - cbn [for_each] in H. destruct (step d0 r) as [d1|e] eqn:Es; [|discriminate].
    cbn [bind] in H. rewrite (IH d1 d H name i).
    destruct (step_spec Es) as [(ir & Hdue & ->)|(Hno & ->)]; [apply other_set|reflexivity].
Qed.

End Untouched.

Section Email.

Hypothesis email_set :
  forall d n e i n' e',
    listed_email (set_record d n e i) n' e' <->
    (n = n' /\ dict_get d n = None /\ e' = e) \/ listed_email d n' e'.

Lemma listed_email_none (d : dict) (name : str) :
  dict_get d name = None <-> forall e, ~ listed_email d name e.
Proof.
  unfold listed_email. split.
  - intros H e (r & Hr & _). congruence.
  - intros H. destruct (dict_get d name) as [r|] eqn:E; [|reflexivity].
    exfalso. apply (H (r_email r)). now exists r.
Qed.

(** After the loop a name carries the address it had before, or, when it
    was not listed, the address of its first due row. *)
Lemma loop_email (rows : list R) :
  forall d0 d,
    for_each step rows d0 = Returned d ->
    forall name e,
      listed_email d name e <->
      listed_email d0 name e \/
      (dict_get d0 name = None /\
       exists row, first_due name_of due rows name row /\ e = email_of row).
Proof.
  induction rows as [|r rows IH]; intros d0 d H name e.
  - cbn in H. injection H as <-. split; [now left|].
    intros [Hl|(_ & row & (before & ? & ? & E & _) & _)]; [exact Hl|].
    destruct before; discriminate.
  - cbn [for_each] in H. destruct (step d0 r) as [d1|ex] eqn:Es; [|discriminate].
    cbn [bind] in H. rewrite (IH d1 d H name e).
    destruct (step_spec Es) as [(ir & Hdue & ->)|(Hno & ->)].
    + rewrite email_set. split.
      * intros [[(En & Hnone & ->)|Hl]|(Hnone & row & Hfirst & ->)].
        -- right. split; [now rewrite <- En|]. exists r. split; [|reflexivity].
           apply first_due_cons. left. repeat split; try assumption. now exists ir.
        -- now left.
        -- assert (Hn0 : dict_get d0 name = None).
           { apply listed_email_none. intros e0 Hl.
             apply (proj1 (listed_email_none _ name) Hnone e0).
             apply email_set. now right. }
           right. split; [exact Hn0|]. exists row. split; [|reflexivity].
           apply first_due_cons. right. split; [|exact Hfirst].
           intros En. exfalso.
           apply (proj1 (listed_email_none _ name) Hnone (email_of r)).
           apply email_set. left. rewrite En. now repeat split.
      * intros [Hl|(Hn0 & row & Hfirst & ->)]; [left; now right|].
        apply first_due_cons in Hfirst as [(-> & En & _)|(Hr & Hfirst)].
        -- left. left. rewrite En. now repeat split.
        -- right. split.
           ++ apply listed_email_none. intros e0 Hl. apply email_set in Hl.
              destruct Hl as [(En & _ & _)|Hl]; [exact (Hr En ir Hdue)|].
              exact (proj1 (listed_email_none _ name) Hn0 e0 Hl).
           ++ now exists row.
    + split.
      * intros [Hl|(Hn0 & row & Hfirst & ->)]; [now left|].
        right. split; [exact Hn0|]. exists row. split; [|reflexivity].
        apply first_due_cons. right. split; [intros _; exact Hno|exact Hfirst].
      * intros [Hl|(Hn0 & row & Hfirst & ->)]; [now left|].
        apply first_due_cons in Hfirst as [(-> & _ & i & Hd)|(_ & Hfirst)].
        -- exfalso. exact (Hno i Hd).
        -- right. split; [exact Hn0|]. now exists row.
Qed.

End Email.

(** A property of the dictionary every stored record keeps. *)
Section Invariant.

Variable P : dict -> Prop.

Hypothesis P_set :
  forall d row i, P d -> due row i -> P (set_record d (name_of row) (email_of row) i).

Lemma loop_invariant (rows : list R) :
  forall d0 d, for_each step rows d0 = Returned d -> P d0 -> P d.
Proof.
  induction rows as [|r rows IH]; intros d0 d H H0.
  - cbn in H. now injection H as <-.
  - cbn [for_each] in H. destruct (step d0 r) as [d1|e] eqn:Es; [|discriminate].
    cbn [bind] in H. apply (IH d1 d H).
    destruct (step_spec Es) as [(ir & Hdue & ->)|(Hno & ->)]; [now apply P_set|exact H0].
Qed.

End Invariant.

End Loop.

End RowLoop.
Import RowLoop.

Module ScriptFacts.

Lemma renew_safeguarding_spec (today tmfn : datetime) (d : dict) (row : training_row)
  (d' : dict) :
  renew_safeguarding today tmfn d row = Returned d' ->
  (exists i, training_due today tmfn row i /\
             d' = set_safeguarding d (training_name row) (t_email row) i) \/
  ((forall i, ~ training_due today tmfn row i) /\ d' = d).
Proof.
  unfold renew_safeguarding, training_due, training_name.
  destruct (safeguarding_dates row) as [dates|e] eqn:Ed; [|discriminate]. cbn [bind].
  destruct dates as [|x xs].
  - intros [= <-]. right. split; [|reflexivity].
    intros i (dates & latest & expiry & [= <-] & Hm & _). discriminate.
  - destruct (py_max (x :: xs)) as [latest|e] eqn:Em; [|discriminate]. cbn [bind].
    destruct (add_days latest validity_days) as [expiry|e] eqn:Ea; [|discriminate].
    cbn [bind]. destruct (in_window today tmfn expiry) eqn:Ew; intros [= <-].
    + left. eexists. split; [|reflexivity]. now exists (x :: xs), latest, expiry.
    + right. split; [|reflexivity].
      intros i (dates & latest' & expiry' & [= <-] & Hm & Ha & Hw & _).
      rewrite Em in Hm. injection Hm as <-. rewrite Ea in Ha. injection Ha as <-.
      congruence.
Qed.

Lemma renew_vetting_spec (today tmfn : datetime) (d : dict) (row : vetting_row)
  (d' : dict) :
  renew_vetting today tmfn d row = Returned d' ->
  (exists i, vetting_due today tmfn row i /\
             d' = set_vetting d (vetting_name row) (v_email row) i) \/
  ((forall i, ~ vetting_due today tmfn row i) /\ d' = d).
Proof.
  unfold renew_vetting, vetting_due, vetting_name.
  destruct (parse_vetting_date (v_latest_vetting_completion_date row)) as [[vd|]|e] eqn:Ep;
    [| |discriminate]; cbn [bind].
  - destruct (add_days vd validity_days) as [expiry|e] eqn:Ea; [|discriminate].
    cbn [bind]. destruct (in_window today tmfn expiry) eqn:Ew; intros [= <-].
    + left. eexists. split; [|reflexivity]. now exists vd, expiry.
    + right. split; [|reflexivity].
      intros i (vd' & expiry' & [= <-] & Ha & Hw & _).
      rewrite Ea in Ha. injection Ha as <-. congruence.
  - intros [= <-]. right. split; [|reflexivity].
    intros i (vd' & expiry' & H & _). discriminate.
Qed.

Lemma training_due_unique (today tmfn : datetime) (row : training_row) (i i' : info) :
  training_due today tmfn row i -> training_due today tmfn row i' -> i = i'.
Proof.
  intros (ds & l & e & Hd & Hm & Ha & _ & ->) (ds' & l' & e' & Hd' & Hm' & Ha' & _ & ->).
  rewrite Hd in Hd'. injection Hd' as <-. rewrite Hm in Hm'. injection Hm' as <-.
  rewrite Ha in Ha'. now injection Ha' as <-.
Qed.

Lemma vetting_due_unique (today tmfn : datetime) (row : vetting_row) (i i' : info) :
  vetting_due today tmfn row i -> vetting_due today tmfn row i' -> i = i'.
Proof.
  intros (vd & e & Hp & Ha & _ & ->) (vd' & e' & Hp' & Ha' & _ & ->).
  rewrite Hp in Hp'. injection Hp' as <-. rewrite Ha in Ha'. now injection Ha' as <-.
Qed.

(** The script's result, loop by loop. *)
Lemma check_all_renewals_returned (today : datetime) (df_training : list training_row)
  (df_vetting : list vetting_row) (all_renewals : dict) (expired_items : list expired) :
  check_all_renewals today df_training df_vetting = Returned (all_renewals, expired_items) ->
  exists three_months_from_now d1 x1,
    add_days today 90 = Returned three_months_from_now /\
    for_each (renew_safeguarding today three_months_from_now) df_training [] = Returned d1 /\
    for_each (renew_vetting today three_months_from_now) df_vetting d1
    = Returned all_renewals /\
    for_each (expired_safeguarding today) df_training [] = Returned x1 /\
    for_each (expired_vetting today) df_vetting x1 = Returned expired_items.
Proof.
  unfold check_all_renewals.
  destruct (add_days today 90) as [tmfn|e] eqn:E0; [|discriminate]. cbn [bind].
  destruct (for_each (renew_safeguarding today tmfn) df_training []) as [d1|e] eqn:E1;
    [|discriminate]. cbn [bind].
  destruct (for_each (renew_vetting today tmfn) df_vetting d1) as [d2|e] eqn:E2;
    [|discriminate]. cbn [bind].
  destruct (for_each (expired_safeguarding today) df_training []) as [x1|e] eqn:E3;
    [|discriminate]. cbn [bind].
  destruct (for_each (expired_vetting today) df_vetting x1) as [x2|e] eqn:E4;
    [|discriminate]. cbn [bind].
  intros [= <- <-]. now exists tmfn, d1, x1.
Qed.

Lemma listed_safeguarding_empty (name : str) (i : info) : ~ listed_safeguarding [] name i.
Proof. intros (r & H & _). discriminate. Qed.

Lemma listed_vetting_empty (name : str) (i : info) : ~ listed_vetting [] name i.
Proof. intros (r & H & _). discriminate. Qed.

Lemma listed_vetting_set_safeguarding (d : dict) (n e : str) (i : info) (n' : str)
  (i' : info) :
  listed_vetting (set_safeguarding d n e i) n' i' <-> listed_vetting d n' i'.
Proof.
  unfold listed_vetting, set_safeguarding.
  destruct (list_eq_dec ascii_dec n n') as [<-|Hne].
  - destruct (dict_get d n) as [r0|]; rewrite dict_get_set; cbn; split.
    + intros (r & [= <-] & H). cbn in H. now exists r0.
    + intros (r & [= <-] & H). eexists. split; [reflexivity|exact H].
    + intros (r & [= <-] & H). discriminate.
    + intros (r & H & _). discriminate.
  - destruct (dict_get d n) as [r0|]; now rewrite (dict_get_set_other _ _ Hne).
Qed.

Section Loops.

Variables today tmfn : datetime.

Lemma training_loop_listed (rows : list training_row) (d0 d : dict) :
  for_each (renew_safeguarding today tmfn) rows d0 = Returned d ->
  forall name i,
    listed_safeguarding d name i <->
    last_due training_name (training_due today tmfn) rows name i \/
    (none_due training_name (training_due today tmfn) rows name /\
     listed_safeguarding d0 name i).
Proof.
  exact (@loop_listed _ training_name t_email (training_due today tmfn) set_safeguarding
           (renew_safeguarding today tmfn) (@renew_safeguarding_spec today tmfn)
           (@training_due_unique today tmfn) listed_safeguarding
           listed_safeguarding_set rows d0 d).
Qed.

Lemma vetting_loop_listed (rows : list vetting_row) (d0 d : dict) :
  for_each (renew_vetting today tmfn) rows d0 = Returned d ->
  forall name i,
    listed_vetting d name i <->
    last_due vetting_name (vetting_due today tmfn) rows name i \/
    (none_due vetting_name (vetting_due today tmfn) rows name /\
     listed_vetting d0 name i).
Proof.
  exact (@loop_listed _ vetting_name v_email (vetting_due today tmfn) set_vetting
           (renew_vetting today tmfn) (@renew_vetting_spec today tmfn)
           (@vetting_due_unique today tmfn) listed_vetting listed_vetting_set rows d0 d).
Qed.

Lemma training_loop_untouched (rows : list training_row) (d0 d : dict) :
  for_each (renew_safeguarding today tmfn) rows d0 = Returned d ->
  forall name i, listed_vetting d name i <-> listed_vetting d0 name i.
Proof.
  exact (@loop_untouched _ training_name t_email (training_due today tmfn)
           set_safeguarding (renew_safeguarding today tmfn)
           (@renew_safeguarding_spec today tmfn) listed_vetting
           listed_vetting_set_safeguarding rows d0 d).
Qed.

Lemma vetting_loop_untouched (rows : list vetting_row) (d0 d : dict) :
  for_each (renew_vetting today tmfn) rows d0 = Returned d ->
  forall name i, listed_safeguarding d name i <-> listed_safeguarding d0 name i.
Proof.
  exact (@loop_untouched _ vetting_name v_email (vetting_due today tmfn) set_vetting
           (renew_vetting today tmfn) (@renew_vetting_spec today tmfn)
           listed_safeguarding listed_safeguarding_set_vetting rows d0 d).
Qed.

Lemma training_loop_email (rows : list training_row) (d0 d : dict) :
  for_each (renew_safeguarding today tmfn) rows d0 = Returned d ->
  forall name e,
    listed_email d name e <->
    listed_email d0 name e \/
    (dict_get d0 name = None /\
     exists row, first_due training_name (training_due today tmfn) rows name row /\
                 e = t_email row).
Proof.
  exact (@loop_email _ training_name t_email (training_due today tmfn) set_safeguarding
           (renew_safeguarding today tmfn) (@renew_safeguarding_spec today tmfn)
           listed_email_set_safeguarding rows d0 d).
Qed.

Lemma vetting_loop_email (rows : list vetting_row) (d0 d : dict) :
  for_each (renew_vetting today tmfn) rows d0 = Returned d ->
  forall name e,
    listed_email d name e <->
    listed_email d0 name e \/
    (dict_get d0 name = None /\
     exists row, first_due vetting_name (vetting_due today tmfn) rows name row /\
                 e = v_email row).
Proof.
  exact (@loop_email _ vetting_name v_email (vetting_due today tmfn) set_vetting
           (renew_vetting today tmfn) (@renew_vetting_spec today tmfn)
           listed_email_set_vetting rows d0 d).
Qed.

End Loops.

End ScriptFacts.
Import ScriptFacts.

Module KeyFacts.

Lemma dict_get_set_safeguarding_none (d : dict) (n e : str) (i : info) (n' : str) :
  dict_get (set_safeguarding d n e i) n' = None <-> n <> n' /\ dict_get d n' = None.
Proof.
  unfold set_safeguarding.
  destruct (list_eq_dec ascii_dec n n') as [<-|Hne].
  - destruct (dict_get d n); rewrite dict_get_set; split;
      try discriminate; intros [H _]; now destruct H.
  - destruct (dict_get d n); rewrite (dict_get_set_other _ _ Hne); tauto.
Qed.

Lemma dict_get_set_vetting_none (d : dict) (n e : str) (i : info) (n' : str) :
  dict_get (set_vetting d n e i) n' = None <-> n <> n' /\ dict_get d n' = None.
Proof.
  unfold set_vetting.
  destruct (list_eq_dec ascii_dec n n') as [<-|Hne].
  - destruct (dict_get d n); rewrite dict_get_set; split;
      try discriminate; intros [H _]; now destruct H.
  - destruct (dict_get d n); rewrite (dict_get_set_other _ _ Hne); tauto.
Qed.

Lemma one_entry_each_set_safeguarding (d : dict) (n e : str) (i : info) :
  one_entry_each d -> one_entry_each (set_safeguarding d n e i).
Proof.
  intros [Hnd Hrec]. unfold set_safeguarding.
  destruct (dict_get d n) as [r0|]; (split; [now apply dict_set_nodup|]);
    intros name r Hin; apply dict_set_in in Hin as [[_ ->]|Hin];
    try (left; discriminate); now apply (Hrec name).
Qed.

Lemma one_entry_each_set_vetting (d : dict) (n e : str) (i : info) :
  one_entry_each d -> one_entry_each (set_vetting d n e i).
Proof.
  intros [Hnd Hrec]. unfold set_vetting.
  destruct (dict_get d n) as [r0|]; (split; [now apply dict_set_nodup|]);
    intros name r Hin; apply dict_set_in in Hin as [[_ ->]|Hin];
    try (right; discriminate); now apply (Hrec name).
Qed.

Lemma one_entry_each_empty : one_entry_each [].
Proof. split; [constructor|intros ? ? []]. Qed.

Section Absent.

Variable R : Type.
Variable name_of : R -> str.
Variable email_of : R -> str.
Variable due : R -> info -> Prop.
Variable set_record : dict -> str -> str -> info -> dict.
Variable step : dict -> R -> outcome dict.

Hypothesis step_spec :
  forall d row d',
    step d row = Returned d' ->
    (exists i, due row i /\ d' = set_record d (name_of row) (email_of row) i) \/
    ((forall i, ~ due row i) /\ d' = d).

Hypothesis absent_set :
  forall d n e i n',
    dict_get (set_record d n e i) n' = None <-> n <> n' /\ dict_get d n' = None.

(** A name is missing after the loop when it was missing before and none
    of its rows is due. *)
Lemma loop_absent (rows : list R) :
  forall d0 d,
    for_each step rows d0 = Returned d ->
    forall name,
      dict_get d name = None <->
      dict_get d0 name = None /\ none_due name_of due rows name.
Proof.
  induction rows as [|r rows IH]; intros d0 d H name.
  - cbn in H. injection H as <-. split; [|tauto].
    intros H. split; [exact H|]. intros ? [].
  - cbn [for_each] in H. destruct (step d0 r) as [d1|ex] eqn:Es; [|discriminate].
    cbn [bind] in H. rewrite (IH d1 d H name).
    destruct (step_spec Es) as [(ir & Hdue & ->)|(Hno & ->)].
    + rewrite absent_set. split.
      * intros [[Hne H0] Hn]. split; [exact H0|].
        intros row [<-|Hin] En; [contradiction|]. now apply Hn.
      * intros [H0 Hn]. split; [split; [|exact H0]|].
        -- intros En. exact (Hn r (or_introl eq_refl) En ir Hdue).
        -- intros row Hin. apply Hn. now right.
    + split; intros [H0 Hn]; (split; [exact H0|]).
      * intros row [<-|Hin] En; [intros i; apply Hno|now apply Hn].
      * intros row Hin. apply Hn. now right.
Qed.

End Absent.

Lemma training_loop_absent (today tmfn : datetime) (rows : list training_row)
  (d0 d : dict) :
  for_each (renew_safeguarding today tmfn) rows d0 = Returned d ->
  forall name,
    dict_get d name = None <->
    dict_get d0 name = None /\
    none_due training_name (training_due today tmfn) rows name.
Proof.
  exact (@loop_absent _ training_name t_email (training_due today tmfn) set_safeguarding
           (renew_safeguarding today tmfn) (@renew_safeguarding_spec today tmfn)
           dict_get_set_safeguarding_none rows d0 d).
Qed.

Lemma vetting_loop_absent (today tmfn : datetime) (rows : list vetting_row)
  (d0 d : dict) :
  for_each (renew_vetting today tmfn) rows d0 = Returned d ->
  forall name,
    dict_get d name = None <->
    dict_get d0 name = None /\
    none_due vetting_name (vetting_due today tmfn) rows name.
Proof.
  exact (@loop_absent _ vetting_name v_email (vetting_due today tmfn) set_vetting
           (renew_vetting today tmfn) (@renew_vetting_spec today tmfn)
           dict_get_set_vetting_none rows d0 d).
Qed.

Lemma training_loop_entries (today tmfn : datetime) (rows : list training_row)
  (d0 d : dict) :
  for_each (renew_safeguarding today tmfn) rows d0 = Returned d ->
  one_entry_each d0 -> one_entry_each d.
Proof.
  apply (@loop_invariant _ training_name t_email (training_due today tmfn)
           set_safeguarding (renew_safeguarding today tmfn)
           (@renew_safeguarding_spec today tmfn) one_entry_each).
  intros d1 row i H _. now apply one_entry_each_set_safeguarding.
Qed.

Lemma vetting_loop_entries (today tmfn : datetime) (rows : list vetting_row)
  (d0 d : dict) :
  for_each (renew_vetting today tmfn) rows d0 = Returned d ->
  one_entry_each d0 -> one_entry_each d.
Proof.
  apply (@loop_invariant _ vetting_name v_email (vetting_due today tmfn)
           set_vetting (renew_vetting today tmfn)
           (@renew_vetting_spec today tmfn) one_entry_each).
  intros d1 row i H _. now apply one_entry_each_set_vetting.
Qed.

End KeyFacts.
Import KeyFacts.

Module ExpiredFacts.

Lemma expired_safeguarding_spec (today : datetime) (xs : list expired)
  (row : training_row) (xs' : list expired) :
  expired_safeguarding today xs row = Returned xs' ->
  (exists x, training_expired today row x /\ xs' = xs ++ [x]) \/
  ((forall x, ~ training_expired today row x) /\ xs' = xs).
Proof.
  unfold expired_safeguarding, training_expired, training_name.
  destruct (safeguarding_dates row) as [dates|e] eqn:Ed; [|discriminate]. cbn [bind].
  destruct dates as [|d ds].
  - intros [= <-]. right. split; [|reflexivity].
    intros x (dates & latest & expiry & [= <-] & Hm & _). discriminate.
  - destruct (py_max (d :: ds)) as [latest|e] eqn:Em; [|discriminate]. cbn [bind].
    destruct (add_days latest validity_days) as [expiry|e] eqn:Ea; [|discriminate].
    cbn [bind]. destruct (lt expiry today) eqn:El; intros [= <-].
    + left. eexists. split; [|reflexivity]. now exists (d :: ds), latest, expiry.
    + right. split; [|reflexivity].
      intros x (dates & latest' & expiry' & [= <-] & Hm & Ha & Hl & _).
      rewrite Em in Hm. injection Hm as <-. rewrite Ea in Ha. injection Ha as <-.
      congruence.
Qed.

Lemma expired_vetting_spec (today : datetime) (xs : list expired)
  (row : vetting_row) (xs' : list expired) :
  expired_vetting today xs row = Returned xs' ->
  (exists x, vetting_expired today row x /\ xs' = xs ++ [x]) \/
  ((forall x, ~ vetting_expired today row x) /\ xs' = xs).
Proof.
  unfold expired_vetting, vetting_expired, vetting_name.
  destruct (parse_vetting_date (v_latest_vetting_completion_date row)) as [[vd|]|e] eqn:Ep;
    [| |discriminate]; cbn [bind].
  - destruct (add_days vd validity_days) as [expiry|e] eqn:Ea; [|discriminate].
    cbn [bind]. destruct (lt expiry today) eqn:El; intros [= <-].
    + left. eexists. split; [|reflexivity]. now exists vd, expiry.
    + right. split; [|reflexivity].
      intros x (vd' & expiry' & [= <-] & Ha & Hl & _).
      rewrite Ea in Ha. injection Ha as <-. congruence.
  - intros [= <-]. right. split; [|reflexivity].
    intros x (vd' & expiry' & H & _). discriminate.
Qed.

Section Append.

Variables R X : Type.
Variable pick : R -> X -> Prop.
Variable step : list X -> R -> outcome (list X).

Hypothesis step_spec :
  forall xs row xs',
    step xs row = Returned xs' ->
    (exists x, pick row x /\ xs' = xs ++ [x]) \/ ((forall x, ~ pick row x) /\ xs' = xs).

(** The loop appends one item for each row that has one. *)
Lemma loop_picked (rows : list R) :
  forall xs0 xs,
    for_each step rows xs0 = Returned xs ->
    exists items, xs = xs0 ++ items /\ picked pick rows items.
Proof.
  induction rows as [|r rows IH]; intros xs0 xs H.
  - cbn in H. injection H as <-. exists []. split; [now rewrite app_nil_r|constructor].
  - cbn [for_each] in H. destruct (step xs0 r) as [xs1|e] eqn:Es; [|discriminate].
    cbn [bind] in H. destruct (IH _ _ H) as (items & -> & Hp).
    destruct (step_spec Es) as [(x & Hx & ->)|(Hno & ->)].
    + exists (x :: items). split; [now rewrite <- app_assoc|now constructor].
    + exists items. split; [reflexivity|now constructor].
Qed.

Lemma picked_in (rows : list R) (items : list X) :
  picked pick rows items ->
  forall x, In x items -> exists row, In row rows /\ pick row x.
Proof.
  induction 1 as [|row rows x0 items Hx _ IH|row rows items _ _ IH]; intros x Hin.
  - destruct Hin.
  - destruct Hin as [<-|Hin].
    + exists row. split; [now left|exact Hx].
    + destruct (IH x Hin) as (r & Hr & Hp). exists r. split; [now right|exact Hp].
  - destruct (IH x Hin) as (r & Hr & Hp). exists r. split; [now right|exact Hp].
Qed.

Lemma picked_row (rows : list R) (items : list X) :
  picked pick rows items ->
  forall row x, In row rows -> pick row x -> exists x', In x' items /\ pick row x'.
Proof.
  induction 1 as [|row rows x0 items Hx _ IH|row rows items Hno _ IH]; intros r x Hin Hp.
  - destruct Hin.
  - destruct Hin as [<-|Hin].
    + exists x0. split; [now left|exact Hx].
    + destruct (IH r x Hin Hp) as (x' & Hx' & Hp'). exists x'. split; [now right|exact Hp'].
  - destruct Hin as [<-|Hin]; [now destruct (Hno x)|]. now apply (IH r x).
Qed.

End Append.

Lemma check_all_renewals_expired (today : datetime) (df_training : list training_row)
  (df_vetting : list vetting_row) (all_renewals : dict) (expired_items : list expired) :
  check_all_renewals today df_training df_vetting = Returned (all_renewals, expired_items) ->
  exists from_training from_vetting,
    expired_items = from_training ++ from_vetting /\
    picked (training_expired today) df_training from_training /\
    picked (vetting_expired today) df_vetting from_vetting.
Proof.
  intros H.
  apply check_all_renewals_returned in H as (tmfn & d1 & x1 & _ & _ & _ & L3 & L4).
  destruct (@loop_picked _ _ _ _ (@expired_safeguarding_spec today) _ _ _ L3)
    as (xs1 & -> & P1).
  destruct (@loop_picked _ _ _ _ (@expired_vetting_spec today) _ _ _ L4)
    as (xs2 & -> & P2).
  now exists xs1, xs2.
Qed.

End ExpiredFacts.
Import ExpiredFacts.

Module DayFacts.

Local Open Scope Z_scope.

Lemma to_us_time_of_day (d : datetime) :
  to_us d = toordinal d * us_per_day + time_of_day d.
Proof. unfold to_us, time_of_day, us_per_day. lia. Qed.

Lemma time_of_day_range (d : datetime) : wf d -> 0 <= time_of_day d < us_per_day.
Proof. intros (_ & Hh & Hm & Hs & Hu). unfold time_of_day, us_per_day. lia. Qed.

Lemma date_of_groups_midnight (groups : list str) (d : datetime) :
  date_of_groups groups = Returned (Some d) -> time_of_day d = 0.
Proof.
  destruct groups as [|day [|month [|year [|? ?]]]]; try discriminate.
  cbn [date_of_groups].
  destruct (datetime_new (int_of_digits year) (int_of_digits month) (int_of_digits day))
    as [dt|e] eqn:E; [|discriminate].
  cbn [bind]. intros [= <-]. apply datetime_new_wf in E as [-> _]. reflexivity.
Qed.

Lemma dated_midnight (d : datetime) : dated d -> wf d /\ time_of_day d = 0.
Proof.
  intros (c & [H|H]).
  - split; [now apply (parse_vetting_date_wf c)|].
    destruct c as [|s]; [discriminate|]. cbn [parse_vetting_date] in H.
    destruct (re_match false vetting_pattern (strip s)); [|discriminate].
    now apply date_of_groups_midnight in H.
  - split; [now apply (extract_safeguarding_date_wf c)|].
    destruct c as [|s]; [discriminate|]. cbn [extract_safeguarding_date] in H.
    destruct (negb _); [discriminate|].
    destruct (re_search true date_pattern s); [now apply date_of_groups_midnight in H|].
    destruct (re_findall false date_pattern_alt s); [discriminate|].
    now apply date_of_groups_midnight in H.
Qed.

Lemma add_days_returned (dt : datetime) (n : Z) (e : datetime) :
  wf dt -> add_days dt n = Returned e ->
  wf e /\ toordinal e = toordinal dt + n /\ time_of_day e = time_of_day dt.
Proof.
  intros W H.
  destruct (Z_lt_ge_dec 0 (toordinal dt + n)) as [H0|H0];
    [|rewrite add_days_overflow in H by lia; discriminate].
  destruct (Z_le_gt_dec (toordinal dt + n) MAXORDINAL) as [H1|H1];
    [|rewrite add_days_overflow in H by lia; discriminate].
  destruct (@add_days_spec dt n W (conj H0 H1)) as (e' & He & We & Ho & Ht & _).
  rewrite H in He. injection He as <-. split; [exact We|]. split; [exact Ho|].
  injection Ht as Hh Hm Hs Hu. unfold time_of_day. now rewrite Hh, Hm, Hs, Hu.
Qed.

Lemma for_each_invariant (A S : Type) (P : S -> Prop) (step : S -> A -> outcome S)
  (xs : list A) :
  (forall acc x acc', P acc -> step acc x = Returned acc' -> P acc') ->
  forall acc acc', P acc -> for_each step xs acc = Returned acc' -> P acc'.
Proof.
  intros Hs. induction xs as [|x xs IH]; intros acc acc' Hp H.
  - cbn in H. now injection H as <-.
  - cbn [for_each] in H. destruct (step acc x) as [a1|e] eqn:E; [|discriminate].
    cbn [bind] in H. apply (IH a1); [now apply (Hs acc x)|exact H].
Qed.

Lemma safeguarding_dates_dated (row : training_row) (dates : list datetime) :
  safeguarding_dates row = Returned dates -> Forall dated dates.
Proof.
  unfold safeguarding_dates.
  apply (@for_each_invariant _ _ (Forall dated)); [|constructor].
  intros acc col acc' Hacc.
  destruct (index (t_cells row) col) as [c|e]; [|discriminate]. cbn [bind].
  destruct (extract_safeguarding_date c) as [[d|]|e] eqn:E; [| |discriminate];
    cbn [bind]; intros [= <-]; [|exact Hacc].
  apply Forall_app. split; [exact Hacc|]. constructor; [|constructor].
  exists c. now right.
Qed.

Lemma py_max_in (xs : list datetime) (latest : datetime) :
  py_max xs = Returned latest -> In latest xs.
Proof.
  intros H. destruct xs as [|x xs]; [discriminate|].
  destruct (@py_max_spec (x :: xs) ltac:(discriminate)) as (l & Hl & Hin & _).
  rewrite H in Hl. now injection Hl as <-.
Qed.

(** The dates behind a due training row. *)
Lemma training_due_dated (today tmfn : datetime) (row : training_row) (i : info) :
  training_due today tmfn row i ->
  dated (last_completed i) /\
  add_days (last_completed i) validity_days = Returned (expiry_date i) /\
  in_window today tmfn (expiry_date i) = true /\
  days_until i = sub_days (expiry_date i) today.
Proof.
  intros (dates & latest & expiry & Hd & Hm & Ha & Hw & ->). cbn.
  repeat split; try assumption.
  apply safeguarding_dates_dated in Hd. rewrite Forall_forall in Hd.
  apply Hd. now apply py_max_in.
Qed.

Lemma vetting_due_dated (today tmfn : datetime) (row : vetting_row) (i : info) :
  vetting_due today tmfn row i ->
  dated (last_completed i) /\
  add_days (last_completed i) validity_days = Returned (expiry_date i) /\
  in_window today tmfn (expiry_date i) = true /\
  days_until i = sub_days (expiry_date i) today.
Proof.
  intros (vd & expiry & Hp & Ha & Hw & ->). cbn. repeat split; try assumption.
  exists (v_latest_vetting_completion_date row). now left.
Qed.

Lemma training_expired_dated (today : datetime) (row : training_row) (x : expired) :
  training_expired today row x ->
  dated (x_last_completed x) /\
  add_days (x_last_completed x) validity_days = Returned (x_expiry_date x) /\
  lt (x_expiry_date x) today = true /\
  x_days_expired x = sub_days today (x_expiry_date x) /\
  x_name x = training_name row /\ x_email x = t_email row /\ x_type x = SafeguardingReq.
Proof.
  intros (dates & latest & expiry & Hd & Hm & Ha & Hl & ->). cbn.
  repeat split; try assumption.
  apply safeguarding_dates_dated in Hd. rewrite Forall_forall in Hd.
  apply Hd. now apply py_max_in.
Qed.

Lemma vetting_expired_dated (today : datetime) (row : vetting_row) (x : expired) :
  vetting_expired today row x ->
  dated (x_last_completed x) /\
  add_days (x_last_completed x) validity_days = Returned (x_expiry_date x) /\
  lt (x_expiry_date x) today = true /\
  x_days_expired x = sub_days today (x_expiry_date x) /\
  x_name x = vetting_name row /\ x_email x = v_email row /\ x_type x = VettingReq.
Proof.
  intros (vd & expiry & Hp & Ha & Hl & ->). cbn. repeat split; try assumption.
  exists (v_latest_vetting_completion_date row). now left.
Qed.

(** The two tests on an expiry at midnight, in calendar days. *)
Lemma window_in_days (today tmfn completed expiry : datetime) :
  wf today -> add_days today 90 = Returned tmfn ->
  dated completed -> add_days completed validity_days = Returned expiry ->
  toordinal expiry = toordinal completed + 1095 /\
  (in_window today tmfn expiry = true <->
   toordinal today + past_midnight today <= toordinal expiry <= toordinal today + 90) /\
  (in_window today tmfn expiry = true ->
   sub_days expiry today = toordinal expiry - toordinal today - past_midnight today) /\
  (lt expiry today = true <-> toordinal expiry < toordinal today + past_midnight today) /\
  (lt expiry today = true -> sub_days today expiry = toordinal today - toordinal expiry).
Proof.
  intros Wt Ha Hc He. apply dated_midnight in Hc as [Wc Hc0].
  destruct (@add_days_returned _ _ _ Wc He) as (We & Ho & Htod). rewrite Hc0 in Htod.
  pose proof (time_of_day_range Wt) as Hr.
  pose proof (to_us_time_of_day today) as Ut.
  pose proof (to_us_time_of_day expiry) as Ue. rewrite Htod in Ue.
  split; [exact Ho|].
  rewrite (in_window_to_us Wt We Ha), (lt_to_us We Wt).
  unfold sub_days. rewrite Ut, Ue. change 86400000000 with us_per_day.
  unfold past_midnight. destruct (Z.eqb_spec (time_of_day today) 0) as [E|E];
    unfold us_per_day in *.
  - rewrite E. repeat split; intros; try lia; zdiv.
  - repeat split; intros; try lia; zdiv.
Qed.

End DayFacts.
Import DayFacts.

Module AbortFacts.

Lemma lt_not_le (a b : datetime) : lt a b = true -> le b a = false.
Proof.
  unfold lt, le, cmp. rewrite (@cmp_fields_antisym (fields a) (fields b)) by reflexivity.
  destruct (cmp_fields (fields a) (fields b)); cbn; congruence.
Qed.

Lemma last_due_in (R : Type) (name_of : R -> str) (due : R -> info -> Prop)
  (rows : list R) (name : str) (i : info) :
  last_due name_of due rows name i ->
  exists row, In row rows /\ name_of row = name /\ due row i.
Proof.
  intros (before & row & after & -> & Hn & Hd & _). exists row.
  split; [apply in_or_app; right; now left|now split].
Qed.

Lemma nodup_map_eq (A B : Type) (f : A -> B) (xs : list A) (a b : A) :
  NoDup (map f xs) -> In a xs -> In b xs -> f a = f b -> a = b.
Proof.
  induction xs as [|x xs IH]; intros Hnd Ha Hb E; [destruct Ha|].
  cbn [map] in Hnd. inversion Hnd as [|? ? Hnot Hnd']; subst.
  destruct Ha as [<-|Ha], Hb as [<-|Hb].
  - reflexivity.
  - exfalso. apply Hnot. rewrite E. now apply in_map.
  - exfalso. apply Hnot. rewrite <- E. now apply in_map.
  - now apply IH.
Qed.

(** A loop that returns ran its body on every item. *)
Lemma for_each_returned_in (A S : Type) (step : S -> A -> outcome S) (xs : list A) :
  forall acc acc', for_each step xs acc = Returned acc' ->
  forall x, In x xs -> exists a a', step a x = Returned a'.
Proof.
  induction xs as [|y xs IH]; intros acc acc' H x Hin; [destruct Hin|].
  cbn [for_each] in H. destruct (step acc y) as [a1|e] eqn:E; [|discriminate].
  cbn [bind] in H. destruct Hin as [<-|Hin]; [now exists acc, a1|].
  now apply (IH a1 acc').
Qed.

Lemma for_each_app (A S : Type) (step : S -> A -> outcome S) (xs ys : list A) (acc : S) :
  for_each step (xs ++ ys) acc = (acc' <- for_each step xs acc ;; for_each step ys acc').
Proof.
  revert acc. induction xs as [|x xs IH]; intros acc; [reflexivity|].
  cbn [app for_each]. destruct (step acc x) as [a1|e]; cbn [bind]; [apply IH|reflexivity].
Qed.

Lemma safeguarding_dates_short (row : training_row) :
  (length (t_cells row) < 26)%nat -> exists e, safeguarding_dates row = Raised e.
Proof.
  intros Hlen. unfold safeguarding_dates.
  change (seq 5 21) with (seq 5 20 ++ [25%nat]). rewrite for_each_app.
  match goal with |- context [for_each ?f (seq 5 20) []] =>
    destruct (for_each f (seq 5 20) []) as [acc|e] end; cbn [bind]; [|now exists e].
  cbn [for_each]. unfold index.
  replace (nth_error (t_cells row) 25) with (@None cell)
    by (symmetry; apply nth_error_None; lia).
  cbn [bind]. now exists IndexError.
Qed.

Lemma bad_row_aborts (today : datetime) (df_training : list training_row)
  (df_vetting : list vetting_row) :
  (exists row, In row df_training /\
               ((exists e, safeguarding_dates row = Raised e) \/
                (length (t_cells row) < 26)%nat)) \/
  (exists row e, In row df_vetting /\
                 parse_vetting_date (v_latest_vetting_completion_date row) = Raised e) ->
  exists e, check_all_renewals today df_training df_vetting = Raised e.
Proof.
  intros Hbad.
  destruct (check_all_renewals today df_training df_vetting) as [[d x]|e] eqn:H;
    [exfalso|now exists e].
  apply check_all_renewals_returned in H as (tmfn & d1 & x1 & _ & L1 & L2 & _).
  destruct Hbad as [(row & Hin & Hr)|(row & e & Hin & Hr)].
  - assert (He : exists e, safeguarding_dates row = Raised e)
      by (destruct Hr as [He|Hlen]; [exact He|now apply safeguarding_dates_short]).
    destruct He as [e He].
    destruct (for_each_returned_in _ _ _ L1 _ Hin) as (a & a' & Hs).
    unfold renew_safeguarding in Hs. rewrite He in Hs. discriminate.
  - destruct (for_each_returned_in _ _ _ L2 _ Hin) as (a & a' & Hs).
    unfold renew_vetting in Hs. rewrite Hr in Hs. discriminate.
Qed.

End AbortFacts.
Import AbortFacts.

Module RangeFacts.

Local Open Scope Z_scope.

Lemma days_in_range (today : datetime) (df_training : list training_row)
  (df_vetting : list vetting_row) (all_renewals : dict) (expired_items : list expired) :
  wf today ->
  check_all_renewals today df_training df_vetting = Returned (all_renewals, expired_items) ->
  (forall name i,
     listed_safeguarding all_renewals name i \/ listed_vetting all_renewals name i ->
     dated (last_completed i) /\
     toordinal (expiry_date i) = toordinal (last_completed i) + 1095 /\
     0 <= days_until i <= 90 - past_midnight today) /\
  (forall x,
     In x expired_items ->
     dated (x_last_completed x) /\
     toordinal (x_expiry_date x) = toordinal (x_last_completed x) + 1095 /\
     0 <= x_days_expired x).
Proof.
  intros Wt H. pose proof (check_all_renewals_expired _ _ _ H) as (xs1 & xs2 & -> & P1 & P2).
  apply check_all_renewals_returned in H as (tmfn & d1 & x1 & Ha & L1 & L2 & _).
  assert (Hdue : forall i,
            dated (last_completed i) ->
            add_days (last_completed i) validity_days = Returned (expiry_date i) ->
            in_window today tmfn (expiry_date i) = true ->
            days_until i = sub_days (expiry_date i) today ->
            dated (last_completed i) /\
            toordinal (expiry_date i) = toordinal (last_completed i) + 1095 /\
            0 <= days_until i <= 90 - past_midnight today).
  { intros i Hd He Hw ->.
    destruct (window_in_days Wt Ha Hd He) as (Ho & Hin & Hsub & _).
    rewrite (Hsub Hw). apply Hin in Hw. split; [exact Hd|]. split; [exact Ho|lia]. }
  assert (Hexp : forall x,
            dated (x_last_completed x) ->
            add_days (x_last_completed x) validity_days = Returned (x_expiry_date x) ->
            lt (x_expiry_date x) today = true ->
            x_days_expired x = sub_days today (x_expiry_date x) ->
            dated (x_last_completed x) /\
            toordinal (x_expiry_date x) = toordinal (x_last_completed x) + 1095 /\
            0 <= x_days_expired x).
  { intros x Hd He Hl ->.
    destruct (window_in_days Wt Ha Hd He) as (Ho & _ & _ & Hlt & Hsub).
    rewrite (Hsub Hl). apply Hlt in Hl. split; [exact Hd|]. split; [exact Ho|].
    unfold past_midnight in Hl. destruct (time_of_day today =? 0); lia. }
  split.
  - intros name i [Hl|Hl].
    + rewrite (@vetting_loop_untouched _ _ _ _ _ L2 name i) in Hl.
      rewrite (@training_loop_listed _ _ _ _ _ L1 name i) in Hl.
      destruct Hl as [Hl|[_ Hl]]; [|now apply listed_safeguarding_empty in Hl].
      apply last_due_in in Hl as (row & _ & _ & Hd).
      apply training_due_dated in Hd as (Hd & He & Hw & Hu). now apply Hdue.
    + rewrite (@vetting_loop_listed _ _ _ _ _ L2 name i) in Hl.
      destruct Hl as [Hl|[_ Hl]].
      * apply last_due_in in Hl as (row & _ & _ & Hd).
        apply vetting_due_dated in Hd as (Hd & He & Hw & Hu). now apply Hdue.
      * rewrite (@training_loop_untouched _ _ _ _ _ L1 name i) in Hl.
        now apply listed_vetting_empty in Hl.
  - intros x Hin. apply in_app_or in Hin as [Hin|Hin].
    + destruct (picked_in P1 _ Hin) as (row & _ & Hx).
      apply training_expired_dated in Hx as (Hd & He & Hl & Hu & _). now apply Hexp.
    + destruct (picked_in P2 _ Hin) as (row & _ & Hx).
      apply vetting_expired_dated in Hx as (Hd & He & Hl & Hu & _). now apply Hexp.
Qed.

Lemma due_or_expired (today : datetime) (df_training : list training_row)
  (df_vetting : list vetting_row) (all_renewals : dict) (expired_items : list expired) :
  check_all_renewals today df_training df_vetting = Returned (all_renewals, expired_items) ->
  (NoDup (map training_name df_training) ->
   forall name i x,
     listed_safeguarding all_renewals name i ->
     In x expired_items -> x_name x = name -> x_type x <> SafeguardingReq) /\
  (NoDup (map vetting_name df_vetting) ->
   forall name i x,
     listed_vetting all_renewals name i ->
     In x expired_items -> x_name x = name -> x_type x <> VettingReq).
Proof.
  intros H. pose proof (check_all_renewals_expired _ _ _ H) as (xs1 & xs2 & -> & P1 & P2).
  apply check_all_renewals_returned in H as (tmfn & d1 & x1 & Ha & L1 & L2 & _).
  split; intros Hnd name i x Hl Hin Hname Htype.
  - rewrite (@vetting_loop_untouched _ _ _ _ _ L2 name i) in Hl.
    rewrite (@training_loop_listed _ _ _ _ _ L1 name i) in Hl.
    destruct Hl as [Hl|[_ Hl]]; [|now apply listed_safeguarding_empty in Hl].
    apply last_due_in in Hl as (row & Hrow & Hn & Hd).
    apply in_app_or in Hin as [Hin|Hin].
    + destruct (picked_in P1 _ Hin) as (row' & Hrow' & Hx).
      pose proof (training_expired_dated Hx) as (_ & He' & Hlt & _ & Hn' & _).
      assert (row' = row) as ->
          by (apply (@nodup_map_eq _ _ training_name _ _ _ Hnd Hrow' Hrow); congruence).
      destruct Hd as (ds & l & e & Hds & Hm & He & Hw & ->).
      destruct Hx as (ds' & l' & e' & Hds' & Hm' & He'' & Hlt' & ->). cbn in *.
      rewrite Hds in Hds'. injection Hds' as <-. rewrite Hm in Hm'. injection Hm' as <-.
      rewrite He in He''. injection He'' as <-.
      unfold in_window in Hw. apply andb_true_iff in Hw as [Hw _].
      apply lt_not_le in Hlt'. congruence.
    + destruct (picked_in P2 _ Hin) as (row' & _ & Hx).
      apply vetting_expired_dated in Hx as (_ & _ & _ & _ & _ & _ & Ht). congruence.
  - rewrite (@vetting_loop_listed _ _ _ _ _ L2 name i) in Hl.
    destruct Hl as [Hl|[_ Hl]];
      [|rewrite (@training_loop_untouched _ _ _ _ _ L1 name i) in Hl;
        now apply listed_vetting_empty in Hl].
    apply last_due_in in Hl as (row & Hrow & Hn & Hd).
    apply in_app_or in Hin as [Hin|Hin].
    + destruct (picked_in P1 _ Hin) as (row' & _ & Hx).
      apply training_expired_dated in Hx as (_ & _ & _ & _ & _ & _ & Ht). congruence.
    + destruct (picked_in P2 _ Hin) as (row' & Hrow' & Hx).
      pose proof (vetting_expired_dated Hx) as (_ & _ & _ & _ & Hn' & _).
      assert (row' = row) as ->
          by (apply (@nodup_map_eq _ _ vetting_name _ _ _ Hnd Hrow' Hrow); congruence).
      destruct Hd as (vd & e & Hp & He & Hw & ->).
      destruct Hx as (vd' & e' & Hp' & He' & Hlt' & ->). cbn in *.
      rewrite Hp in Hp'. injection Hp' as <-. rewrite He in He'. injection He' as <-.
      unfold in_window in Hw. apply andb_true_iff in Hw as [Hw _].
      apply lt_not_le in Hlt'. congruence.
Qed.

End RangeFacts.
Import RangeFacts.

Module SortFacts.

Local Open Scope Z_scope.

Section Sort.

Variable A : Type.
Variable key : A -> Z.

Lemma insert_by_perm (x : A) (sorted : list A) :
  Permutation (insert_by key x sorted) (x :: sorted).
Proof.
  induction sorted as [|y sorted IH]; cbn [insert_by]; [reflexivity|].
  destruct (key y <? key x); [|reflexivity].
  rewrite IH. apply perm_swap.
Qed.

Lemma sorted_by_perm (xs : list A) : Permutation (sorted_by key xs) xs.
Proof.
  induction xs as [|x xs IH]; cbn [sorted_by fold_right]; [reflexivity|].
  rewrite insert_by_perm. now constructor.
Qed.

Lemma insert_by_sorted (x : A) (sorted : list A) :
  StronglySorted (fun a b => key a <= key b) sorted ->
  StronglySorted (fun a b => key a <= key b) (insert_by key x sorted).
Proof.
  induction 1 as [|y sorted Hs IH Hy]; cbn [insert_by].
  - constructor; constructor.
  - destruct (Z.ltb_spec (key y) (key x)) as [Hlt|Hge].
    + constructor; [exact IH|].
      rewrite Forall_forall. intros z Hz.
      apply (Permutation_in _ (insert_by_perm x sorted)) in Hz as [<-|Hz]; [lia|].
      rewrite Forall_forall in Hy. now apply Hy.
    + constructor; [now constructor|]. constructor; [exact Hge|].
      rewrite Forall_forall in *. intros z Hz. specialize (Hy z Hz). lia.
Qed.

Lemma sorted_by_sorted (xs : list A) :
  StronglySorted (fun a b => key a <= key b) (sorted_by key xs).
Proof.
  induction xs as [|x xs IH]; cbn [sorted_by fold_right]; [constructor|].
  now apply insert_by_sorted.
Qed.

Lemma insert_by_filter (k : Z) (x : A) (sorted : list A) :
  filter (fun y => key y =? k) (insert_by key x sorted) =
  filter (fun y => key y =? k) (x :: sorted).
Proof.
  induction sorted as [|y sorted IH]; cbn [insert_by]; [reflexivity|].
  destruct (Z.ltb_spec (key y) (key x)) as [Hlt|Hge]; [|reflexivity].
  cbn [filter] in *. rewrite IH.
  destruct (Z.eqb_spec (key y) k), (Z.eqb_spec (key x) k); try reflexivity. lia.
Qed.

Lemma sorted_by_filter (k : Z) (xs : list A) :
  filter (fun y => key y =? k) (sorted_by key xs) = filter (fun y => key y =? k) xs.
Proof.
  induction xs as [|x xs IH]; cbn [sorted_by fold_right]; [reflexivity|].
  rewrite insert_by_filter. cbn [filter]. fold (sorted_by key xs). now rewrite IH.
Qed.

End Sort.

End SortFacts.
Import SortFacts.

Module KeyOrderFacts.

Local Open Scope Z_scope.

Lemma display_key_least (today : datetime) (df_training : list training_row)
  (df_vetting : list vetting_row) (all_renewals : dict) (expired_items : list expired) :
  wf today ->
  check_all_renewals today df_training df_vetting = Returned (all_renewals, expired_items) ->
  forall name r,
    In (name, r) all_renewals ->
    0 <= display_key (name, r) <= 90 - past_midnight today /\
    (exists i,
       (r_safeguarding r = Some i \/ r_vetting r = Some i) /\
       display_key (name, r) = days_until i) /\
    (forall i,
       r_safeguarding r = Some i \/ r_vetting r = Some i ->
       display_key (name, r) <= days_until i).
Proof.
  intros Wt H name r Hin.
  assert (Hone : one_entry_each all_renewals).
  { pose proof H as H'.
    apply check_all_renewals_returned in H' as (tmfn & d1 & x1 & _ & L1 & L2 & _).
    apply (@vetting_loop_entries _ _ _ _ _ L2), (@training_loop_entries _ _ _ _ _ L1),
      one_entry_each_empty. }
  destruct Hone as [Hnd Hrec].
  pose proof (dict_in_get _ _ _ Hnd Hin) as Hget.
  assert (Hs : forall i, r_safeguarding r = Some i ->
                         0 <= days_until i <= 90 - past_midnight today).
  { intros i Hi.
    apply (proj1 (@days_in_range today df_training df_vetting all_renewals
                    expired_items Wt H) name i).
    left. now exists r. }
  assert (Hv : forall i, r_vetting r = Some i ->
                         0 <= days_until i <= 90 - past_midnight today).
  { intros i Hi.
    apply (proj1 (@days_in_range today df_training df_vetting all_renewals
                    expired_items Wt H) name i).
    right. now exists r. }
  assert (Hp : 0 <= past_midnight today <= 1)
    by (unfold past_midnight; destruct (time_of_day today =? 0); lia).
  specialize (Hrec name r Hin).
  unfold display_key, days_until_or. cbn [snd].
  destruct (r_safeguarding r) as [s|], (r_vetting r) as [v|].
  - specialize (Hs s eq_refl). specialize (Hv v eq_refl). split; [lia|]. split.
    + destruct (Z.min_spec (days_until s) (days_until v)) as [[_ ->]|[_ ->]];
        [exists s|exists v]; split; auto.
    + intros i [[= <-]|[= <-]]; lia.
  - specialize (Hs s eq_refl). rewrite Z.min_l by lia. split; [lia|]. split.
    + exists s. split; auto.
    + intros i [[= <-]|[=]]. lia.
  - specialize (Hv v eq_refl). rewrite Z.min_r by lia. split; [lia|]. split.
    + exists v. split; auto.
    + intros i [[=]|[= <-]]. lia.
  - destruct Hrec as [Hrec|Hrec]; now destruct Hrec.
Qed.

End KeyOrderFacts.
Import KeyOrderFacts.

Module TotalFacts.

Local Open Scope Z_scope.

Lemma for_each_total (A S : Type) (step : S -> A -> outcome S) (xs : list A) :
  (forall x, In x xs -> forall acc, exists acc', step acc x = Returned acc') ->
  forall acc, exists acc', for_each step xs acc = Returned acc'.
Proof.
  induction xs as [|x xs IH]; intros Hs acc; cbn [for_each]; [now exists acc|].
  destruct (Hs x (or_introl eq_refl) acc) as [a1 ->]. cbn [bind].
  apply IH. intros y Hy. apply Hs. now right.
Qed.

Lemma add_validity_returns (d : datetime) :
  wf d -> renewable d -> exists expiry, add_days d validity_days = Returned expiry.
Proof.
  intros W R. pose proof (toordinal_range W) as Hr. unfold renewable in R.
  destruct (@add_days_spec d validity_days W) as (e & He & _); [|now exists e].
  unfold validity_days. lia.
Qed.

Lemma latest_returns (row : training_row) (dates : list datetime) (x : datetime)
  (xs : list datetime) :
  safeguarding_dates row = Returned dates -> Forall renewable dates -> dates = x :: xs ->
  exists latest expiry,
    py_max dates = Returned latest /\ add_days latest validity_days = Returned expiry.
Proof.
  intros Hd Hr E.
  destruct (@py_max_spec dates) as (latest & Hm & Hin & _); [congruence|].
  exists latest. rewrite Forall_forall in Hr.
  pose proof (safeguarding_dates_dated _ Hd) as Hdt. rewrite Forall_forall in Hdt.
  destruct (dated_midnight (Hdt _ Hin)) as [W _].
  destruct (add_validity_returns W (Hr _ Hin)) as [expiry He]. now exists expiry.
Qed.

Lemma renew_safeguarding_returns (today tmfn : datetime) (row : training_row) (d : dict) :
  training_row_reads row -> exists d', renew_safeguarding today tmfn d row = Returned d'.
Proof.
  intros (dates & Hd & Hr). unfold renew_safeguarding. rewrite Hd. cbn [bind].
  destruct dates as [|x xs] eqn:E; [now eexists|]. rewrite <- E in *.
  destruct (latest_returns _ Hd Hr E) as (latest & expiry & Hm & He).
  rewrite E in Hm |- *. rewrite Hm. cbn [bind]. rewrite He. cbn [bind].
  destruct (in_window today tmfn expiry); now eexists.
Qed.

Lemma expired_safeguarding_returns (today : datetime) (row : training_row)
  (xs : list expired) :
  training_row_reads row -> exists xs', expired_safeguarding today xs row = Returned xs'.
Proof.
  intros (dates & Hd & Hr). unfold expired_safeguarding. rewrite Hd. cbn [bind].
  destruct dates as [|x l] eqn:E; [now eexists|]. rewrite <- E in *.
  destruct (latest_returns _ Hd Hr E) as (latest & expiry & Hm & He).
  rewrite E in Hm |- *. rewrite Hm. cbn [bind]. rewrite He. cbn [bind].
  destruct (lt expiry today); now eexists.
Qed.

Lemma vetting_expiry_returns (row : vetting_row) :
  vetting_row_reads row ->
  parse_vetting_date (v_latest_vetting_completion_date row) = Returned None \/
  exists vd expiry,
    parse_vetting_date (v_latest_vetting_completion_date row) = Returned (Some vd) /\
    add_days vd validity_days = Returned expiry.
Proof.
  intros ([vd|] & Hp & Hr); [right|now left].
  destruct (@add_validity_returns vd) as [expiry He];
    [now apply parse_vetting_date_wf in Hp|now apply Hr|].
  now exists vd, expiry.
Qed.

Lemma renew_vetting_returns (today tmfn : datetime) (row : vetting_row) (d : dict) :
  vetting_row_reads row -> exists d', renew_vetting today tmfn d row = Returned d'.
Proof.
  intros H. unfold renew_vetting.
  destruct (vetting_expiry_returns H) as [->|(vd & expiry & -> & He)]; cbn [bind];
    [now eexists|].
  rewrite He. cbn [bind]. destruct (in_window today tmfn expiry); now eexists.
Qed.

Lemma expired_vetting_returns (today : datetime) (row : vetting_row) (xs : list expired) :
  vetting_row_reads row -> exists xs', expired_vetting today xs row = Returned xs'.
Proof.
  intros H. unfold expired_vetting.
  destruct (vetting_expiry_returns H) as [->|(vd & expiry & -> & He)]; cbn [bind];
    [now eexists|].
  rewrite He. cbn [bind]. destruct (lt expiry today); now eexists.
Qed.

Lemma renewable_of_add (d e : datetime) :
  wf d -> add_days d validity_days = Returned e -> renewable d.
Proof.
  intros W H. unfold renewable.
  destruct (Z_le_gt_dec (toordinal d + 1095) MAXORDINAL) as [Hle|Hgt]; [exact Hle|].
  rewrite add_days_overflow in H by (unfold validity_days; lia). discriminate.
Qed.

Lemma dated_le_ordinal (x y : datetime) :
  dated x -> dated y -> le x y = true -> toordinal x <= toordinal y.
Proof.
  intros Hx Hy H. apply dated_midnight in Hx as [Wx Tx]. apply dated_midnight in Hy as [Wy Ty].
  apply (le_to_us Wx Wy) in H. rewrite !to_us_time_of_day, Tx, Ty in H.
  unfold us_per_day in H. lia.
Qed.

Lemma renew_safeguarding_reads (today tmfn : datetime) (row : training_row) (d d' : dict) :
  renew_safeguarding today tmfn d row = Returned d' -> training_row_reads row.
Proof.
  unfold renew_safeguarding, training_row_reads.
  destruct (safeguarding_dates row) as [dates|e] eqn:Ed; [|discriminate]. cbn [bind].
  intros H. exists dates. split; [reflexivity|].
  destruct dates as [|x xs] eqn:E; [constructor|]. rewrite <- E in *.
  destruct (@py_max_spec dates) as (latest & Hm & Hin & Hup & _); [congruence|].
  rewrite E in H. rewrite <- E in H. rewrite Hm in H. cbn [bind] in H.
  destruct (add_days latest validity_days) as [expiry|e] eqn:Ea; [|discriminate].
  pose proof (safeguarding_dates_dated _ Ed) as Hdt. rewrite Forall_forall in Hdt.
  assert (Rl : renewable latest)
    by (apply (@renewable_of_add latest expiry);
        [now destruct (dated_midnight (Hdt _ Hin))|exact Ea]).
  rewrite Forall_forall. intros y Hy. unfold renewable in *.
  pose proof (dated_le_ordinal (Hdt _ Hy) (Hdt _ Hin) (Hup _ Hy)). lia.
Qed.

Lemma renew_vetting_reads (today tmfn : datetime) (row : vetting_row) (d d' : dict) :
  renew_vetting today tmfn d row = Returned d' -> vetting_row_reads row.
Proof.
  unfold renew_vetting, vetting_row_reads.
  destruct (parse_vetting_date (v_latest_vetting_completion_date row)) as [o|e] eqn:Ep;
    [|discriminate]. cbn [bind].
  intros H. exists o. split; [reflexivity|]. intros vd ->.
  destruct (add_days vd validity_days) as [expiry|e] eqn:Ea; [|discriminate].
  apply (@renewable_of_add vd expiry); [now apply parse_vetting_date_wf in Ep|exact Ea].
Qed.

Lemma check_all_renewals_total (today : datetime) (df_training : list training_row)
  (df_vetting : list vetting_row) :
  wf today -> toordinal today + 90 <= MAXORDINAL ->
  (forall row, In row df_training -> training_row_reads row) ->
  (forall row, In row df_vetting -> vetting_row_reads row) ->
  exists all_renewals expired_items,
    check_all_renewals today df_training df_vetting
    = Returned (all_renewals, expired_items).
Proof.
  intros Wt Ho Ht Hv. unfold check_all_renewals.
  pose proof (toordinal_range Wt) as Hr.
  destruct (@add_days_spec today 90 Wt) as (tmfn & -> & _); [lia|]. cbn [bind].
  destruct (@for_each_total _ _ (renew_safeguarding today tmfn) df_training)
    with (acc := @nil (str * renewal))
    as [d1 ->]; [intros row Hin acc; now apply renew_safeguarding_returns, Ht|].
  cbn [bind].
  destruct (@for_each_total _ _ (renew_vetting today tmfn) df_vetting) with (acc := d1)
    as [d2 ->]; [intros row Hin acc; now apply renew_vetting_returns, Hv|].
  cbn [bind].
  destruct (@for_each_total _ _ (expired_safeguarding today) df_training)
    with (acc := @nil expired)
    as [x1 ->]; [intros row Hin acc; now apply expired_safeguarding_returns, Ht|].
  cbn [bind].
  destruct (@for_each_total _ _ (expired_vetting today) df_vetting) with (acc := x1)
    as [x2 ->]; [intros row Hin acc; now apply expired_vetting_returns, Hv|].
  cbn [bind]. now exists d2, x2.
Qed.

End TotalFacts.
Import TotalFacts.

Module AnniversaryFacts.

Local Open Scope Z_scope.

Lemma is_leap_mod4 (y : Z) : is_leap y = true -> y mod 4 = 0.
Proof. unfold is_leap. intros H. apply andb_true_iff in H as [H _]. now apply Z.eqb_eq. Qed.

Lemma leap_day_range (y : Z) : 0 <= leap_day y <= 1.
Proof. unfold leap_day. destruct (is_leap y); lia. Qed.

Lemma leap_day_three (y : Z) : leap_day y + leap_day (y + 1) + leap_day (y + 2) <= 1.
Proof.
  unfold leap_day.
  destruct (is_leap y) eqn:E0, (is_leap (y + 1)) eqn:E1, (is_leap (y + 2)) eqn:E2;
    try lia;
    repeat match goal with H : is_leap _ = true |- _ => apply is_leap_mod4 in H end;
    exfalso; zdiv.
Qed.

Lemma leap_days_between_range (y m : Z) : 0 <= leap_days_between y m <= 1.
Proof.
  unfold leap_days_between.
  pose proof (leap_day_three y). pose proof (leap_day_three (y + 1)).
  pose proof (leap_day_range y). pose proof (leap_day_range (y + 1)).
  pose proof (leap_day_range (y + 2)). pose proof (leap_day_range (y + 3)).
  replace (y + 1 + 1) with (y + 2) in * by lia.
  replace (y + 1 + 2) with (y + 3) in * by lia.
  destruct (m <=? 2); lia.
Qed.

Lemma ymd2ord_three_years (y m d : Z) :
  ymd2ord (y + 3) m d = ymd2ord y m d + 1095 + leap_days_between y m.
Proof.
  unfold ymd2ord, days_before_month, leap_days_between, leap_day.
  replace (y + 3) with (y + 1 + 1 + 1) by lia.
  rewrite !days_before_year_succ.
  replace (y + 1 + 1) with (y + 2) by lia.
  replace (y + 2 + 1) with (y + 3) by lia.
  destruct (Z.leb_spec m 2) as [Hm|Hm].
  - replace (2 <? m) with false by (symmetry; apply Z.ltb_ge; lia). cbn [andb]. lia.
  - replace (2 <? m) with true by (symmetry; apply Z.ltb_lt; lia). cbn [andb].
    destruct (is_leap y), (is_leap (y + 1)), (is_leap (y + 2)), (is_leap (y + 3)); lia.
Qed.

Lemma ymd2ord_inj (y1 m1 d1 y2 m2 d2 : Z) :
  valid_date y1 m1 d1 = true -> valid_date y2 m2 d2 = true ->
  ymd2ord y1 m1 d1 = ymd2ord y2 m2 d2 -> (y1, m1, d1) = (y2, m2, d2).
Proof.
  intros V1 V2 E.
  pose proof (@cmp_date_ord y1 m1 d1 y2 m2 d2 V1 V2) as H.
  rewrite E, Z.compare_refl in H.
  apply cmp_fields_eq in H; [|reflexivity]. now injection H as -> -> ->.
Qed.

Lemma wf_midnight_eq (a b : datetime) :
  wf a -> wf b -> time_of_day a = 0 -> time_of_day b = 0 ->
  toordinal a = toordinal b -> a = b.
Proof.
  intros Wa Wb Ta Tb E. apply cmp_eq. rewrite (cmp_to_us Wa Wb).
  rewrite !to_us_time_of_day, Ta, Tb, E. apply Z.compare_refl.
Qed.

Lemma expiry_anniversary (y m d : Z) (completed expiry : datetime) :
  datetime_new y m d = Returned completed ->
  add_days completed validity_days = Returned expiry ->
  valid_date (y + 3) m d = true ->
  toordinal expiry = toordinal (mkdatetime (y + 3) m d 0 0 0 0) - leap_days_between y m /\
  0 <= leap_days_between y m <= 1 /\
  (leap_days_between y m = 0 -> expiry = mkdatetime (y + 3) m d 0 0 0 0).
Proof.
  intros Hc He V3. apply datetime_new_wf in Hc as [-> Wc].
  destruct (@add_days_returned _ _ _ Wc He) as (We & Ho & Ht).
  assert (Hord : toordinal expiry
                 = toordinal (mkdatetime (y + 3) m d 0 0 0 0) - leap_days_between y m).
  { rewrite Ho. unfold toordinal, validity_days. cbn [year month day].
    rewrite ymd2ord_three_years. lia. }
  split; [exact Hord|]. split; [apply leap_days_between_range|].
  intros H0. rewrite H0 in Hord. apply wf_midnight_eq.
  - exact We.
  - unfold wf. cbn. repeat split; try lia. exact V3.
  - rewrite Ht. reflexivity.
  - reflexivity.
  - lia.
Qed.

Lemma dated_fields (d : datetime) :
  dated d -> datetime_new (year d) (month d) (day d) = Returned d.
Proof.
  intros H. apply dated_midnight in H as [(V & Hh & Hm & Hs & Hu) T].
  unfold datetime_new. rewrite V. unfold time_of_day in T.
  destruct d as [y m d0 h mi s u]. cbn in *.
  assert (h = 0) by lia. assert (mi = 0) by lia. assert (s = 0) by lia.
  assert (u = 0) by lia. now subst.
Qed.

Lemma expiry_anniversary_dated (completed expiry : datetime) :
  dated completed ->
  add_days completed validity_days = Returned expiry ->
  valid_date (year completed + 3) (month completed) (day completed) = true ->
  toordinal expiry
  = toordinal (mkdatetime (year completed + 3) (month completed) (day completed) 0 0 0 0)
    - leap_days_between (year completed) (month completed) /\
  0 <= leap_days_between (year completed) (month completed) <= 1 /\
  (leap_days_between (year completed) (month completed) = 0 ->
   expiry = mkdatetime (year completed + 3) (month completed) (day completed) 0 0 0 0).
Proof.
  intros Hd. apply expiry_anniversary. now apply dated_fields.
Qed.

End AnniversaryFacts.
Import AnniversaryFacts.

Module ClassifyFacts.

Local Open Scope Z_scope.

(** The two loop bodies on a vetting row with a date and its expiry. *)
Lemma vetting_bodies (today tmfn : datetime) (row : vetting_row)
  (vetting_date expiry : datetime) :
  parse_vetting_date (v_latest_vetting_completion_date row) = Returned (Some vetting_date) ->
  add_days vetting_date validity_days = Returned expiry ->
  (forall all_renewals,
     renew_vetting today tmfn all_renewals row =
     Returned (if in_window today tmfn expiry
               then set_vetting all_renewals (vetting_name row) (v_email row)
                      {| last_completed := vetting_date; expiry_date := expiry;
                         days_until := sub_days expiry today |}
               else all_renewals)) /\
  (forall expired_items,
     expired_vetting today expired_items row =
     Returned (if lt expiry today
               then expired_items ++
                    [{| x_name := vetting_name row; x_email := v_email row;
                        x_type := VettingReq; x_last_completed := vetting_date;
                        x_expiry_date := expiry;
                        x_days_expired := sub_days today expiry |}]
               else expired_items)).
Proof.
  intros Hp He. split.
  - intros d. unfold renew_vetting. rewrite Hp. cbn [bind]. rewrite He. cbn [bind].
    now destruct (in_window today tmfn expiry).
  - intros xs. unfold expired_vetting. rewrite Hp. cbn [bind]. rewrite He. cbn [bind].
    now destruct (lt expiry today).
Qed.

(** The two loop bodies on a training row with its latest date and the
    expiry of that date. *)
Lemma training_bodies (today tmfn : datetime) (row : training_row)
  (dates : list datetime) (latest_date expiry : datetime) :
  safeguarding_dates row = Returned dates ->
  py_max dates = Returned latest_date ->
  add_days latest_date validity_days = Returned expiry ->
  (forall all_renewals,
     renew_safeguarding today tmfn all_renewals row =
     Returned (if in_window today tmfn expiry
               then set_safeguarding all_renewals (training_name row) (t_email row)
                      {| last_completed := latest_date; expiry_date := expiry;
                         days_until := sub_days expiry today |}
               else all_renewals)) /\
  (forall expired_items,
     expired_safeguarding today expired_items row =
     Returned (if lt expiry today
               then expired_items ++
                    [{| x_name := training_name row; x_email := t_email row;
                        x_type := SafeguardingReq; x_last_completed := latest_date;
                        x_expiry_date := expiry;
                        x_days_expired := sub_days today expiry |}]
               else expired_items)).
Proof.
  intros Hd Hm He. destruct dates as [|x xs]; [discriminate|]. split.
  - intros d. unfold renew_safeguarding. rewrite Hd. cbn [bind]. rewrite Hm. cbn [bind].
    rewrite He. cbn [bind]. now destruct (in_window today tmfn expiry).
  - intros items. unfold expired_safeguarding. rewrite Hd. cbn [bind]. rewrite Hm.
    cbn [bind]. rewrite He. cbn [bind]. now destruct (lt expiry today).
Qed.



(** A date the loops work on is a date of one of the parsers. *)
Lemma vetting_date_dated (row : vetting_row) (vetting_date : datetime) :
  parse_vetting_date (v_latest_vetting_completion_date row) = Returned (Some vetting_date) ->
  dated vetting_date.
Proof. intros H. exists (v_latest_vetting_completion_date row). now left. Qed.

Lemma latest_date_dated (row : training_row) (dates : list datetime)
  (latest_date : datetime) :
  safeguarding_dates row = Returned dates -> py_max dates = Returned latest_date ->
  dated latest_date.
Proof.
  intros Hd Hm. apply safeguarding_dates_dated in Hd. rewrite Forall_forall in Hd.
  apply Hd. now apply py_max_in.
Qed.


(** The window test and the expired test as tests on calendar days. *)
Lemma tests_in_days (today tmfn completion expiry : datetime) :
  wf today -> add_days today 90 = Returned tmfn ->
  dated completion -> add_days completion validity_days = Returned expiry ->
  in_window today tmfn expiry
  = (toordinal today + past_midnight today <=? toordinal expiry) &&
    (toordinal expiry <=? toordinal today + 90) /\
  lt expiry today = (toordinal expiry <? toordinal today + past_midnight today) /\
  (in_window today tmfn expiry = true ->
   sub_days expiry today = toordinal expiry - toordinal today - past_midnight today) /\
  (lt expiry today = true -> sub_days today expiry = toordinal today - toordinal expiry).
Proof.
  intros Wt Ha Hd He.
  destruct (window_in_days Wt Ha Hd He) as (_ & Hin & Hsub & Hlt & Hsub').
  split; [|split; [|split; assumption]].
  - destruct (in_window today tmfn expiry) eqn:E.
    + symmetry. apply andb_true_iff. rewrite !Z.leb_le. now apply Hin.
    + symmetry. apply not_true_is_false. intros H. apply andb_true_iff in H.
      rewrite !Z.leb_le in H. apply Hin in H. congruence.
  - destruct (lt expiry today) eqn:E.
    + symmetry. apply Z.ltb_lt. now apply Hlt.
    + symmetry. apply Z.ltb_ge. destruct (Z_lt_ge_dec (toordinal expiry)
        (toordinal today + past_midnight today)) as [H|H]; [|lia].
      apply Hlt in H. congruence.
Qed.

End ClassifyFacts.
Import ClassifyFacts.

Module ExpiredTestFacts.

Local Open Scope Z_scope.

(** The expired test as a test on calendar days; it does not need the
    end of the window. *)
Lemma lt_in_days (today completion expiry : datetime) :
  wf today -> dated completion ->
  add_days completion validity_days = Returned expiry ->
  time_of_day expiry = 0 /\
  (lt expiry today = true <-> to_us expiry < to_us today) /\
  (lt expiry today = true <-> toordinal expiry < toordinal today + past_midnight today) /\
  lt expiry today = (toordinal expiry <? toordinal today + past_midnight today) /\
  (lt expiry today = true -> sub_days today expiry = toordinal today - toordinal expiry).
Proof.
  intros Wt Hc He. apply dated_midnight in Hc as [Wc Hc0].
  destruct (@add_days_returned _ _ _ Wc He) as (We & Ho & Htod). rewrite Hc0 in Htod.
  pose proof (time_of_day_range Wt) as Hr.
  pose proof (to_us_time_of_day today) as Ut.
  pose proof (to_us_time_of_day expiry) as Ue. rewrite Htod in Ue.
  assert (Hdays : lt expiry today = true <->
                  toordinal expiry < toordinal today + past_midnight today).
  { rewrite (lt_to_us We Wt), Ut, Ue. unfold past_midnight.
    destruct (Z.eqb_spec (time_of_day today) 0) as [E|E]; unfold us_per_day in *; lia. }
  split; [exact Htod|]. split; [now apply lt_to_us|]. split; [exact Hdays|]. split.
  - destruct (lt expiry today) eqn:E.
    + symmetry. apply Z.ltb_lt. now apply Hdays.
    + symmetry. apply Z.ltb_ge.
      destruct (Z_lt_ge_dec (toordinal expiry) (toordinal today + past_midnight today))
        as [H|H]; [|lia].
      apply Hdays in H. congruence.
  - intros Hl. apply (lt_to_us We Wt) in Hl. unfold sub_days. rewrite Ut, Ue in *.
    unfold us_per_day in *. zdiv.
Qed.

End ExpiredTestFacts.
Import ExpiredTestFacts.

(** * From a page to the export *)

Module FieldFacts.

Lemma lstrip_suffix (s : str) :
  exists pre, s = pre ++ lstrip s /\ Forall (fun c => isspace c = true) pre.
Proof.
  induction s as [|c s (pre & E & Hpre)]; cbn [lstrip].
  - now exists [].
  - destruct (isspace c) eqn:Ec.
    + exists (c :: pre). split; [cbn; now rewrite <- E|now constructor].
    + now exists [].
Qed.

Lemma lstrip_idem (s : str) : lstrip (lstrip s) = lstrip s.
Proof.
  destruct (lstrip_head s) as [->|(c & t & -> & Hc)]; [reflexivity|].
  cbn [lstrip]. now rewrite Hc.
Qed.

Lemma rstrip_prefix (s : str) :
  exists post, s = rstrip s ++ post /\ Forall (fun c => isspace c = true) post.
Proof.
  unfold rstrip. destruct (lstrip_suffix (rev s)) as (pre & E & Hpre).
  exists (rev pre). split.
  - rewrite <- rev_app_distr, <- E. now rewrite rev_involutive.
  - now apply Forall_rev.
Qed.

Lemma rstrip_idem (s : str) : rstrip (rstrip s) = rstrip s.
Proof. unfold rstrip. now rewrite rev_involutive, lstrip_idem. Qed.

Lemma lstrip_fixed (s : str) :
  match s with [] => True | c :: _ => isspace c = false end -> lstrip s = s.
Proof. destruct s as [|c s]; [reflexivity|]. cbn [lstrip]. now intros ->. Qed.

Lemma strip_idem (s : str) : strip (strip s) = strip s.
Proof.
  unfold strip at 1. replace (lstrip (strip s)) with (strip s); [apply rstrip_idem|].
  symmetry. apply lstrip_fixed. unfold strip.
  destruct (rstrip_prefix (lstrip s)) as (post & E & _).
  destruct (rstrip (lstrip s)) as [|c u]; [exact I|].
  destruct (lstrip_head s) as [E0|(c' & t & E0 & Hc)]; rewrite E0 in E.
  - discriminate.
  - cbn in E. now injection E as -> _.
Qed.

Lemma strip_in (s : str) (c : ascii) : In c (strip s) -> In c s.
Proof.
  unfold strip. intros H.
  destruct (rstrip_prefix (lstrip s)) as (post & E & _).
  destruct (lstrip_suffix s) as (pre & E' & _).
  rewrite E', E. apply in_or_app. right. apply in_or_app. now left.
Qed.

Lemma split_pieces (sep : ascii) (s : str) :
  forall piece, In piece (split sep s) -> ~ In sep piece /\ (forall c, In c piece -> In c s).
Proof.
  induction s as [|c s IH]; cbn [split]; intros piece Hin.
  - destruct Hin as [<-|[]]. split; [intros []|intros ? []].
  - destruct (Ascii.eqb_spec c sep) as [->|Hne].
    + destruct Hin as [<-|Hin]; [split; [intros []|intros ? []]|].
      destruct (IH piece Hin) as [H1 H2]. split; [exact H1|]. intros c Hc. right. auto.
    + pose proof (@split_not_nil sep s) as Hnn.
      destruct (split sep s) as [|p ps]; [congruence|].
      destruct Hin as [<-|Hin].
      * destruct (IH p (or_introl eq_refl)) as [H1 H2]. split.
        -- intros [E|Hc]; [now apply Hne|now apply H1].
        -- intros c' [<-|Hc]; [now left|right; auto].
      * destruct (IH piece (or_intror Hin)) as [H1 H2]. split; [exact H1|].
        intros c' Hc. right. auto.
Qed.

Lemma index_in (A : Type) (xs : list A) (i : nat) (x : A) :
  index xs i = Returned x -> In x xs.
Proof.
  unfold index. destruct (nth_error xs i) eqn:E; [|discriminate].
  intros [= <-]. now apply nth_error_In in E.
Qed.

(** A stripped line of the text: not empty, stripped, on one line. *)
Lemma stripped_lines_line (raw_text l : str) :
  In l (stripped_lines raw_text) -> l <> [] /\ stripped l /\ ~ In newline l.
Proof.
  intros H. apply stripped_lines_spec in H as (line & Hin & -> & Hne).
  split; [exact Hne|]. split; [apply strip_idem|].
  intros Hc. apply strip_in in Hc. now apply (@split_pieces _ _ _ Hin).
Qed.

(** What [parse_course_info] returns for a text of 50 characters or more. *)
Lemma parse_course_info_returned (raw_text : str) (c : course) :
  50 <= length raw_text -> parse_course_info raw_text = Returned c ->
  exists l0 l1 l2 l3 rest st loc dt,
    stripped_lines raw_text = l0 :: l1 :: l2 :: l3 :: rest /\
    index (split colon l2) 1 = Returned st /\
    index (split hyphen l3) 0 = Returned loc /\
    index (split hyphen l3) 1 = Returned dt /\
    c = {| title := l0; description := l1; status := strip st;
           location := strip loc; date := strip dt;
           bookable := nth 5 (stripped_lines raw_text) [] |}.
Proof.
  intros Hlen H.
  destruct (well_shaped_dec (stripped_lines raw_text))
    as [(l0 & l1 & l2 & l3 & rest & Hlines & Hc & Hh)|Hn];
    [|rewrite (@parse_course_info_ill_shaped raw_text Hlen Hn) in H; discriminate].
  apply split_second in Hc as [st Hst]. pose proof Hh as Hh'.
  apply split_second in Hh as [dt Hdt].
  destruct (split_first hyphen l3) as [loc Hloc].
  rewrite (@parse_course_info_long raw_text l0 l1 l2 l3 st loc dt rest Hlen Hlines Hst Hloc Hdt)
    in H. injection H as <-.
  now exists l0, l1, l2, l3, rest, st, loc, dt.
Qed.

Lemma parse_course_info_parsed_fields (raw_text : str) (c : course) :
  50 <= length raw_text -> parse_course_info raw_text = Returned c -> parsed_fields c.
Proof.
  intros Hlen H.
  destruct (@parse_course_info_returned raw_text c Hlen H)
    as (l0 & l1 & l2 & l3 & rest & st & loc & dt & Hlines & Hst & Hloc & Hdt & ->).
  assert (Hl : forall l, In l (stripped_lines raw_text) ->
                         l <> [] /\ stripped l /\ ~ In newline l)
    by (intros l Hin; exact (@stripped_lines_line raw_text l Hin)).
  destruct (Hl l0) as (A0 & B0 & C0); [rewrite Hlines; now left|].
  destruct (Hl l1) as (A1 & B1 & C1); [rewrite Hlines; right; now left|].
  destruct (Hl l2) as (A2 & B2 & C2); [rewrite Hlines; right; right; now left|].
  destruct (Hl l3) as (A3 & B3 & C3); [rewrite Hlines; right; right; right; now left|].
  apply index_in in Hst, Hloc, Hdt.
  destruct (@split_pieces _ _ _ Hst) as [Hst1 Hst2].
  destruct (@split_pieces _ _ _ Hloc) as [Hloc1 Hloc2].
  destruct (@split_pieces _ _ _ Hdt) as [Hdt1 Hdt2].
  assert (Hb : stripped (nth 5 (stripped_lines raw_text) []) /\
               ~ In newline (nth 5 (stripped_lines raw_text) [])).
  { destruct (nth_in_or_default 5 (stripped_lines raw_text) []) as [Hin| ->].
    - now destruct (Hl _ Hin) as (_ & ? & ?).
    - split; [reflexivity|intros []]. }
  unfold parsed_fields, stripped. cbn [title description status location date bookable].
  repeat split; try assumption; try apply strip_idem; try tauto;
    intros Hc; apply strip_in in Hc; auto.
Qed.

Lemma empty_course_title (raw_text : str) (c : course) :
  parse_course_info raw_text = Returned c ->
  (length raw_text < 50 -> c = empty_course) /\
  (50 <= length raw_text -> title c <> []).
Proof.
  intros H. split; intros Hlen.
  - rewrite (@parse_course_info_guard raw_text Hlen) in H. now injection H.
  - now apply (@parse_course_info_parsed_fields raw_text c Hlen H).
Qed.

(** The text after the last separator. *)
Lemma last_sep_unique (sep : ascii) (a b a' b' : str) :
  ~ In sep b -> ~ In sep b' -> a ++ sep :: b = a' ++ sep :: b' -> a = a' /\ b = b'.
Proof.
  revert a'. induction a as [|x a IH]; intros [|x' a'] Hb Hb' E; cbn [app] in E.
  - injection E as <-. now split.
  - injection E as <- ->. exfalso. apply Hb. apply in_or_app. right. now left.
  - injection E as -> <-. exfalso. apply Hb'. apply in_or_app. right. now left.
  - injection E as <- E. destruct (IH a' Hb Hb' E) as [-> ->]. now split.
Qed.

Lemma identifier_injective (c1 c2 : course) :
  ~ In hyphen (date c1) -> ~ In hyphen (location c1) ->
  ~ In hyphen (date c2) -> ~ In hyphen (location c2) ->
  identifier c1 = identifier c2 ->
  title c1 = title c2 /\ date c1 = date c2 /\ location c1 = location c2.
Proof.
  intros D1 L1 D2 L2 E. unfold identifier in E.
  change (py "-") with [hyphen] in E. cbn [app] in E.
  change (title c1 ++ hyphen :: date c1 ++ hyphen :: location c1)
    with (title c1 ++ (hyphen :: date c1) ++ hyphen :: location c1) in E.
  change (title c2 ++ hyphen :: date c2 ++ hyphen :: location c2)
    with (title c2 ++ (hyphen :: date c2) ++ hyphen :: location c2) in E.
  rewrite !app_assoc in E.
  apply last_sep_unique in E as [E ->]; [|assumption|assumption].
  apply last_sep_unique in E as [-> ->]; [|assumption|assumption].
  now repeat split.
Qed.

Lemma identifier_parsed (text1 text2 : str) (c1 c2 : course) :
  parse_course_info text1 = Returned c1 ->
  parse_course_info text2 = Returned c2 ->
  (identifier c1 = identifier c2 <->
   title c1 = title c2 /\ date c1 = date c2 /\ location c1 = location c2).
Proof.
  intros H1 H2.
  assert (Hh : forall text c, parse_course_info text = Returned c ->
                              ~ In hyphen (date c) /\ ~ In hyphen (location c)).
  { intros text c H. destruct (Nat.lt_ge_cases (length text) 50) as [Hlen|Hlen].
    - rewrite (proj1 (@empty_course_title text c H) Hlen). split; intros [].
    - pose proof (@parse_course_info_parsed_fields text c Hlen H) as P.
      unfold parsed_fields in P. tauto. }
  destruct (Hh _ _ H1) as [D1 L1]. destruct (Hh _ _ H2) as [D2 L2]. split.
  - now apply identifier_injective.
  - intros (Et & Ed & El). unfold identifier. now rewrite Et, Ed, El.
Qed.

End FieldFacts.
Import FieldFacts.

Module ExportFacts.

Lemma seen_has_cons (seen : list str) (id id' : str) :
  seen_has (id' :: seen) id = str_eqb id id' || seen_has seen id.
Proof. reflexivity. Qed.

Lemma dedup_seen (courses : list course) :
  forall unique seen id,
    seen_has (snd (fold_left dedup_step courses (unique, seen))) id =
    seen_has seen id || existsb (fun c' => str_eqb id (identifier c')) courses.
Proof.
  induction courses as [|c cs IH]; intros unique seen id; cbn [fold_left existsb].
  - now rewrite orb_false_r.
  - unfold dedup_step at 2. destruct (seen_has seen (identifier c)) eqn:E.
    + rewrite IH. destruct (str_eqb id (identifier c)) eqn:Ei; [|reflexivity].
      apply str_eqb_eq in Ei. subst id. now rewrite E.
    + rewrite IH, seen_has_cons. now rewrite orb_assoc, (orb_comm (str_eqb _ _)).
Qed.

Lemma fold_dedup_snoc (courses : list course) (c : course) (state : list course * list str) :
  fold_left dedup_step (courses ++ [c]) state =
  dedup_step (fold_left dedup_step courses state) c.
Proof. now rewrite fold_left_app. Qed.

Lemma unique_courses_snoc (courses : list course) (c : course) :
  unique_courses (courses ++ [c]) =
  if same_identifier_in courses c then unique_courses courses
  else unique_courses courses ++ [c].
Proof.
  unfold unique_courses. rewrite fold_dedup_snoc.
  pose proof (dedup_seen courses [] [] (identifier c)) as Hs. cbn [seen_has existsb orb] in Hs.
  fold (same_identifier_in courses c) in Hs.
  destruct (fold_left dedup_step courses ([], [])) as [u seen]. cbn [snd] in Hs.
  unfold dedup_step. rewrite Hs. now destruct (same_identifier_in courses c).
Qed.

Lemma same_identifier_in_spec (courses : list course) (c : course) :
  same_identifier_in courses c = true <-> In (identifier c) (map identifier courses).
Proof.
  unfold same_identifier_in. rewrite existsb_exists, in_map_iff. split.
  - intros (c' & Hin & E). apply str_eqb_eq in E. now exists c'.
  - intros (c' & E & Hin). exists c'. split; [exact Hin|]. now apply str_eqb_eq.
Qed.

Lemma unique_courses_nil : unique_courses [] = [].
Proof. reflexivity. Qed.

Lemma unique_courses_identifiers (courses : list course) (id : str) :
  In id (map identifier (unique_courses courses)) <-> In id (map identifier courses).
Proof.
  induction courses as [|c cs IH] using rev_ind; [reflexivity|].
  rewrite unique_courses_snoc, map_app, in_app_iff. cbn [map In].
  destruct (same_identifier_in cs c) eqn:E.
  - apply same_identifier_in_spec in E. rewrite IH. split; [tauto|].
    intros [H|[<-|[]]]; assumption.
  - rewrite map_app, in_app_iff, IH. reflexivity.
Qed.

Lemma unique_courses_nodup (courses : list course) :
  NoDup (map identifier (unique_courses courses)).
Proof.
  induction courses as [|c cs IH] using rev_ind; [constructor|].
  rewrite unique_courses_snoc. destruct (same_identifier_in cs c) eqn:E; [exact IH|].
  rewrite map_app. apply NoDup_app; [exact IH|constructor; [intros []|constructor]|].
  intros id Hid [<-|[]]. apply (proj1 (unique_courses_identifiers cs _)) in Hid.
  apply (proj2 (same_identifier_in_spec cs c)) in Hid. congruence.
Qed.

Lemma unique_courses_fixed (courses : list course) :
  NoDup (map identifier courses) -> unique_courses courses = courses.
Proof.
  induction courses as [|c cs IH] using rev_ind; intros Hnd; [reflexivity|].
  rewrite map_app in Hnd. cbn [map] in Hnd.
  apply NoDup_remove in Hnd as [Hnd Hnot]. rewrite app_nil_r in Hnd, Hnot.
  rewrite unique_courses_snoc. destruct (same_identifier_in cs c) eqn:E.
  - apply same_identifier_in_spec in E. contradiction.
  - now rewrite IH.
Qed.

Lemma unique_courses_in (courses : list course) (c : course) :
  In c (unique_courses courses) -> In c courses.
Proof.
  induction courses as [|c0 cs IH] using rev_ind; [intros []|].
  rewrite unique_courses_snoc, in_app_iff.
  destruct (same_identifier_in cs c0); [now left; apply IH|].
  rewrite in_app_iff. intros [H|H]; [left; now apply IH|now right].
Qed.

Lemma clean_ascii (s : str) : ascii_only (clean s).
Proof.
  unfold ascii_only, clean. rewrite Forall_forall. intros ch Hin.
  apply strip_in, filter_In in Hin as [_ H]. now apply N.ltb_lt in H.
Qed.

Lemma clean_stripped (s : str) : stripped (clean s).
Proof. apply strip_idem. Qed.

Lemma clean_ascii_text (s : str) : ascii_only s -> clean s = strip s.
Proof.
  unfold ascii_only, clean. intros H. f_equal.
  induction H as [|ch s Hch _ IH]; [reflexivity|]. cbn [filter].
  apply N.ltb_lt in Hch. now rewrite Hch, IH.
Qed.

Lemma keep_parsed (text : str) (c : course) (courses : list course) :
  stripped text -> parse_course_info text = Returned c ->
  Forall parsed_from_page courses -> Forall parsed_from_page (keep c courses).
Proof.
  intros Hs Hp Hall. unfold keep. destruct (is_empty (title c)) eqn:E; [exact Hall|].
  apply Forall_app. split; [exact Hall|]. constructor; [|constructor].
  destruct (Nat.lt_ge_cases (length text) 50) as [Hlen|Hlen].
  - rewrite (proj1 (@empty_course_title text c Hp) Hlen) in E. discriminate.
  - exists text. split; [exact Hs|]. split; [exact Hlen|]. split; [exact Hp|].
    exact (@parse_course_info_parsed_fields text c Hlen Hp).
Qed.

Lemma parse_and_keep_parsed (text : str) (courses courses' : list course) :
  stripped text -> parse_and_keep text courses = Some courses' ->
  Forall parsed_from_page courses -> Forall parsed_from_page courses'.
Proof.
  intros Hs. unfold parse_and_keep.
  destruct (parse_course_info text) as [c|e] eqn:E; [|discriminate].
  intros [= <-]. now apply (@keep_parsed text c).
Qed.

Lemma try_loop_invariant (A : Type) (P : list course -> Prop)
  (body : list course -> A -> option (list course)) (xs : list A) :
  (forall courses x courses', body courses x = Some courses' -> P courses -> P courses') ->
  forall courses, P courses -> P (try_loop body xs courses).
Proof.
  intros Hb. induction xs as [|x xs IH]; intros courses Hp; cbn [try_loop]; [exact Hp|].
  destruct (body courses x) as [courses'|] eqn:E; [|exact Hp].
  apply IH. now apply (Hb courses x).
Qed.

Lemma structured_body_parsed (courses : list course) (element : dom str)
  (courses' : list course) :
  structured_body courses element = Some courses' ->
  Forall parsed_from_page courses -> Forall parsed_from_page courses'.
Proof.
  unfold structured_body. destruct element as [t|]; [|discriminate].
  destruct (looks_like_course (strip t)).
  - apply parse_and_keep_parsed, strip_idem.
  - now intros [= <-].
Qed.

Lemma broader_body_parsed (courses : list course) (element : probe)
  (courses' : list course) :
  broader_body courses element = Some courses' ->
  Forall parsed_from_page courses -> Forall parsed_from_page courses'.
Proof.
  unfold broader_body. destruct (is_displayed element) as [[|]|]; [| |discriminate].
  - destruct (text element); [|discriminate].
    destruct (parent_text element) as [t|]; [|discriminate].
    destruct (_ && _).
    + apply parse_and_keep_parsed, strip_idem.
    + now intros [= <-].
  - now intros [= <-].
Qed.

Lemma pattern_body_parsed (courses : list course) (element : probe)
  (courses' : list course) :
  pattern_body courses element = Some courses' ->
  Forall parsed_from_page courses -> Forall parsed_from_page courses'.
Proof.
  unfold pattern_body. destruct (is_displayed element) as [[|]|]; [| |discriminate].
  - destruct (parent_text element) as [t|]; [|discriminate].
    apply parse_and_keep_parsed, strip_idem.
  - now intros [= <-].
Qed.

Lemma fold_left_invariant (A B : Type) (P : A -> Prop) (f : A -> B -> A) (xs : list B) :
  (forall a x, P a -> P (f a x)) -> forall a, P a -> P (fold_left f xs a).
Proof.
  intros Hf. induction xs as [|x xs IH]; intros a Hp; cbn [fold_left]; [exact Hp|].
  apply IH, Hf, Hp.
Qed.

Lemma structured_search_parsed (p : page) : Forall parsed_from_page (structured_search p).
Proof.
  unfold structured_search. apply fold_left_invariant; [|constructor].
  intros courses selector Hp. destruct (find_elements_css p selector); [|exact Hp].
  apply try_loop_invariant; [apply structured_body_parsed|exact Hp].
Qed.

Lemma search_if_empty_parsed (found : dom (list probe))
  (body : list course -> probe -> option (list course)) (courses : list course) :
  (forall cs x cs', body cs x = Some cs' ->
                    Forall parsed_from_page cs -> Forall parsed_from_page cs') ->
  Forall parsed_from_page courses ->
  Forall parsed_from_page (search_if_empty found body courses).
Proof.
  intros Hb Hp. unfold search_if_empty. destruct courses; [|exact Hp].
  destruct found; [|exact Hp]. now apply try_loop_invariant.
Qed.

Lemma extract_courses_parsed (p : page) :
  Forall parsed_from_page (extract_courses_from_page p).
Proof.
  unfold extract_courses_from_page.
  apply search_if_empty_parsed; [apply pattern_body_parsed|].
  apply search_if_empty_parsed; [apply broader_body_parsed|].
  apply structured_search_parsed.
Qed.

Lemma try_loop_stops (A : Type) (body : list course -> A -> option (list course))
  (before : list A) (x : A) (after : list A) :
  (forall courses, body courses x = None) ->
  forall courses,
    try_loop body (before ++ x :: after) courses = try_loop body before courses.
Proof.
  intros Hx. induction before as [|y before IH]; intros courses; cbn [app try_loop].
  - now rewrite Hx.
  - destruct (body courses y); [apply IH|reflexivity].
Qed.

Lemma looks_like_course_long (text : str) :
  looks_like_course text = true -> 100 < length text.
Proof. unfold looks_like_course. intros H. apply andb_true_iff in H as [H _]. now apply Nat.ltb_lt. Qed.

End ExportFacts.
Import ExportFacts.

(** ** The renewal checker *)

Local Open Scope Z_scope.



(** C4.  The test [today <= expiry_date <= three_months_from_now]
    compares instants: [today] is [datetime.now()] with its time of day,
    [three_months_from_now] is 90 days later at the same time, and every
    expiry the loops compute is a midnight.  So a row is listed in
    [all_renewals] exactly when the day of its expiry is from today's
    day to the day 90 days ahead, today's day itself counting only when
    the script runs at midnight sharp.  The upper end is inclusive; past
    midnight an expiry on today's date is not in the window.  ['Days
    Until'] is the number of days ahead, less one past midnight. *)
Theorem renewal_window_in_days (today three_months_from_now : datetime) :
  wf today ->
  add_days today 90 = Returned three_months_from_now ->
  (forall (row : vetting_row) (vetting_date expiry : datetime),
     parse_vetting_date (v_latest_vetting_completion_date row)
     = Returned (Some vetting_date) ->
     add_days vetting_date validity_days = Returned expiry ->
     time_of_day expiry = 0 /\
     (in_window today three_months_from_now expiry = true <->
      to_us today <= to_us expiry <= to_us today + 90 * us_per_day) /\
     (in_window today three_months_from_now expiry = true <->
      toordinal today + past_midnight today <= toordinal expiry <= toordinal today + 90) /\
     (forall all_renewals,
        renew_vetting today three_months_from_now all_renewals row =
        Returned (if (toordinal today + past_midnight today <=? toordinal expiry) &&
                     (toordinal expiry <=? toordinal today + 90)
                  then set_vetting all_renewals (vetting_name row) (v_email row)
                         {| last_completed := vetting_date; expiry_date := expiry;
                            days_until :=
                              toordinal expiry - toordinal today - past_midnight today |}
                  else all_renewals)) /\
     (toordinal today + past_midnight today <= toordinal expiry <= toordinal today + 90 ->
      forall all_renewals,
      exists d,
        renew_vetting today three_months_from_now all_renewals row = Returned d /\
        listed_vetting d (vetting_name row)
          {| last_completed := vetting_date; expiry_date := expiry;
             days_until := toordinal expiry - toordinal today - past_midnight today |})) /\
  (forall (row : training_row) (dates : list datetime) (latest_date expiry : datetime),
     safeguarding_dates row = Returned dates ->
     py_max dates = Returned latest_date ->
     add_days latest_date validity_days = Returned expiry ->
     time_of_day expiry = 0 /\
     (in_window today three_months_from_now expiry = true <->
      to_us today <= to_us expiry <= to_us today + 90 * us_per_day) /\
     (in_window today three_months_from_now expiry = true <->
      toordinal today + past_midnight today <= toordinal expiry <= toordinal today + 90) /\
     (forall all_renewals,
        renew_safeguarding today three_months_from_now all_renewals row =
        Returned (if (toordinal today + past_midnight today <=? toordinal expiry) &&
                     (toordinal expiry <=? toordinal today + 90)
                  then set_safeguarding all_renewals (training_name row) (t_email row)
                         {| last_completed := latest_date; expiry_date := expiry;
                            days_until :=
                              toordinal expiry - toordinal today - past_midnight today |}
                  else all_renewals)) /\
     (toordinal today + past_midnight today <= toordinal expiry <= toordinal today + 90 ->
      forall all_renewals,
      exists d,
        renew_safeguarding today three_months_from_now all_renewals row = Returned d /\
        listed_safeguarding d (training_name row)
          {| last_completed := latest_date; expiry_date := expiry;
             days_until := toordinal expiry - toordinal today - past_midnight today |})).
Proof.
  intros Wt Ha.
  assert (Hcommon : forall completion expiry,
            dated completion -> add_days completion validity_days = Returned expiry ->
            time_of_day expiry = 0 /\
            (in_window today three_months_from_now expiry = true <->
             to_us today <= to_us expiry <= to_us today + 90 * us_per_day) /\
            (in_window today three_months_from_now expiry = true <->
             toordinal today + past_midnight today <= toordinal expiry
             <= toordinal today + 90)).
  { intros completion expiry Hd He.
    destruct (dated_midnight Hd) as [Wc Tc].
    destruct (@add_days_returned _ _ _ Wc He) as (We & _ & Te).
    split; [congruence|]. split; [now apply in_window_to_us|].
    now destruct (window_in_days Wt Ha Hd He) as (_ & H & _). }
  split.
  - intros row vetting_date expiry Hp He.
    pose proof (vetting_date_dated _ Hp) as Hd.
    destruct (Hcommon _ _ Hd He) as (T & Hus & Hdays).
    destruct (tests_in_days Wt Ha Hd He) as (Ew & _ & Hsub & _).
    assert (Hbody : forall all_renewals,
              renew_vetting today three_months_from_now all_renewals row =
              Returned (if (toordinal today + past_midnight today <=? toordinal expiry) &&
                           (toordinal expiry <=? toordinal today + 90)
                        then set_vetting all_renewals (vetting_name row) (v_email row)
                               {| last_completed := vetting_date; expiry_date := expiry;
                                  days_until :=
                                    toordinal expiry - toordinal today
                                    - past_midnight today |}
                        else all_renewals)).
    { intros d.
      rewrite (proj1 (vetting_bodies today three_months_from_now _ Hp He) d).
      rewrite <- Ew. destruct (in_window today three_months_from_now expiry) eqn:E;
        [now rewrite (Hsub eq_refl)|reflexivity]. }
    repeat (split; [assumption|]).
    intros Hin d. rewrite Hbody.
    replace ((toordinal today + past_midnight today <=? toordinal expiry) &&
             (toordinal expiry <=? toordinal today + 90)) with true
      by (symmetry; apply andb_true_iff; rewrite !Z.leb_le; exact Hin).
    eexists. split; [reflexivity|apply set_vetting_listed].
  - intros row dates latest_date expiry Hds Hm He.
    pose proof (latest_date_dated _ Hds Hm) as Hd.
    destruct (Hcommon _ _ Hd He) as (T & Hus & Hdays).
    destruct (tests_in_days Wt Ha Hd He) as (Ew & _ & Hsub & _).
    assert (Hbody : forall all_renewals,
              renew_safeguarding today three_months_from_now all_renewals row =
              Returned (if (toordinal today + past_midnight today <=? toordinal expiry) &&
                           (toordinal expiry <=? toordinal today + 90)
                        then set_safeguarding all_renewals (training_name row)
                               (t_email row)
                               {| last_completed := latest_date; expiry_date := expiry;
                                  days_until :=
                                    toordinal expiry - toordinal today
                                    - past_midnight today |}
                        else all_renewals)).
    { intros d.
      rewrite (proj1 (training_bodies today three_months_from_now _ Hds Hm He) d).
      rewrite <- Ew. destruct (in_window today three_months_from_now expiry) eqn:E;
        [now rewrite (Hsub eq_refl)|reflexivity]. }
    repeat (split; [assumption|]).
    intros Hin d. rewrite Hbody.
    replace ((toordinal today + past_midnight today <=? toordinal expiry) &&
             (toordinal expiry <=? toordinal today + 90)) with true
      by (symmetry; apply andb_true_iff; rewrite !Z.leb_le; exact Hin).
    eexists. split; [reflexivity|apply set_safeguarding_listed].
Qed.

Lemma renewal_window_in_days_witness :
  in_window Sample.today Sample.three_months_from_now (mkdatetime 2027 2 1 0 0 0 0) = true /\
  renew_vetting Sample.today Sample.three_months_from_now [] Sample.expires_in_90_days =
  Returned [(py "Fiona Grant",
             {| r_email := py "fiona@example.org"; r_safeguarding := None;
                r_vetting :=
                  Some {| last_completed := mkdatetime 2024 2 2 0 0 0 0;
                          expiry_date := mkdatetime 2027 2 1 0 0 0 0;
                          days_until := 89 |} |})].
Proof.
  assert (W : wf Sample.today) by (unfold wf; cbn; repeat split; (reflexivity || lia)).
  destruct (proj1 (@renewal_window_in_days Sample.today Sample.three_months_from_now W
                     ltac:(vm_compute; reflexivity))
              Sample.expires_in_90_days (mkdatetime 2024 2 2 0 0 0 0)
              (mkdatetime 2027 2 1 0 0 0 0)
              ltac:(vm_compute; reflexivity) ltac:(vm_compute; reflexivity))
    as (_ & _ & Hdays & Hbody & _).
  split.
  - apply Hdays. vm_compute. split; discriminate.
  - rewrite Hbody. vm_compute. reflexivity.
Defined.

(** C4, as the claim states it, fails at its lower end.  The script runs
    on 3 November 2026 at 14:30; a vetting of 4 November 2023 expires on
    3 November 2026, today's date; the row is not in the window and is
    not listed: the script reports it as expired. *)
Lemma expiry_on_todays_date_is_not_due :
  add_days Sample.today 90 = Returned Sample.three_months_from_now /\
  parse_vetting_date (v_latest_vetting_completion_date Sample.expires_today)
  = Returned (Some (mkdatetime 2023 11 4 0 0 0 0)) /\
  add_days (mkdatetime 2023 11 4 0 0 0 0) validity_days
  = Returned (mkdatetime 2026 11 3 0 0 0 0) /\
  (year Sample.today, month Sample.today, day Sample.today) = (2026, 11, 3) /\
  in_window Sample.today Sample.three_months_from_now (mkdatetime 2026 11 3 0 0 0 0)
  = false /\
  renew_vetting Sample.today Sample.three_months_from_now [] Sample.expires_today
  = Returned [] /\
  check_all_renewals Sample.today [] [Sample.expires_today] =
  Returned ([],
            [{| x_name := py "Gary Hayes"; x_email := py "gary@example.org";
                x_type := VettingReq;
                x_last_completed := mkdatetime 2023 11 4 0 0 0 0;
                x_expiry_date := mkdatetime 2026 11 3 0 0 0 0;
                x_days_expired := 0 |}]).
Proof. repeat split; vm_compute; reflexivity. Qed.

(** C5.  The test [expiry_date < today] compares instants too.  So a row
    adds an item to [expired_items] exactly when the day of its expiry is
    before today's day, or is today's day and the script runs past
    midnight: an expiry on today's date is then expired, with ['Days
    Expired'] 0.  ['Days Expired'] is the number of days since the day of
    the expiry. *)
Theorem expired_in_days (today : datetime) :
  wf today ->
  (forall (row : vetting_row) (vetting_date expiry : datetime),
     parse_vetting_date (v_latest_vetting_completion_date row)
     = Returned (Some vetting_date) ->
     add_days vetting_date validity_days = Returned expiry ->
     time_of_day expiry = 0 /\
     (lt expiry today = true <-> to_us expiry < to_us today) /\
     (lt expiry today = true <->
      toordinal expiry < toordinal today + past_midnight today) /\
     (forall expired_items,
        expired_vetting today expired_items row =
        Returned (if toordinal expiry <? toordinal today + past_midnight today
                  then expired_items ++
                       [{| x_name := vetting_name row; x_email := v_email row;
                           x_type := VettingReq; x_last_completed := vetting_date;
                           x_expiry_date := expiry;
                           x_days_expired := toordinal today - toordinal expiry |}]
                  else expired_items))) /\
  (forall (row : training_row) (dates : list datetime) (latest_date expiry : datetime),
     safeguarding_dates row = Returned dates ->
     py_max dates = Returned latest_date ->
     add_days latest_date validity_days = Returned expiry ->
     time_of_day expiry = 0 /\
     (lt expiry today = true <-> to_us expiry < to_us today) /\
     (lt expiry today = true <->
      toordinal expiry < toordinal today + past_midnight today) /\
     (forall expired_items,
        expired_safeguarding today expired_items row =
        Returned (if toordinal expiry <? toordinal today + past_midnight today
                  then expired_items ++
                       [{| x_name := training_name row; x_email := t_email row;
                           x_type := SafeguardingReq; x_last_completed := latest_date;
                           x_expiry_date := expiry;
                           x_days_expired := toordinal today - toordinal expiry |}]
                  else expired_items))).
Proof.
  intros Wt. split.
  - intros row vetting_date expiry Hp He.
    pose proof (vetting_date_dated _ Hp) as Hd.
    destruct (lt_in_days Wt Hd He) as (T & Hus & Hdays & El & Hsub).
    repeat (split; [assumption|]).
    intros xs. rewrite (proj2 (vetting_bodies today today _ Hp He) xs).
    rewrite <- El. destruct (lt expiry today) eqn:E;
      [now rewrite (Hsub eq_refl)|reflexivity].
  - intros row dates latest_date expiry Hds Hm He.
    pose proof (latest_date_dated _ Hds Hm) as Hd.
    destruct (lt_in_days Wt Hd He) as (T & Hus & Hdays & El & Hsub).
    repeat (split; [assumption|]).
    intros xs. rewrite (proj2 (training_bodies today today _ Hds Hm He) xs).
    rewrite <- El. destruct (lt expiry today) eqn:E;
      [now rewrite (Hsub eq_refl)|reflexivity].
Qed.

Lemma expired_in_days_witness :
  lt (mkdatetime 2026 11 2 0 0 0 0) Sample.today = true /\
  expired_vetting Sample.today []
    (Sample.vetting_of (py "Helen") (py "Irwin") (py "helen@example.org")
       (Text (py "03/11/2023"))) =
  Returned [{| x_name := py "Helen Irwin"; x_email := py "helen@example.org";
               x_type := VettingReq;
               x_last_completed := mkdatetime 2023 11 3 0 0 0 0;
               x_expiry_date := mkdatetime 2026 11 2 0 0 0 0;
               x_days_expired := 1 |}].
Proof.
  assert (W : wf Sample.today) by (unfold wf; cbn; repeat split; (reflexivity || lia)).
  destruct (proj1 (@expired_in_days Sample.today W)
              (Sample.vetting_of (py "Helen") (py "Irwin") (py "helen@example.org")
                 (Text (py "03/11/2023")))
              (mkdatetime 2023 11 3 0 0 0 0) (mkdatetime 2026 11 2 0 0 0 0)
              ltac:(vm_compute; reflexivity) ltac:(vm_compute; reflexivity))
    as (_ & _ & Hdays & Hbody).
  split.
  - apply Hdays. vm_compute. reflexivity.
  - rewrite Hbody. vm_compute. reflexivity.
Defined.

(** C5, as the claim states it, fails: an expiry date equal to today's is
    expired.  The script runs on 3 November 2026 at 14:30; the latest
    safeguarding date of the row is 4 November 2023 and expires on
    3 November 2026, today's date; the row adds an item, 0 days
    expired. *)
Lemma expiry_on_todays_date_is_expired :
  safeguarding_dates Sample.training_expires_today
  = Returned [mkdatetime 2023 11 4 0 0 0 0] /\
  add_days (mkdatetime 2023 11 4 0 0 0 0) validity_days
  = Returned (mkdatetime 2026 11 3 0 0 0 0) /\
  (year Sample.today, month Sample.today, day Sample.today) = (2026, 11, 3) /\
  lt (mkdatetime 2026 11 3 0 0 0 0) Sample.today = true /\
  expired_safeguarding Sample.today [] Sample.training_expires_today =
  Returned [{| x_name := py "Gary Hayes"; x_email := py "gary@example.org";
               x_type := SafeguardingReq;
               x_last_completed := mkdatetime 2023 11 4 0 0 0 0;
               x_expiry_date := mkdatetime 2026 11 3 0 0 0 0;
               x_days_expired := 0 |}].
Proof. repeat split; vm_compute; reflexivity. Qed.


(** C9.  For a training row whose columns 5 to 25 all yield an outcome,
    the dates kept are those outcomes that are dates, in column order.
    When there is none, the row leaves both [all_renewals] and
    [expired_items] as they were.  Otherwise the completion date both
    loops use is the one greatest date among them: what either loop does
    with the row is fixed by that date alone. *)
Theorem latest_safeguarding_date (row : training_row) (outs : list (option datetime)) :
  Forall2 (fun c o => extract_safeguarding_date c = Returned o)
          (firstn 21 (skipn 5 (t_cells row))) outs ->
  length outs = 21%nat ->
  safeguarding_dates row = Returned (somes outs) /\
  (somes outs = [] ->
   forall today three_months_from_now all_renewals expired_items,
     renew_safeguarding today three_months_from_now all_renewals row = Returned all_renewals /\
     expired_safeguarding today expired_items row = Returned expired_items) /\
  (somes outs <> [] ->
   exists latest_date,
     In latest_date (somes outs) /\
     (forall d, In d (somes outs) -> le d latest_date = true) /\
     (forall other, In other (somes outs) ->
        (forall d, In d (somes outs) -> le d other = true) -> other = latest_date) /\
     forall today three_months_from_now all_renewals expired_items,
       renew_safeguarding today three_months_from_now all_renewals row =
       (expiry <- add_days latest_date validity_days ;;
        Returned (if in_window today three_months_from_now expiry
                  then set_safeguarding all_renewals
                         (full_name (t_first_name row) (t_surname row)) (t_email row)
                         {| last_completed := latest_date; expiry_date := expiry;
                            days_until := sub_days expiry today |}
                  else all_renewals)) /\
       expired_safeguarding today expired_items row =
       (expiry <- add_days latest_date validity_days ;;
        Returned (if lt expiry today
                  then expired_items ++
                       [{| x_name := full_name (t_first_name row) (t_surname row);
                           x_email := t_email row; x_type := SafeguardingReq;
                           x_last_completed := latest_date; x_expiry_date := expiry;
                           x_days_expired := sub_days today expiry |}]
                  else expired_items))).
Proof.
  intros HF Hlen.
  assert (Hd : safeguarding_dates row = Returned (somes outs)).
  { unfold safeguarding_dates. now rewrite (@dates_loop row 21 5 [] outs HF Hlen). }
  split; [exact Hd|]. split.
  - intros Hnil today tmfn d xs. unfold renew_safeguarding, expired_safeguarding.
    rewrite Hd, Hnil. now split.
  - intros Hne. destruct (py_max_spec Hne) as (latest & Hmax & Hin & Hup & Huniq).
    exists latest. repeat split; try assumption.
    + unfold renew_safeguarding. rewrite Hd. cbn [bind].
      destruct (somes outs) as [|x l]; [congruence|]. rewrite Hmax. cbn [bind].
      destruct (add_days latest validity_days); cbn [bind]; [|reflexivity].
      now destruct (in_window today three_months_from_now a).
    + unfold expired_safeguarding. rewrite Hd. cbn [bind].
      destruct (somes outs) as [|x l]; [congruence|]. rewrite Hmax. cbn [bind].
      destruct (add_days latest validity_days); cbn [bind]; [|reflexivity].
      now destruct (lt a today).
Qed.

Lemma latest_safeguarding_date_witness :
  let row :=
    {| t_first_name := py "Aoife"; t_surname := py "Byrne";
       t_email := py "aoife@example.org";
       t_cells :=
         repeat NaN 5 ++
         [Text (py "Safeguarding Awareness from 12/03/2022 to 12/03/2022");
          Text (py "First Aid from 01/09/2024 to 02/09/2024");
          Text (py "This is Scouting - Being A Scouter 05/06/2023")] ++
         repeat NaN 18 |} in
  safeguarding_dates row
  = Returned [mkdatetime 2022 3 12 0 0 0 0; mkdatetime 2023 6 5 0 0 0 0].
Proof.
  intros row.
  refine (proj1 (@latest_safeguarding_date row
    ([Some (mkdatetime 2022 3 12 0 0 0 0); None; Some (mkdatetime 2023 6 5 0 0 0 0)]
     ++ repeat None 18) _ _)).
  - cbn [row t_cells repeat app skipn firstn].
    repeat (constructor; [vm_compute; reflexivity|]). constructor.
  - reflexivity.
Defined.

(** C1.  Both parsers raise on a string that has the shape of a date but
    names no calendar day: the digits reach [datetime(...)] unchecked and
    it raises [ValueError]. *)
Theorem date_parsers_raise_value_error :
  parse_vetting_date (Text (py "31/02/2024")) = Raised ValueError /\
  parse_vetting_date (Text (py "00/00/0000")) = Raised ValueError /\
  extract_safeguarding_date
    (Text (py "Safeguarding Awareness from 31/02/2024 to 01/03/2024")) = Raised ValueError /\
  extract_safeguarding_date
    (Text (py "Child Safeguarding, completed 12/13/2023")) = Raised ValueError.
Proof. repeat split; vm_compute; reflexivity. Qed.

Local Close Scope Z_scope.

(** C7.  A missing cell and a text that names no safeguarding course give
    [None].  For a text that names one, the result is
    [datetime(int(year), int(month), int(day))] on the fields of the first
    [from D/M/Y to] in the text when there is one; when there is none, on
    the fields of the last item the left-to-right scan for [D/M/Y] finds;
    and [None] when that scan finds nothing. *)
Theorem extract_safeguarding_date_selects (text : str) :
  extract_safeguarding_date NaN = Returned None /\
  (~ qualifying text -> extract_safeguarding_date (Text text) = Returned None) /\
  (qualifying text ->
   (forall pre w rest day month year,
      text = pre ++ w ++ rest ->
      from_to_text w day month year ->
      free_before true date_pattern text (length pre) ->
      extract_safeguarding_date (Text text) =
      (d <- datetime_new (int_of_digits year) (int_of_digits month) (int_of_digits day) ;;
       Returned (Some d))) /\
   (free_from true date_pattern text 0 ->
    (forall m ms,
       Scan false date_pattern_alt text 0 (m :: ms) ->
       exists day month year,
         last ms m = [day; month; year] /\
         extract_safeguarding_date (Text text) =
         (d <- datetime_new (int_of_digits year) (int_of_digits month) (int_of_digits day) ;;
          Returned (Some d))) /\
    (free_from false date_pattern_alt text 0 ->
     extract_safeguarding_date (Text text) = Returned None))).
Proof.
  split; [reflexivity|]. cbn [extract_safeguarding_date].
  destruct (is_safeguarding text || is_being_scouter text) eqn:Q; cbn [negb].
  - apply qualifying_spec in Q. split; [intros H; contradiction|]. intros _. split.
    + intros pre w rest day month year E Hshape Hfree.
      assert (Hocc : occurs true date_pattern text (length pre) w [day; month; year]).
      { apply occurs_date_pattern. now exists day, month, year, pre, rest. }
      now rewrite (@re_search_first true date_pattern text (length pre) w _
                     date_pattern_unambiguous Hocc Hfree).
    + intros Hnone. apply re_search_none in Hnone. rewrite Hnone. split.
      * intros m ms HS.
        pose proof (proj2 (@re_findall_scan false date_pattern_alt text (m :: ms)
                             date_pattern_alt_unambiguous) HS) as E.
        rewrite E.
        destruct (@Scan_items false date_pattern_alt text 0 (m :: ms) HS (last ms m)
                    (last_in ms m)) as (j & w & Hocc).
        destruct (@three_groups false date_pattern_alt text j w _ eq_refl Hocc)
          as (day & month & year & E3).
        exists day, month, year. split; [exact E3|]. now rewrite E3.
      * intros Hfree. apply re_findall_nil in Hfree. now rewrite Hfree.
  - split; [reflexivity|]. intros H. apply qualifying_spec in H. congruence.
Qed.

(** The cases of C7 on sample course texts: [from ... to] wins over a
    later date, the last date of the scan is taken otherwise, the scan
    does not look inside a match, and a text with no keyword or no date
    gives [None]. *)
Lemma extract_safeguarding_date_examples :
  extract_safeguarding_date
    (Text (py "Safeguarding Awareness FROM 5/1/2023 To 6/1/2023, issued 01/02/2023"))
  = Returned (Some (mkdatetime 2023 1 5 0 0 0 0)) /\
  extract_safeguarding_date (Text (py "Safe Guarding: 5/1/2023, renewed 7/2/2024"))
  = Returned (Some (mkdatetime 2024 2 7 0 0 0 0)) /\
  extract_safeguarding_date (Text (py "This is Scouting - Being A Scouter 11/12/2024/5/2025"))
  = Returned (Some (mkdatetime 2024 12 11 0 0 0 0)) /\
  extract_safeguarding_date (Text (py "First Aid from 5/1/2023 to 6/1/2023"))
  = Returned None /\
  extract_safeguarding_date (Text (py "Safeguarding Awareness (no date recorded)"))
  = Returned None.
Proof. repeat split; vm_compute; reflexivity. Qed.

(** C8.  For every valid calendar date, [parse_vetting_date] on the date
    written [dd/mm/yyyy] returns that date. *)
Theorem parse_vetting_date_roundtrip (y m d : Z) :
  valid_date y m d = true ->
  parse_vetting_date (Text (format_dmY y m d)) = Returned (Some (mkdatetime y m d 0 0 0 0)).
Proof.
  intros V. pose proof (valid_date_bounds _ _ _ V) as (Hy & Hm & Hd).
  assert (Hd31 : (d <= 31)%Z).
  { unfold days_in_month in Hd. destruct ((m =? 2)%Z && is_leap y); [lia|].
    destruct (month_cases Hm) as [?|[?|[?|[?|[?|[?|[?|[?|[?|[?|[?|?]]]]]]]]]]]; subst m;
      cbn in Hd; lia. }
  cbn [parse_vetting_date]. rewrite format_dmY_strip.
  rewrite (@re_match_matches false vetting_pattern _ _
             vetting_pattern_unambiguous (format_dmY_matches y m d)).
  cbn [date_of_groups].
  rewrite int_of_zfill_4, !int_of_zfill_2 by lia.
  unfold datetime_new. now rewrite V.
Qed.

Lemma parse_vetting_date_roundtrip_witness :
  parse_vetting_date (Text (py "29/02/2024"))
  = Returned (Some (mkdatetime 2024 2 29 0 0 0 0)).
Proof.
  exact (@parse_vetting_date_roundtrip 2024 2 29 eq_refl).
Defined.

(** ** [parse_course_info] *)

(** C10.  A text of fewer than 50 characters parses to the record whose six
    fields are the empty string, whatever it contains. *)
Theorem parse_course_info_short (raw_text : str) :
  length raw_text < 50 ->
  parse_course_info raw_text =
  Returned {| title := []; description := []; status := []; location := [];
              date := []; bookable := [] |}.
Proof. exact (@parse_course_info_guard raw_text). Qed.

Lemma parse_course_info_short_witness :
  length (py "Status: Open
Dublin - 01/02/2025") < 50 /\
  parse_course_info (py "Status: Open
Dublin - 01/02/2025") =
  Returned {| title := []; description := []; status := []; location := [];
              date := []; bookable := [] |}.
Proof.
  split; [vm_compute; lia|apply parse_course_info_short; vm_compute; lia].
Defined.

(** C2, as the claim states it, fails: a text of 50 characters or more
    with a single line, with a status line without a colon, or with a
    location line without a hyphen makes the parser raise [IndexError]. *)
Lemma parse_course_info_raises :
  parse_course_info
    (py "Safeguarding Level One course, no further lines at all") = Raised IndexError /\
  parse_course_info
    (py "Safeguarding Level One
An introduction to safeguarding
Status Open
Dublin - 01/02/2025") = Raised IndexError /\
  parse_course_info
    (py "Safeguarding Level One
An introduction to safeguarding
Status: Open
Dublin 01/02/2025") = Raised IndexError.
Proof. repeat split; vm_compute; reflexivity. Qed.

(** C2, amended.  The parser returns a record exactly when the text has
    fewer than 50 characters or has at least four non-empty lines with a
    colon in line 2 and a hyphen in line 3; on every other text it raises
    [IndexError]. *)
Theorem parse_course_info_partial (raw_text : str) :
  ((exists c, parse_course_info raw_text = Returned c) <->
   (length raw_text < 50 \/ well_shaped (stripped_lines raw_text))) /\
  (parse_course_info raw_text = Raised IndexError <->
   (50 <= length raw_text /\ ~ well_shaped (stripped_lines raw_text))) /\
  (forall e, parse_course_info raw_text = Raised e -> e = IndexError).
Proof.
  destruct (Nat.lt_ge_cases (length raw_text) 50) as [Hs|Hl].
  - rewrite (parse_course_info_guard _ Hs).
    split; [|split].
    + split; [intros _; now left|intros _; now eexists].
    + split; [discriminate|intros [H _]; lia].
    + discriminate.
  - destruct (well_shaped_dec (stripped_lines raw_text)) as [W|W].
    + destruct (parse_course_info_well_shaped _ Hl W) as [c Hc]. rewrite Hc.
      split; [|split].
      * split; [intros _; now right|intros _; now exists c].
      * split; [discriminate|intros [_ H]; contradiction].
      * discriminate.
    + rewrite (parse_course_info_ill_shaped _ Hl W).
      split; [|split].
      * split; [intros [c H]; discriminate|intros [H|H]; [lia|contradiction]].
      * split; [intros _; now split|reflexivity].
      * now intros e [= <-].
Qed.

(** C6, as the claim states it, fails.  Six well-formed lines in fewer
    than 50 characters are not assigned to any field; and on a longer text
    whose line 2 has no colon nothing is assigned either, the parser
    raises. *)
Lemma parse_course_info_skips_short_text :
  (stripped_lines (py "Knots
Pioneering
Status: Open
Hall - 1 May
x
Yes")
   = [py "Knots"; py "Pioneering"; py "Status: Open"; py "Hall - 1 May"; py "x"; py "Yes"] /\
   parse_course_info (py "Knots
Pioneering
Status: Open
Hall - 1 May
x
Yes")
   = Returned {| title := []; description := []; status := []; location := [];
                 date := []; bookable := [] |}) /\
  (stripped_lines (py "Knots and lashings for beginners
Pioneering weekend
Status Open
Hall - 1 May")
   = [py "Knots and lashings for beginners"; py "Pioneering weekend"; py "Status Open";
      py "Hall - 1 May"] /\
   parse_course_info (py "Knots and lashings for beginners
Pioneering weekend
Status Open
Hall - 1 May")
   = Raised IndexError).
Proof. repeat split; vm_compute; reflexivity. Qed.

(** C6, amended.  On a text of at least 50 characters whose non-empty
    stripped lines number at least four, with a colon in line 2 and a
    hyphen in line 3, the fields are taken by position: line 0 is the
    title, line 1 the description, the status is the stripped piece of
    line 2 between its first colon and the next, location and date are the
    stripped pieces of line 3 before its first hyphen and between that
    hyphen and the next, and bookable is line 5, or the empty string when
    there are no more than five lines. *)
Theorem parse_course_info_positional
  (raw_text l0 l1 a b tail2 p q tail3 : str) (rest : list str) :
  50 <= length raw_text ->
  stripped_lines raw_text
  = l0 :: l1 :: (a ++ colon :: b ++ tail2) :: (p ++ hyphen :: q ++ tail3) :: rest ->
  ~ In colon a -> ~ In colon b -> tail2 = [] \/ (exists t, tail2 = colon :: t) ->
  ~ In hyphen p -> ~ In hyphen q -> tail3 = [] \/ (exists t, tail3 = hyphen :: t) ->
  parse_course_info raw_text =
  Returned {| title := l0; description := l1; status := strip b;
              location := strip p; date := strip q;
              bookable := nth 5 (stripped_lines raw_text) [] |}.
Proof.
  intros Hlen Hlines Ha Hb Ht2 Hp Hq Ht3.
  destruct (@split_two _ _ _ _ Ha Hb Ht2) as [ps2 E2].
  destruct (@split_two _ _ _ _ Hp Hq Ht3) as [ps3 E3].
  eapply parse_course_info_long; try eassumption.
  - now rewrite E2.
  - now rewrite E3.
  - now rewrite E3.
Qed.

Lemma parse_course_info_positional_witness :
  parse_course_info (py "Safeguarding Level One
An introduction to safeguarding for new scouters
Status: Open
Larch Hill - 01/02/2025
Training
Bookable") =
  Returned {| title := py "Safeguarding Level One";
              description := py "An introduction to safeguarding for new scouters";
              status := py "Open"; location := py "Larch Hill";
              date := py "01/02/2025"; bookable := py "Bookable" |}.
Proof.
  refine (eq_trans
    (@parse_course_info_positional _ (py "Safeguarding Level One")
       (py "An introduction to safeguarding for new scouters")
       (py "Status") (py " Open") [] (py "Larch Hill ") (py " 01/02/2025") []
       [py "Training"; py "Bookable"] _ _ _ _ _ _ _ _) _).
  - vm_compute. lia.
  - vm_compute. reflexivity.
  - cbn. intuition discriminate.
  - cbn. intuition discriminate.
  - now left.
  - cbn. intuition discriminate.
  - cbn. intuition discriminate.
  - now left.
  - vm_compute. reflexivity.
Defined.

(** * The report as a whole *)

(** X1.  When the script returns, a name carries under ['Safeguarding']
    the record of the last training row under that name that is due, and
    under ['Vetting'] the record of the last vetting row under that name
    that is due; it carries no record of a kind for which none of its rows
    is due.  A later row overwrites the record of an earlier one, and a row
    that is not due leaves it. *)
Theorem all_renewals_last_due_row (today : datetime) (df_training : list training_row)
  (df_vetting : list vetting_row) (all_renewals : dict) (expired_items : list expired) :
  check_all_renewals today df_training df_vetting = Returned (all_renewals, expired_items) ->
  exists three_months_from_now,
    add_days today 90 = Returned three_months_from_now /\
    forall name i,
      (listed_safeguarding all_renewals name i <->
       last_due training_name (training_due today three_months_from_now)
                df_training name i) /\
      (listed_vetting all_renewals name i <->
       last_due vetting_name (vetting_due today three_months_from_now)
                df_vetting name i).
Proof.
  intros H. apply check_all_renewals_returned in H as (tmfn & d1 & x1 & Ha & L1 & L2 & _).
  exists tmfn. split; [exact Ha|]. intros name i. split.
  - rewrite (@vetting_loop_untouched _ _ _ _ _ L2 name i).
    rewrite (@training_loop_listed _ _ _ _ _ L1 name i).
    split; [intros [Hl|[_ Hl]]; [exact Hl|now apply listed_safeguarding_empty in Hl]|].
    intros Hl. now left.
  - rewrite (@vetting_loop_listed _ _ _ _ _ L2 name i).
    rewrite (@training_loop_untouched _ _ _ _ _ L1 name i).
    split.
    + intros [Hl|[_ Hl]]; [exact Hl|now apply listed_vetting_empty in Hl].
    + intros Hl. now left.
Qed.

Lemma all_renewals_last_due_row_witness :
  exists three_months_from_now,
    add_days Sample.today 90 = Returned three_months_from_now /\
    forall name i,
      (listed_safeguarding Sample.all_renewals name i <->
       last_due training_name (training_due Sample.today three_months_from_now)
                Sample.df_training name i) /\
      (listed_vetting Sample.all_renewals name i <->
       last_due vetting_name (vetting_due Sample.today three_months_from_now)
                Sample.df_vetting name i).
Proof.
  apply all_renewals_last_due_row with (expired_items := Sample.expired_items).
  vm_compute. reflexivity.
Defined.

(** X2.  The address stored under a name is the ['Email Address'] of its
    first due training row; when none of its training rows is due, that of
    its first due vetting row.  The address is written when the name
    enters the dictionary and never again. *)
Theorem all_renewals_email (today : datetime) (df_training : list training_row)
  (df_vetting : list vetting_row) (all_renewals : dict) (expired_items : list expired) :
  check_all_renewals today df_training df_vetting = Returned (all_renewals, expired_items) ->
  exists three_months_from_now,
    add_days today 90 = Returned three_months_from_now /\
    forall name email,
      listed_email all_renewals name email <->
      (exists row,
         first_due training_name (training_due today three_months_from_now)
                   df_training name row /\
         email = t_email row) \/
      (none_due training_name (training_due today three_months_from_now)
                df_training name /\
       exists row,
         first_due vetting_name (vetting_due today three_months_from_now)
                   df_vetting name row /\
         email = v_email row).
Proof.
  intros H. apply check_all_renewals_returned in H as (tmfn & d1 & x1 & Ha & L1 & L2 & _).
  exists tmfn. split; [exact Ha|]. intros name email.
  rewrite (@vetting_loop_email _ _ _ _ _ L2 name email).
  rewrite (@training_loop_email _ _ _ _ _ L1 name email).
  rewrite (@training_loop_absent _ _ _ _ _ L1 name).
  split.
  - intros [[(r & Hr & _)|(_ & Hrow)]|((_ & Hn) & Hrow)];
      [discriminate|now left|now right].
  - intros [Hrow|(Hn & Hrow)]; [left; right; now split|].
    right. now repeat split.
Qed.

Lemma all_renewals_email_witness :
  exists three_months_from_now,
    add_days Sample.today 90 = Returned three_months_from_now /\
    forall name email,
      listed_email Sample.all_renewals name email <->
      (exists row,
         first_due training_name (training_due Sample.today three_months_from_now)
                   Sample.df_training name row /\
         email = t_email row) \/
      (none_due training_name (training_due Sample.today three_months_from_now)
                Sample.df_training name /\
       exists row,
         first_due vetting_name (vetting_due Sample.today three_months_from_now)
                   Sample.df_vetting name row /\
         email = v_email row).
Proof.
  apply all_renewals_email with (expired_items := Sample.expired_items).
  vm_compute. reflexivity.
Defined.

(** X3.  When the script returns, [all_renewals] has every name once,
    each with at least one of its two records, and a name is missing from
    it exactly when none of its training rows and none of its vetting rows
    is due. *)
Theorem all_renewals_entries (today : datetime) (df_training : list training_row)
  (df_vetting : list vetting_row) (all_renewals : dict) (expired_items : list expired) :
  check_all_renewals today df_training df_vetting = Returned (all_renewals, expired_items) ->
  exists three_months_from_now,
    add_days today 90 = Returned three_months_from_now /\
    one_entry_each all_renewals /\
    forall name,
      dict_get all_renewals name = None <->
      none_due training_name (training_due today three_months_from_now)
               df_training name /\
      none_due vetting_name (vetting_due today three_months_from_now)
               df_vetting name.
Proof.
  intros H. apply check_all_renewals_returned in H as (tmfn & d1 & x1 & Ha & L1 & L2 & _).
  exists tmfn. split; [exact Ha|]. split.
  - apply (@vetting_loop_entries _ _ _ _ _ L2), (@training_loop_entries _ _ _ _ _ L1),
      one_entry_each_empty.
  - intros name.
    rewrite (@vetting_loop_absent _ _ _ _ _ L2 name), (@training_loop_absent _ _ _ _ _ L1 name).
    cbn [dict_get]. tauto.
Qed.

Lemma all_renewals_entries_witness : one_entry_each Sample.all_renewals.
Proof.
  destruct (@all_renewals_entries Sample.today Sample.df_training Sample.df_vetting
              Sample.all_renewals Sample.expired_items ltac:(vm_compute; reflexivity))
    as (three_months_from_now & _ & H & _).
  exact H.
Defined.

(** X4.  When the script returns, [expired_items] holds one item for each
    training row whose latest safeguarding date expired before [today], in
    the order of the rows, and after them one item for each vetting row
    whose date expired, in the order of the rows.  Items are not merged by
    name. *)
Theorem expired_items_row_order (today : datetime) (df_training : list training_row)
  (df_vetting : list vetting_row) (all_renewals : dict) (expired_items : list expired) :
  check_all_renewals today df_training df_vetting = Returned (all_renewals, expired_items) ->
  exists from_training from_vetting,
    expired_items = from_training ++ from_vetting /\
    picked (training_expired today) df_training from_training /\
    picked (vetting_expired today) df_vetting from_vetting.
Proof. apply check_all_renewals_expired. Qed.

Lemma expired_items_row_order_witness :
  exists from_training from_vetting,
    Sample.expired_items = from_training ++ from_vetting /\
    picked (training_expired Sample.today) Sample.df_training from_training /\
    picked (vetting_expired Sample.today) Sample.df_vetting from_vetting.
Proof.
  apply expired_items_row_order with (all_renewals := Sample.all_renewals).
  vm_compute. reflexivity.
Defined.

Local Open Scope Z_scope.

(** X5.  When the script returns, every record of [all_renewals] has a
    completion date one of the parsers returned, an expiry 1095 calendar
    days after it, and a ['Days Until'] from 0 to 90 (to 89 when the
    script runs past midnight); every item of [expired_items] has such a
    completion date and expiry, and a ['Days Expired'] of 0 or more. *)
Theorem report_days_in_range (today : datetime) (df_training : list training_row)
  (df_vetting : list vetting_row) (all_renewals : dict) (expired_items : list expired) :
  wf today ->
  check_all_renewals today df_training df_vetting = Returned (all_renewals, expired_items) ->
  (forall name i,
     listed_safeguarding all_renewals name i \/ listed_vetting all_renewals name i ->
     dated (last_completed i) /\
     toordinal (expiry_date i) = toordinal (last_completed i) + 1095 /\
     0 <= days_until i <= 90 - past_midnight today) /\
  (forall x,
     In x expired_items ->
     dated (x_last_completed x) /\
     toordinal (x_expiry_date x) = toordinal (x_last_completed x) + 1095 /\
     0 <= x_days_expired x).
Proof. apply days_in_range. Qed.

Lemma report_days_in_range_witness :
  Forall (fun x => 0 <= x_days_expired x) Sample.expired_items.
Proof.
  assert (W : wf Sample.today) by (unfold wf; cbn; repeat split; (reflexivity || lia)).
  destruct (@report_days_in_range Sample.today Sample.df_training Sample.df_vetting
              Sample.all_renewals Sample.expired_items W ltac:(vm_compute; reflexivity))
    as [_ H].
  apply Forall_forall. intros x Hin. now destruct (H x Hin) as (_ & _ & H0).
Defined.

(** X6.  The two tests of the loops, read in calendar days.  The expiry
    of a date one of the parsers returned is midnight 1095 days later.  It
    is in the window [today <= expiry <= today + 90 days] exactly when
    its day is from today's to 90 days ahead, today's day itself counting
    only when the script runs at midnight sharp; ['Days Until'] is then
    the number of days ahead, less one past midnight.  It is expired
    ([expiry < today]) exactly when its day is before today's, or is
    today's and the script runs past midnight; ['Days Expired'] is then
    the number of days since. *)
Theorem renewal_tests_in_calendar_days
  (today three_months_from_now completed expiry : datetime) :
  wf today -> add_days today 90 = Returned three_months_from_now ->
  dated completed -> add_days completed validity_days = Returned expiry ->
  toordinal expiry = toordinal completed + 1095 /\
  (in_window today three_months_from_now expiry = true <->
   toordinal today + past_midnight today <= toordinal expiry <= toordinal today + 90) /\
  (in_window today three_months_from_now expiry = true ->
   sub_days expiry today = toordinal expiry - toordinal today - past_midnight today) /\
  (lt expiry today = true <-> toordinal expiry < toordinal today + past_midnight today) /\
  (lt expiry today = true -> sub_days today expiry = toordinal today - toordinal expiry).
Proof. apply window_in_days. Qed.

Lemma renewal_tests_in_calendar_days_witness :
  lt (mkdatetime 2026 11 3 0 0 0 0) Sample.today = true /\
  sub_days Sample.today (mkdatetime 2026 11 3 0 0 0 0) = 0.
Proof.
  assert (W : wf Sample.today) by (unfold wf; cbn; repeat split; (reflexivity || lia)).
  assert (D : dated (mkdatetime 2023 11 4 0 0 0 0))
    by (exists (Text (py "04/11/2023")); left; vm_compute; reflexivity).
  destruct (@renewal_tests_in_calendar_days Sample.today (mkdatetime 2027 2 1 14 30 0 0)
              (mkdatetime 2023 11 4 0 0 0 0) (mkdatetime 2026 11 3 0 0 0 0) W
              ltac:(vm_compute; reflexivity) D ltac:(vm_compute; reflexivity))
    as (_ & _ & _ & H1 & H2).
  assert (L : lt (mkdatetime 2026 11 3 0 0 0 0) Sample.today = true)
    by (apply H1; vm_compute; reflexivity).
  split; [exact L|]. rewrite (H2 L). vm_compute. reflexivity.
Defined.

(** X7.  When the names of the training rows are all different, nobody
    is both in [all_renewals] with a ['Safeguarding'] record and in
    [expired_items] with a ['Safeguarding'] item; likewise for vetting. *)
Theorem due_and_expired_exclusive (today : datetime) (df_training : list training_row)
  (df_vetting : list vetting_row) (all_renewals : dict) (expired_items : list expired) :
  check_all_renewals today df_training df_vetting = Returned (all_renewals, expired_items) ->
  (NoDup (map training_name df_training) ->
   forall name i x,
     listed_safeguarding all_renewals name i ->
     In x expired_items -> x_name x = name -> x_type x <> SafeguardingReq) /\
  (NoDup (map vetting_name df_vetting) ->
   forall name i x,
     listed_vetting all_renewals name i ->
     In x expired_items -> x_name x = name -> x_type x <> VettingReq).
Proof. apply due_or_expired. Qed.

Lemma due_and_expired_exclusive_witness :
  Forall (fun x => forall i, listed_safeguarding Sample.all_renewals (x_name x) i ->
                             x_type x <> SafeguardingReq)
         Sample.expired_items.
Proof.
  assert (N : NoDup (map training_name Sample.df_training)).
  { vm_compute. constructor; [intros [H|[]]; discriminate H|].
    constructor; [intros []|constructor]. }
  pose proof (proj1 (@due_and_expired_exclusive Sample.today Sample.df_training
                       Sample.df_vetting Sample.all_renewals Sample.expired_items
                       ltac:(vm_compute; reflexivity)) N) as H.
  apply Forall_forall. intros x Hin i Hl. exact (H (x_name x) i x Hl Hin eq_refl).
Defined.

(** X8.  One bad row aborts the whole report: when a course column of
    some training row raises, or a training row has fewer than 26 columns,
    or the vetting date of some vetting row raises, the script raises. *)
Theorem one_bad_row_aborts (today : datetime) (df_training : list training_row)
  (df_vetting : list vetting_row) :
  (exists row, In row df_training /\
               ((exists e, safeguarding_dates row = Raised e) \/
                (length (t_cells row) < 26)%nat)) \/
  (exists row e, In row df_vetting /\
                 parse_vetting_date (v_latest_vetting_completion_date row) = Raised e) ->
  exists e, check_all_renewals today df_training df_vetting = Raised e.
Proof. apply bad_row_aborts. Qed.

Lemma one_bad_row_aborts_witness :
  exists e, check_all_renewals Sample.today Sample.df_training [Sample.bad_row] = Raised e.
Proof.
  apply one_bad_row_aborts. right. exists Sample.bad_row, ValueError.
  split; [now left|vm_compute; reflexivity].
Defined.

Local Close Scope Z_scope.

Local Open Scope Z_scope.

(** X9.  The script returns exactly when [today + 90 days] is still in
    the calendar, every training row has its 26 columns and none of its
    course columns raises, the vetting date of no vetting row raises, and
    every date read is no later than 9996-12-31, so that its expiry is in
    the calendar.  In every other case it raises. *)
Theorem check_all_renewals_returns_iff (today : datetime) (df_training : list training_row)
  (df_vetting : list vetting_row) :
  wf today ->
  ((exists all_renewals expired_items,
      check_all_renewals today df_training df_vetting
      = Returned (all_renewals, expired_items)) <->
   toordinal today + 90 <= MAXORDINAL /\
   (forall row, In row df_training -> training_row_reads row) /\
   (forall row, In row df_vetting -> vetting_row_reads row)).
Proof.
  intros Wt. split.
  - intros (d & x & H).
    apply check_all_renewals_returned in H as (tmfn & d1 & x1 & Ha & L1 & L2 & _).
    split; [|split].
    + destruct (Z_le_gt_dec (toordinal today + 90) MAXORDINAL) as [Hle|Hgt]; [exact Hle|].
      rewrite add_days_overflow in Ha by lia. discriminate.
    + intros row Hin. destruct (for_each_returned_in _ _ _ L1 _ Hin) as (a & a' & Hs).
      now apply renew_safeguarding_reads in Hs.
    + intros row Hin. destruct (for_each_returned_in _ _ _ L2 _ Hin) as (a & a' & Hs).
      now apply renew_vetting_reads in Hs.
  - intros (Ho & Ht & Hv). now apply check_all_renewals_total.
Qed.

Lemma check_all_renewals_returns_iff_witness :
  Forall training_row_reads Sample.df_training /\
  Forall vetting_row_reads Sample.df_vetting.
Proof.
  assert (W : wf Sample.today) by (unfold wf; cbn; repeat split; (reflexivity || lia)).
  destruct (proj1 (@check_all_renewals_returns_iff Sample.today Sample.df_training
                     Sample.df_vetting W)) as (_ & Ht & Hv).
  - exists Sample.all_renewals, Sample.expired_items. vm_compute. reflexivity.
  - split; apply Forall_forall; assumption.
Defined.

(** X10.  Three years of validity are 1095 days, not three calendar
    years: the expiry of a date one of the parsers returned is its third
    anniversary less the 29ths of February in between, of which there is
    at most one.  It is the anniversary itself when there is none. *)
Theorem expiry_and_third_anniversary (completed expiry : datetime) :
  dated completed ->
  add_days completed validity_days = Returned expiry ->
  valid_date (year completed + 3) (month completed) (day completed) = true ->
  toordinal expiry
  = toordinal (mkdatetime (year completed + 3) (month completed) (day completed) 0 0 0 0)
    - leap_days_between (year completed) (month completed) /\
  0 <= leap_days_between (year completed) (month completed) <= 1 /\
  (leap_days_between (year completed) (month completed) = 0 ->
   expiry = mkdatetime (year completed + 3) (month completed) (day completed) 0 0 0 0).
Proof. apply expiry_anniversary_dated. Qed.

Lemma expiry_and_third_anniversary_witness :
  toordinal (mkdatetime 2026 12 11 0 0 0 0) = toordinal (mkdatetime 2026 12 12 0 0 0 0) - 1.
Proof.
  assert (D : dated (mkdatetime 2023 12 12 0 0 0 0))
    by (exists (Text (py "12/12/2023")); left; vm_compute; reflexivity).
  destruct (@expiry_and_third_anniversary (mkdatetime 2023 12 12 0 0 0 0)
              (mkdatetime 2026 12 11 0 0 0 0) D ltac:(vm_compute; reflexivity)
              ltac:(vm_compute; reflexivity)) as (H & _ & _).
  exact H.
Defined.

(** X11.  [parse_vetting_date] on a text cell, case by case: when the
    stripped text reads [D/M/Y] on one or two, one or two, and four
    digits, it returns midnight of that day if the calendar has it and
    raises [ValueError] if not; on every other text it returns [None]. *)
Theorem parse_vetting_date_cases (date_str : str) :
  (forall day month year,
     dmy_text (strip date_str) day month year ->
     parse_vetting_date (Text date_str) =
     if valid_date (int_of_digits year) (int_of_digits month) (int_of_digits day)
     then Returned (Some (mkdatetime (int_of_digits year) (int_of_digits month)
                                     (int_of_digits day) 0 0 0 0))
     else Raised ValueError) /\
  ((forall day month year, ~ dmy_text (strip date_str) day month year) ->
   parse_vetting_date (Text date_str) = Returned None).
Proof.
  destruct (parse_vetting_date_spec date_str) as [H1 H2]. split; [|exact H2].
  intros day month year H. rewrite (H1 day month year H). unfold datetime_new.
  now destruct (valid_date _ _ _).
Qed.

(** X12.  What the script prints is a stable sort of what it collected:
    the people of [all_renewals] by the smaller of their ['Days Until']
    (999 for a missing record), the items of [expired_items] by
    ['Days Expired']; each list is a rearrangement of the collection, in
    ascending order of the key, and entries with the same key keep the
    order they were collected in. *)
Theorem report_order_is_stable_sort (today : datetime) (df_training : list training_row)
  (df_vetting : list vetting_row) (shown : list (str * renewal))
  (shown_expired : list expired) :
  report today df_training df_vetting = Returned (shown, shown_expired) ->
  exists all_renewals expired_items,
    check_all_renewals today df_training df_vetting
    = Returned (all_renewals, expired_items) /\
    Permutation shown all_renewals /\
    StronglySorted (fun a b => display_key a <= display_key b) shown /\
    (forall k, filter (fun item => display_key item =? k) shown
               = filter (fun item => display_key item =? k) all_renewals) /\
    Permutation shown_expired expired_items /\
    StronglySorted (fun a b => x_days_expired a <= x_days_expired b) shown_expired /\
    (forall k, filter (fun x => x_days_expired x =? k) shown_expired
               = filter (fun x => x_days_expired x =? k) expired_items).
Proof.
  unfold report.
  destruct (check_all_renewals today df_training df_vetting) as [[d x]|e]; [|discriminate].
  cbn [bind fst snd]. intros [= <- <-]. exists d, x. split; [reflexivity|].
  unfold display_order, expired_order.
  repeat split; intros;
    auto using sorted_by_perm, sorted_by_sorted, sorted_by_filter.
Qed.

Lemma report_order_is_stable_sort_witness :
  StronglySorted (fun a b => x_days_expired a <= x_days_expired b)
                 (expired_order Sample.expired_items).
Proof.
  destruct (@report_order_is_stable_sort Sample.today Sample.df_training Sample.df_vetting
              (display_order Sample.all_renewals) (expired_order Sample.expired_items)
              ltac:(vm_compute; reflexivity))
    as (d & x & _ & _ & _ & _ & _ & H & _).
  exact H.
Defined.

Local Close Scope Z_scope.

Local Open Scope Z_scope.

(** X13.  The key the people are sorted by is the ['Days Until'] of
    their most urgent record: for every entry of [all_renewals] it is the
    ['Days Until'] of one of the entry's records, no larger than that of
    the other, and from 0 to 90; the default 999 is never the key. *)
Theorem display_key_most_urgent (today : datetime) (df_training : list training_row)
  (df_vetting : list vetting_row) (all_renewals : dict) (expired_items : list expired) :
  wf today ->
  check_all_renewals today df_training df_vetting = Returned (all_renewals, expired_items) ->
  forall name r,
    In (name, r) all_renewals ->
    0 <= display_key (name, r) <= 90 - past_midnight today /\
    (exists i,
       (r_safeguarding r = Some i \/ r_vetting r = Some i) /\
       display_key (name, r) = days_until i) /\
    (forall i,
       r_safeguarding r = Some i \/ r_vetting r = Some i ->
       display_key (name, r) <= days_until i).
Proof. apply display_key_least. Qed.

Lemma display_key_most_urgent_witness :
  0 <= display_key (py "Aoife Byrne", Sample.aoife) <= 90 - past_midnight Sample.today.
Proof.
  assert (W : wf Sample.today) by (unfold wf; cbn; repeat split; (reflexivity || lia)).
  destruct (@display_key_most_urgent Sample.today Sample.df_training Sample.df_vetting
              Sample.all_renewals Sample.expired_items W ltac:(vm_compute; reflexivity)
              (py "Aoife Byrne") Sample.aoife ltac:(vm_compute; left; reflexivity))
    as (H & _).
  exact H.
Defined.

Local Close Scope Z_scope.

(** * The export of the courses *)

(** X14.  What [parse_course_info] returns: the all-empty record for a
    text under 50 characters; for a longer text a record whose title and
    description are not empty, whose fields are stripped and on one line,
    whose status has no colon and whose location and date have no hyphen.
    So the closing test on an empty title and description never fires. *)
Theorem parse_course_info_fields (raw_text : str) (c : course) :
  parse_course_info raw_text = Returned c ->
  (length raw_text < 50 -> c = empty_course) /\
  (50 <= length raw_text -> parsed_fields c).
Proof.
  intros H. split; intros Hlen.
  - now apply (@empty_course_title raw_text c H).
  - now apply (@parse_course_info_parsed_fields raw_text c Hlen H).
Qed.

Lemma parse_course_info_fields_witness : parsed_fields Sample.parsed_course.
Proof.
  apply (proj2 (@parse_course_info_fields Sample.course_text Sample.parsed_course
                  ltac:(vm_compute; reflexivity))).
  vm_compute. lia.
Defined.

(** X15.  The identifier [title-date-location] by which [main] drops
    duplicates tells parsed courses apart by exactly these three fields:
    two courses [parse_course_info] returned have the same identifier
    exactly when they have the same title, date and location, whatever
    hyphens the titles hold.  Description, status and bookable play no
    part. *)
Theorem identifier_tells_parsed_courses_apart (text1 text2 : str) (c1 c2 : course) :
  parse_course_info text1 = Returned c1 ->
  parse_course_info text2 = Returned c2 ->
  (identifier c1 = identifier c2 <->
   title c1 = title c2 /\ date c1 = date c2 /\ location c1 = location c2).
Proof. apply identifier_parsed. Qed.

Lemma identifier_tells_parsed_courses_apart_witness :
  identifier Sample.parsed_course = identifier empty_course <->
  title Sample.parsed_course = title empty_course /\
  date Sample.parsed_course = date empty_course /\
  location Sample.parsed_course = location empty_course.
Proof.
  apply (@identifier_tells_parsed_courses_apart Sample.course_text (py "NE-1234")).
  - vm_compute. reflexivity.
  - vm_compute. reflexivity.
Defined.

(** X16.  The loop of [main] that drops duplicates keeps, in the order
    found, the first course of each identifier: the courses kept have
    pairwise different identifiers, every identifier found is kept, every
    course kept was found, a course found next is appended exactly when no
    course before it has its identifier, and running the loop on its own
    result changes nothing. *)
Theorem unique_courses_keeps_first (courses : list course) :
  NoDup (map identifier (unique_courses courses)) /\
  (forall id, In id (map identifier (unique_courses courses)) <->
              In id (map identifier courses)) /\
  (forall c, In c (unique_courses courses) -> In c courses) /\
  (forall c,
     unique_courses (courses ++ [c]) =
     if same_identifier_in courses c then unique_courses courses
     else unique_courses courses ++ [c]) /\
  unique_courses (unique_courses courses) = unique_courses courses.
Proof.
  split; [apply unique_courses_nodup|].
  split; [apply unique_courses_identifiers|].
  split; [apply unique_courses_in|].
  split; [apply unique_courses_snoc|].
  apply unique_courses_fixed, unique_courses_nodup.
Qed.

(** X17.  The rows of the CSV file: none when no course was found (no
    file is written); otherwise the header and one row of six cells for
    each course kept, every cell in ASCII and stripped.  On a field that
    is already ASCII the cleaning is [strip]. *)
Theorem csv_rows_cleaned (courses : list course) :
  (csv_rows courses = None <-> courses = []) /\
  (forall rows,
     csv_rows courses = Some rows ->
     exists body,
       rows = csv_header :: body /\
       length body = length (unique_courses courses) /\
       Forall (fun row =>
                 length row = 6 /\
                 Forall (fun cell => ascii_only cell /\ stripped cell) row) body) /\
  (forall s, ascii_only s -> clean s = strip s).
Proof.
  split; [|split].
  - unfold csv_rows. destruct courses; split; congruence.
  - intros rows H. unfold csv_rows in H. destruct courses as [|c cs]; [discriminate|].
    injection H as <-. eexists. split; [reflexivity|]. split; [apply length_map|].
    rewrite Forall_forall. intros row Hin. apply in_map_iff in Hin as (c' & <- & _).
    split; [reflexivity|]. unfold csv_row.
    repeat (constructor; [split; [apply clean_ascii|apply clean_stripped]|]). constructor.
  - apply clean_ascii_text.
Qed.

(** X18.  Every course [extract_courses_from_page] returns, by whichever
    of its three searches, is what [parse_course_info] made of a stripped
    text of 50 characters or more: its title and description are not
    empty and its fields are as in X14.  No all-empty record and no
    record without a title reaches the export. *)
Theorem extracted_courses_parsed (p : page) (c : course) :
  In c (extract_courses_from_page p) -> parsed_from_page c.
Proof.
  intros Hin. pose proof (extract_courses_parsed p) as H.
  rewrite Forall_forall in H. now apply H.
Qed.

Lemma extracted_courses_parsed_witness : parsed_from_page Sample.parsed_course.
Proof.
  apply (@extracted_courses_parsed Sample.one_row_page).
  vm_compute. left. reflexivity.
Defined.

(** X19.  In the search by selectors, an element that looks like a
    course but whose text [parse_course_info] cannot index ends the loop
    over the elements of its selector: the [IndexError] is caught outside
    that loop, the courses collected so far are kept, and the elements
    after it are not looked at, well formed or not. *)
Theorem ill_shaped_element_ends_selector (before : list (dom str)) (t : str)
  (after : list (dom str)) (courses : list course) :
  looks_like_course (strip t) = true ->
  ~ well_shaped (stripped_lines (strip t)) ->
  try_loop structured_body (before ++ Got t :: after) courses =
  try_loop structured_body before courses.
Proof.
  intros Hl Hn. apply try_loop_stops. intros cs. unfold structured_body. rewrite Hl.
  unfold parse_and_keep. apply looks_like_course_long in Hl.
  rewrite (@parse_course_info_ill_shaped (strip t)) by (assumption || lia). reflexivity.
Qed.

Lemma ill_shaped_element_ends_selector_witness :
  try_loop structured_body ([] ++ Got Sample.heading_text :: [Got Sample.course_text]) []
  = try_loop structured_body [] [].
Proof.
  apply ill_shaped_element_ends_selector.
  - vm_compute. reflexivity.
  - intros (l0 & l1 & l2 & l3 & rest & E & _). vm_compute in E. discriminate E.
Defined.
